(** * CTRM simulator: frame-selection pipeline, attempt scorer and test sessions

    A shallow embedding of the video-upload route (server routes),
    the click scorer (client utilities and the test display) and the
    test-session hook with its in-memory storage, followed by the
    properties of the specification that concern them.

    Numbers.  JavaScript numbers are modelled as exact rationals [Q]:
    finite values, with the comparisons and the arithmetic of the source
    read exactly.  [NaN], infinities and rounding are outside the model.
    Integers are unbounded: the 32-bit range of an integer column of the
    schema is outside the model as well.

    Text.  The two analysis logs are read line by line; the code looks at
    a line only through [includes], [match] and [parseFloat], so a line
    is modelled by the outcome of these observations (record [line]). *)

From Stdlib Require Import Ascii QArith Qabs Qminmax Qround Lqa.
From stdpp Require Import gmap strings list fin_maps pretty sorting.

(** ** Numbers *)

Module Num.

(** [a <= b], [a > b] on numbers. *)
Definition leb (a b : Q) : bool := Qle_bool a b.
Definition gtb (a b : Q) : bool := negb (Qle_bool a b).

(** [Math.abs], [Math.min], [Math.ceil], [Math.round]. *)
Definition abs (a : Q) : Q := Qabs a.
Definition min (a b : Q) : Q := Qmin a b.
Definition ceil (a : Q) : Z := Qceiling a.
Definition round (a : Q) : Z := Qfloor (a + (1 # 2))%Q.

(** [a || d] on an optional number: [undefined] and [0] are falsy. *)
Definition or_else (a : option Q) (d : Q) : Q :=
  match a with
  | Some v => if Qeq_bool v 0 then d else v
  | None => d
  end.

Definition of_nat (n : nat) : Q := inject_Z (Z.of_nat n).

End Num.

(** ** Shared schema *)

Record HotspotData := {
  hotspot_id : string;
  hotspot_x : Q;
  hotspot_y : Q;
  hotspot_label : string
}.

(** ** Attempt scorer *)

Module Scorer.

(** [validateClickTolerance] of the client utilities; the last argument
    is the optional [tolerance], 25 when omitted. *)
Definition validateClickTolerance
    (clickX clickY expectedX expectedY : Q) (tolerance : option Q) : bool :=
  let tolerance := default 25%Q tolerance in
  Num.leb (Num.abs (clickX - expectedX)) tolerance &&
  Num.leb (Num.abs (clickY - expectedY)) tolerance.

(** The verdict computed by [handleHotspotClick] of the test display on
    the click position already converted to image coordinates. *)
Definition displayVerdict (originalX originalY : Q) (hotspot : HotspotData) : bool :=
  let tolerance := 25%Q in
  Num.leb (Num.abs (originalX - hotspot_x hotspot)) tolerance &&
  Num.leb (Num.abs (originalY - hotspot_y hotspot)) tolerance.

(** What the display reports to [onHotspotClick]. *)
Record Report := {
  rep_hotspotId : string;
  rep_clickX : Q;
  rep_clickY : Q;
  rep_isCorrect : bool;
  rep_timeSpent : Q
}.

(** The sizes read from the displayed image. *)
Record Image := {
  naturalWidth : Q;
  naturalHeight : Q;
  clientWidth : Q;
  clientHeight : Q
}.

(** [handleHotspotClick] of the test display, for a mouse event at
    [(clientX, clientY)] on an overlay whose bounding rectangle starts at
    [(left, top)]; [img] is the image found beside the overlay, if any.
    [None]: nothing is reported.  The image is taken to be laid out
    (non-zero client size). *)
Definition displayHotspotClick
    (clientX clientY left top : Q) (img : option Image)
    (hotspot : HotspotData) (stepTimer : Q) : option Report :=
  let clickX := (clientX - left)%Q in
  let clickY := (clientY - top)%Q in
  match img with
  | None => None
  | Some img =>
      let scaleX := (naturalWidth img / clientWidth img)%Q in
      let scaleY := (naturalHeight img / clientHeight img)%Q in
      let originalX := (clickX * scaleX)%Q in
      let originalY := (clickY * scaleY)%Q in
      Some {| rep_hotspotId := hotspot_id hotspot;
              rep_clickX := originalX;
              rep_clickY := originalY;
              rep_isCorrect := displayVerdict originalX originalY hotspot;
              rep_timeSpent := stepTimer |}
  end.

(** A circular (Euclidean) window of radius [t], for comparison. *)
Definition withinCircle (x y ex ey t : Q) : bool :=
  Num.leb ((x - ex) * (x - ex) + (y - ey) * (y - ey)) (t * t).

End Scorer.

(** ** Video-upload pipeline *)

Module Pipeline.

(** *** Text lines of the analysis logs *)

Record line := {
  incl_silence_start : bool;       (* line.includes('silence_start:') *)
  match_silence_start : option Q;  (* parseFloat of /silence_start: ([\d.]+)/ *)
  incl_silence_end : bool;         (* line.includes('silence_end:') *)
  match_silence_end : option Q;    (* parseFloat of /silence_end: ([\d.]+)/ *)
  match_pts_time : option Q;       (* parseFloat of /pts_time:([\d.]+)/ *)
  match_scene : option Q           (* parseFloat of /scene:([\d.]+)/ *)
}.

Definition other_line : line :=
  {| incl_silence_start := false; match_silence_start := None;
     incl_silence_end := false; match_silence_end := None;
     match_pts_time := None; match_scene := None |}.

(** A line [... silence_start: t]. *)
Definition silence_start_line (t : Q) : line :=
  {| incl_silence_start := true; match_silence_start := Some t;
     incl_silence_end := false; match_silence_end := None;
     match_pts_time := None; match_scene := None |}.

(** A line [... silence_end: t | silence_duration: ...]. *)
Definition silence_end_line (t : Q) : line :=
  {| incl_silence_start := false; match_silence_start := None;
     incl_silence_end := true; match_silence_end := Some t;
     match_pts_time := None; match_scene := None |}.

(** A line carrying [pts_time:t] and [scene:s]. *)
Definition showinfo_line (t s : Q) : line :=
  {| incl_silence_start := false; match_silence_start := None;
     incl_silence_end := false; match_silence_end := None;
     match_pts_time := Some t; match_scene := Some s |}.

(** *** Speech segmentation *)

Record segment := { seg_start : Q; seg_end : Q }.

Record audio_state := {
  silenceStart : option Q;
  lastSpeechEnd : Q;
  speechSegments : list segment
}.

Definition audio_init : audio_state :=
  {| silenceStart := None; lastSpeechEnd := 0%Q; speechSegments := [] |}.

(** Body of the loop over the lines of the audio log. *)
Definition audio_step (s : audio_state) (l : line) : audio_state :=
  if incl_silence_start l then
    match match_silence_start l, silenceStart s with
    | Some start, None =>
        {| silenceStart := Some start;
           lastSpeechEnd := lastSpeechEnd s;
           speechSegments :=
             if Num.gtb start (lastSpeechEnd s + 3)%Q
             then speechSegments s ++ [ {| seg_start := lastSpeechEnd s; seg_end := start |} ]
             else speechSegments s |}
    | _, _ => s
    end
  else if incl_silence_end l && bool_decide (silenceStart s ≠ None) then
    match match_silence_end l with
    | Some e =>
        {| silenceStart := None;
           lastSpeechEnd := e;
           speechSegments := speechSegments s |}
    | None => s
    end
  else s.

Definition audio_loop (lines : list line) : audio_state :=
  fold_left audio_step lines audio_init.

Definition parse_audio (lines : list line) : list segment :=
  speechSegments (audio_loop lines).

(** The fallback of the [catch] branch: one pseudo-segment every 15
    seconds of an assumed 300 seconds. *)
Definition videoDuration : Q := 300%Q.

Definition fallback_segments : list segment :=
  map (λ i : nat, {| seg_start := (Num.of_nat i * 15)%Q;
                     seg_end := (Num.of_nat i * 15 + 2)%Q |})
      (seq 0 (Z.to_nat (Num.ceil (videoDuration / 15)%Q))).

(** *** Files, external commands and the effects of the handler *)

Inductive node :=
| Dir
| File (content : list line).

Inductive command :=
| CmdQuick (videoPath outputDir : string)
| CmdAudio (videoPath outputDir : string)
| CmdCursor (videoPath outputDir : string)
| CmdExtract (videoPath : string) (timestamp : Q) (target : string).

(** What the handler writes to the console. *)
Inductive log_msg :=
| LogQuickMode                 (* Using quick mode - ... *)
| LogAnalyzing                 (* Analyzing audio patterns ... *)
| LogAnalysisCompleted         (* Audio and cursor analysis completed with output *)
| LogFallback                  (* Could not parse audio analysis, using fallback *)
| LogCursorFound (n : nat)     (* Found n potential click events from cursor tracking *)
| LogCursorFailed              (* Could not parse cursor tracking data *)
| LogSpeechSegments (n : nat)  (* Found n speech segments *)
| LogClickEvents (n : nat)     (* Found n potential click events *)
| LogExtractFailed (type : string) (timestamp : Q)
                               (* Failed to extract frame for ... event at ...s *)
| LogProcessingError.          (* Video processing error: ... *)

Record state := {
  fs : gmap string node;     (* the file system, by path *)
  rng : nat;                 (* number of Math.random() draws so far *)
  console : list log_msg     (* console output so far *)
}.

(** A computation returns a value or throws ([None]); the state
    survives an exception. *)
Definition M (A : Type) : Type := state → option A * state.

#[export] Instance M_ret : MRet M := λ A a s, (Some a, s).
#[export] Instance M_bind : MBind M := λ A B f m s,
  match m s with
  | (Some a, s') => f a s'
  | (None, s') => (None, s')
  end.

Definition throw {A} : M A := λ s, (None, s).

Definition log (m : log_msg) : M unit := λ s,
  (Some (), {| fs := fs s; rng := rng s; console := console s ++ [m] |}).

Definition try_catch {A} (body handler : M A) : M A := λ s,
  match body s with
  | (Some a, s') => (Some a, s')
  | (None, s') => handler s'
  end.

(** [(dirname, basename)] of a path; no dirname without a slash. *)
Fixpoint split_path (p : string) : option string * string :=
  match p with
  | EmptyString => (None, EmptyString)
  | String c r =>
      match split_path r with
      | (Some d, b) => (Some (String c d), b)
      | (None, b) =>
          if Ascii.eqb c "/"%char then (Some EmptyString, b) else (None, String c b)
      end
  end.

Definition basename (p : string) : string := (split_path p).2.

Definition existsSync (p : string) : M bool := λ s,
  (Some (bool_decide (fs s !! p ≠ None)), s).

Definition mkdirSync (p : string) : M unit := λ s,
  match fs s !! p with
  | Some _ => (None, s)
  | None =>
      match (split_path p).1 with
      | Some d =>
          match fs s !! d with
          | Some Dir => (Some (), {| fs := <[p := Dir]> (fs s); rng := rng s; console := console s |})
          | _ => (None, s)
          end
      | None => (Some (), {| fs := <[p := Dir]> (fs s); rng := rng s; console := console s |})
      end
  end.

Definition readFileSync (p : string) : M (list line) := λ s,
  match fs s !! p with
  | Some (File content) => (Some content, s)
  | _ => (None, s)
  end.

Definition unlinkSync (p : string) : M unit := λ s,
  match fs s !! p with
  | Some (File _) => (Some (), {| fs := delete p (fs s); rng := rng s; console := console s |})
  | _ => (None, s)
  end.

(** Names of the entries of directory [d]. *)
Definition readdirSync (d : string) : M (list string) := λ s,
  match fs s !! d with
  | Some Dir =>
      (Some (omap (λ p, match split_path p with
                        | (Some d', b) => if String.eqb d' d then Some b else None
                        | _ => None
                        end) (elements (dom (fs s)))), s)
  | _ => (None, s)
  end.

(** A computation leaves an existing entry at path [p] as it is,
    whatever its outcome. *)
Definition keeps {A} (p : string) (m : M A) : Prop :=
  ∀ s r s', m s = (r, s') → is_Some (fs s !! p) → fs s' !! p = fs s !! p.

(** A computation does not remove the entry at path [p]: if there is
    one before, there is one after, whatever the outcome. *)
Definition survives {A} (p : string) (m : M A) : Prop :=
  ∀ s r s', m s = (r, s') → is_Some (fs s !! p) → is_Some (fs s' !! p).

(** The same of the runs that throw only. *)
Definition survives_failing {A} (p : string) (m : M A) : Prop :=
  ∀ s s', m s = (None, s') → is_Some (fs s !! p) → is_Some (fs s' !! p).

Section WithWorld.

(** The external commands: whether the call resolves, and the file
    system it leaves. *)
Variable exec : command → gmap string node → bool * gmap string node.

(** The successive values of [Math.random()]. *)
Variable random : nat → Q.

Definition execAsync (c : command) : M unit := λ s,
  let '(ok, fs') := exec c (fs s) in
  (if ok then Some () else None, {| fs := fs'; rng := rng s; console := console s |}).

(** No call of an external command rejects. *)
Definition never_fails : Prop := ∀ c f, (exec c f).1 = true.

(** No external command removes an entry: what exists before a call
    exists after it (its content may have been rewritten). *)
Definition never_removes : Prop :=
  ∀ c f p, is_Some (f !! p) → is_Some ((exec c f).2 !! p).

(** A frame extraction that resolves has written its target. *)
Definition writes_target : Prop :=
  ∀ videoPath timestamp target f,
    (exec (CmdExtract videoPath timestamp target) f).1 = true →
    is_Some ((exec (CmdExtract videoPath timestamp target) f).2 !! target).

Definition mathRandom : M Q := λ s,
  (Some (random (rng s)), {| fs := fs s; rng := S (rng s); console := console s |}).

(** *** Click candidates from the scene-change log *)

Record ClickEvent := {
  ce_timestamp : Q;
  ce_x : option Q;
  ce_y : option Q;
  ce_confidence : Q
}.

(** The object pushed for a scene change; [rx], [ry] are the two
    draws, [x] first. *)
Definition click_candidate (timestamp sceneScore rx ry : Q) : ClickEvent :=
  {| ce_timestamp := timestamp;
     ce_x := Some (400 + rx * 200)%Q;
     ce_y := Some (200 + ry * 200)%Q;
     ce_confidence := Num.min sceneScore 1%Q |}.

Fixpoint cursor_loop (lines : list line) (clickEvents : list ClickEvent)
    : M (list ClickEvent) :=
  match lines with
  | [] => mret clickEvents
  | l :: rest =>
      match match_pts_time l, match_scene l with
      | Some timestamp, Some sceneScore =>
          if Num.gtb sceneScore 0.4%Q then
            rx ← mathRandom;
            ry ← mathRandom;
            cursor_loop rest
              (clickEvents ++ [click_candidate timestamp sceneScore rx ry])
          else cursor_loop rest clickEvents
      | _, _ => cursor_loop rest clickEvents
      end
  end.

(** *** Merge into candidate events *)

Record Event := {
  ev_timestamp : Q;
  ev_type : string;
  ev_confidence : Q;
  ev_reason : string;
  ev_x : Q;
  ev_y : Q
}.

(** The object built for a speech segment; [rx], [ry] are the two
    draws, [x] first. *)
Definition speech_event (s : segment) (rx ry : Q) : Event :=
  {| ev_timestamp := (seg_start s + (seg_end s - seg_start s) / 2)%Q;
     ev_type := "speech";
     ev_confidence := 0.7%Q;
     ev_reason := "Speech detected";
     ev_x := (400 + rx * 200)%Q;
     ev_y := (300 + ry * 200)%Q |}.

(** [speechSegments.map(s => ...)] *)
Fixpoint speech_events (segments : list segment) : M (list Event) :=
  match segments with
  | [] => mret []
  | s :: rest =>
      rx ← mathRandom;
      ry ← mathRandom;
      events ← speech_events rest;
      mret (speech_event s rx ry :: events)
  end.

Definition click_event (c : ClickEvent) : Event :=
  {| ev_timestamp := ce_timestamp c;
     ev_type := "click";
     ev_confidence := ce_confidence c;
     ev_reason := "Visual change detected (potential click)";
     ev_x := Num.or_else (ce_x c) 400%Q;
     ev_y := Num.or_else (ce_y c) 300%Q |}.

(** [.sort((a, b) => a.timestamp - b.timestamp)]: the sort is stable,
    which determines its result; written as an insertion sort. *)
Fixpoint insert_event (e : Event) (l : list Event) : list Event :=
  match l with
  | [] => [e]
  | h :: t =>
      if Num.leb (ev_timestamp e) (ev_timestamp h) then e :: h :: t
      else h :: insert_event e t
  end.

Definition sort_events (l : list Event) : list Event :=
  foldr insert_event [] l.

(** The order of the comparator: [a.timestamp - b.timestamp <= 0]. *)
Definition earlier (a b : Event) : Prop :=
  (ev_timestamp a <= ev_timestamp b)%Q.

(** *** Frame extraction *)

Record ClickData := {
  cd_x : Q;
  cd_y : Q;
  cd_confidence : Q;
  cd_reason : string
}.

Record FrameData := {
  fd_url : string;
  fd_type : string;
  fd_filename : string;
  fd_timestamp : Q;
  fd_selected : bool;
  fd_clickData : ClickData
}.

Fixpoint repeat_char (n : nat) (c : ascii) : string :=
  match n with
  | O => EmptyString
  | S n' => String c (repeat_char n' c)
  end.

Definition padStart (s : string) (n : nat) (c : ascii) : string :=
  repeat_char (n - String.length s) c +:+ s.

Definition smart_filename (event : Event) (i : nat) : string :=
  ev_type event +:+ "_" +:+ padStart (pretty i) 3 "0" +:+ ".png".

Definition smart_frame (outputDir : string) (event : Event) (i : nat) : FrameData :=
  let filename := smart_filename event i in
  {| fd_url := "/api/frames/" +:+ basename outputDir +:+ "/" +:+ filename;
     fd_type := ev_type event;
     fd_filename := filename;
     fd_timestamp := ev_timestamp event;
     fd_selected :=
       String.eqb (ev_type event) "click" || Num.gtb (ev_confidence event) 0.8%Q;
     fd_clickData :=
       {| cd_x := ev_x event;
          cd_y := ev_y event;
          cd_confidence := ev_confidence event;
          cd_reason := ev_reason event |} |}.

(** The descriptors of [events], numbered from [i]. *)
Fixpoint frames_from (outputDir : string) (i : nat) (events : list Event)
    : list FrameData :=
  match events with
  | [] => []
  | event :: rest => smart_frame outputDir event i :: frames_from outputDir (S i) rest
  end.

(** The loop [for (i = 0; i < bound; i++)] from index [i] on;
    [events] are the events at indices [i], [i+1], ... below the bound. *)
Fixpoint extract_loop (videoPath outputDir : string) (i : nat)
    (events : list Event) (frameData : list FrameData) : M (list FrameData) :=
  match events with
  | [] => mret frameData
  | event :: rest =>
      frameData' ←
        try_catch
          (execAsync (CmdExtract videoPath (ev_timestamp event)
                        (outputDir +:+ "/" +:+ smart_filename event i));;
           mret (frameData ++ [smart_frame outputDir event i]))
          (log (LogExtractFailed (ev_type event) (ev_timestamp event));;
           mret frameData);
      extract_loop videoPath outputDir (S i) rest frameData'
  end.

Definition extract_frames (videoPath outputDir : string) (combinedEvents : list Event)
    : M (list FrameData) :=
  extract_loop videoPath outputDir 0
    (take (Nat.min (length combinedEvents) 20) combinedEvents) [].

(** *** Quick mode *)

Definition startsWith (s p : string) : bool := String.prefix p s.

Definition endsWith (s p : string) : bool :=
  (String.length p <=? String.length s)%nat &&
  String.eqb (String.substring (String.length s - String.length p) (String.length p) s) p.

(** [.sort()] on file names: code-unit order. *)
Fixpoint insert_name (f : string) (l : list string) : list string :=
  match l with
  | [] => [f]
  | h :: t => if String.leb f h then f :: h :: t else h :: insert_name f t
  end.

Definition sort_names (l : list string) : list string :=
  foldr insert_name [] l.

Definition quick_frame (outputDir : string) (index : nat) (file : string) : FrameData :=
  {| fd_url := "/api/frames/" +:+ basename outputDir +:+ "/" +:+ file;
     fd_type := "quick_extract";
     fd_filename := file;
     fd_timestamp := Num.of_nat (index * 10);
     fd_selected := true;
     fd_clickData :=
       {| cd_x := Num.of_nat (400 + (index * 50) mod 400);
          cd_y := Num.of_nat (300 + (index * 30) mod 300);
          cd_confidence := 0.7%Q;
          cd_reason := "Regular interval extraction" |} |}.

Definition quick_files (outputDir : string) (names : list string) : list FrameData :=
  imap (quick_frame outputDir)
    (sort_names
       (List.filter (λ file, startsWith file "quick_" && endsWith file ".png") names)).

(** *** The route [POST /api/upload-video] *)

Record Request := {
  req_file : option string;       (* req.file.path *)
  req_quickMode : option string   (* req.body.quickMode *)
}.

Inductive response :=
| BadRequest                      (* 400, no video file provided *)
| ServerError                     (* 500, failed to process video *)
| QuickOk (frames : list string) (frameAnalysis : list FrameData)
| SmartOk (frames : list string) (frameAnalysis : list FrameData)
          (speechSegments clickEvents : nat).

(** The field [frameAnalysis] of a response. *)
Definition frameAnalysis_of (r : response) : list FrameData :=
  match r with
  | QuickOk _ frameAnalysis => frameAnalysis
  | SmartOk _ frameAnalysis _ _ => frameAnalysis
  | _ => []
  end.

(** The path of the image of a descriptor in the working directory. *)
Definition frame_path (outputDir : string) (fd : FrameData) : string :=
  outputDir +:+ "/" +:+ fd_filename fd.

Definition audio_path (outputDir : string) : string :=
  outputDir +:+ "/audio_analysis.txt".

Definition cursor_path (outputDir : string) : string :=
  outputDir +:+ "/cursor_analysis.txt".

(** [speechSegments] after the first [try]/[catch]. *)
Definition read_speech_segments (outputDir : string) : M (list segment) :=
  try_catch
    (lines ← readFileSync (audio_path outputDir);
     mret (parse_audio lines))
    (log LogFallback;;
     mret fallback_segments).

(** [clickEvents] after the second [try]/[catch]. *)
Definition read_click_events (outputDir : string) : M (list ClickEvent) :=
  try_catch
    (lines ← readFileSync (cursor_path outputDir);
     clickEvents ← cursor_loop lines [];
     log (LogCursorFound (length clickEvents));;
     mret clickEvents)
    (log LogCursorFailed;;
     mret []).

Definition combined_events (speechSegments : list segment)
    (clickEvents : list ClickEvent) : M (list Event) :=
  speech ← speech_events speechSegments;
  mret (sort_events (speech ++ map click_event clickEvents)).

Definition quick_mode (videoPath outputDir : string) : M response :=
  log LogQuickMode;;
  execAsync (CmdQuick videoPath outputDir);;
  names ← readdirSync outputDir;
  let quickFiles := quick_files outputDir names in
  unlinkSync videoPath;;
  mret (QuickOk (map fd_url quickFiles) quickFiles).

Definition smart_mode (videoPath outputDir : string) : M response :=
  log LogAnalyzing;;
  try_catch
    (execAsync (CmdAudio videoPath outputDir);;
     execAsync (CmdCursor videoPath outputDir))
    (log LogAnalysisCompleted);;
  speechSegments ← read_speech_segments outputDir;
  clickEvents ← read_click_events outputDir;
  log (LogSpeechSegments (length speechSegments));;
  log (LogClickEvents (length clickEvents));;
  combinedEvents ← combined_events speechSegments clickEvents;
  frameData ← extract_frames videoPath outputDir combinedEvents;
  unlinkSync videoPath;;
  mret (SmartOk (map fd_url frameData) frameData
          (length speechSegments) (length clickEvents)).

(** The working directory of a request; [now] is the value of
    [Date.now()]. *)
Definition outputDir_of (now : N) : string := "frames/" +:+ pretty now.

Definition uploadVideo (now : N) (req : Request) : M response :=
  try_catch
    (match req_file req with
     | None => mret BadRequest
     | Some videoPath =>
         let outputDir := outputDir_of now in
         let quickMode := bool_decide (req_quickMode req = Some "true") in
         present ← existsSync "frames";
         (if present : bool then mret () else mkdirSync "frames");;
         mkdirSync outputDir;;
         if quickMode then quick_mode videoPath outputDir
         else smart_mode videoPath outputDir
     end)
    (log LogProcessingError;;
     mret ServerError).

(** The file system once the two [mkdirSync] of the route are done. *)
Definition dirs_made (now : N) (f : gmap string node) : gmap string node :=
  <[outputDir_of now := Dir]>
    (if bool_decide (f !! "frames" ≠ None) then f else <["frames" := Dir]> f).

(** The file system that the first external commands of a mode leave
    of [f]: the quick extraction in quick mode; in smart mode the audio
    analysis and, when that resolves, the cursor analysis. *)
Definition first_commands (quickMode : bool) (videoPath outputDir : string)
    (f : gmap string node) : gmap string node :=
  if quickMode then (exec (CmdQuick videoPath outputDir) f).2
  else
    let '(ok, f1) := exec (CmdAudio videoPath outputDir) f in
    if ok : bool then (exec (CmdCursor videoPath outputDir) f1).2 else f1.

End WithWorld.

End Pipeline.

(** ** Test sessions: in-memory storage and the client hook *)

Module Session.

(** *** Records of the shared schema *)

Record TestSession := {
  ts_id : Z;
  ts_testName : string;
  ts_userId : option Z;
  ts_extractedFrames : list string;
  ts_hotspotData : list (list HotspotData);
  ts_totalSteps : Z;
  ts_currentStep : Z;
  ts_isCompleted : bool;
  ts_startTime : Z;
  ts_completedTime : option Z
}.

Record InsertTestSession := {
  ins_testName : string;
  ins_userId : option Z;
  ins_extractedFrames : list string;
  ins_hotspotData : list (list HotspotData);
  ins_totalSteps : Z
}.

Record InsertTestAttempt := {
  ia_sessionId : Z;
  ia_stepNumber : Z;
  ia_hotspotId : string;
  ia_clickX : Q;
  ia_clickY : Q;
  ia_expectedX : Q;
  ia_expectedY : Q;
  ia_isCorrect : bool;
  ia_timeSpent : Z
}.

Record TestAttempt := {
  ta_id : Z;
  ta_data : InsertTestAttempt;   (* ...insertAttempt *)
  ta_attemptTime : Z
}.

(** The fields of [Partial<TestSession>] that the hook sends; [None]
    is an absent key. *)
Record SessionUpdates := {
  upd_currentStep : option Z;
  upd_isCompleted : option bool;
  upd_completedTime : option Z
}.

(** *** MemStorage *)

(** [Map.set] on a map kept in insertion order. *)
Fixpoint map_set {V} (k : Z) (v : V) (m : list (Z * V)) : list (Z * V) :=
  match m with
  | [] => [(k, v)]
  | (k', v') :: rest =>
      if Z.eqb k' k then (k, v) :: rest else (k', v') :: map_set k v rest
  end.

(** The session and attempt tables with their id counters (the user
    and result tables are not touched by the operations below). *)
Record MemStorage := {
  testSessions : gmap Z TestSession;
  testAttempts : list (Z * TestAttempt);
  currentSessionId : Z;
  currentAttemptId : Z
}.

(** [new MemStorage()] *)
Definition newStorage : MemStorage :=
  {| testSessions := ∅; testAttempts := [];
     currentSessionId := 1; currentAttemptId := 1 |}.

(** The attempt counter is ahead of every stored attempt id, as it is
    in every storage built from [newStorage] by the operations below. *)
Definition attempt_ids_fresh (st : MemStorage) : Prop :=
  ∀ k a, (k, a) ∈ testAttempts st → (k < currentAttemptId st)%Z.

(** [insertSession.userId || null] *)
Definition userId_or_null (u : option Z) : option Z :=
  match u with
  | Some v => if Z.eqb v 0 then None else Some v
  | None => None
  end.

(** [now] is the value of [new Date()]. *)
Definition createTestSession (now : Z) (insertSession : InsertTestSession)
    (st : MemStorage) : TestSession * MemStorage :=
  let id := currentSessionId st in
  let session :=
    {| ts_id := id;
       ts_testName := ins_testName insertSession;
       ts_userId := userId_or_null (ins_userId insertSession);
       ts_extractedFrames := ins_extractedFrames insertSession;
       ts_hotspotData := ins_hotspotData insertSession;
       ts_totalSteps := ins_totalSteps insertSession;
       ts_currentStep := 1;
       ts_isCompleted := false;
       ts_startTime := now;
       ts_completedTime := None |} in
  (session,
   {| testSessions := <[id := session]> (testSessions st);
      testAttempts := testAttempts st;
      currentSessionId := (id + 1)%Z;
      currentAttemptId := currentAttemptId st |}).

Definition getTestSession (id : Z) (st : MemStorage) : option TestSession :=
  testSessions st !! id.

(** [{ ...session, ...updates }] *)
Definition apply_updates (session : TestSession) (updates : SessionUpdates) : TestSession :=
  {| ts_id := ts_id session;
     ts_testName := ts_testName session;
     ts_userId := ts_userId session;
     ts_extractedFrames := ts_extractedFrames session;
     ts_hotspotData := ts_hotspotData session;
     ts_totalSteps := ts_totalSteps session;
     ts_currentStep := default (ts_currentStep session) (upd_currentStep updates);
     ts_isCompleted := default (ts_isCompleted session) (upd_isCompleted updates);
     ts_startTime := ts_startTime session;
     ts_completedTime :=
       match upd_completedTime updates with
       | Some t => Some t
       | None => ts_completedTime session
       end |}.

Definition updateTestSession (id : Z) (updates : SessionUpdates) (st : MemStorage)
    : option TestSession * MemStorage :=
  match testSessions st !! id with
  | None => (None, st)
  | Some session =>
      let updatedSession := apply_updates session updates in
      (Some updatedSession,
       {| testSessions := <[id := updatedSession]> (testSessions st);
          testAttempts := testAttempts st;
          currentSessionId := currentSessionId st;
          currentAttemptId := currentAttemptId st |})
  end.

Definition createTestAttempt (now : Z) (insertAttempt : InsertTestAttempt)
    (st : MemStorage) : TestAttempt * MemStorage :=
  let id := currentAttemptId st in
  let attempt := {| ta_id := id; ta_data := insertAttempt; ta_attemptTime := now |} in
  (attempt,
   {| testSessions := testSessions st;
      testAttempts := map_set id attempt (testAttempts st);
      currentSessionId := currentSessionId st;
      currentAttemptId := (id + 1)%Z |}).

Definition getTestAttemptsBySession (sessionId : Z) (st : MemStorage) : list TestAttempt :=
  List.filter (λ attempt, Z.eqb (ia_sessionId (ta_data attempt)) sessionId)
    (map snd (testAttempts st)).

(** *** The hook [useTestSession] *)

(** The hook reads the session through a query that is enabled only for
    a truthy [sessionId] and is refetched after every update; its
    [session] is modelled as the stored session at the time of the
    click.  The two mutations of a click are modelled by the routes they
    reach: [POST /api/test-attempts], which validates the body and then
    stores the attempt, and [PATCH /api/test-sessions/:id], which passes
    the body to the storage as it is.  Transport is not modelled. *)
Definition useSession (sessionId : option Z) (st : MemStorage) : option TestSession :=
  match sessionId with
  | Some id => if Z.eqb id 0 then None else getTestSession id st
  | None => None
  end.

(** [a[i]] for an integer index; [None] is [undefined]. *)
Definition array_get {A} (a : list A) (i : Z) : option A :=
  if (0 <=? i)%Z then a !! Z.to_nat i else None.

Definition currentHotspots (session : TestSession) : list HotspotData :=
  default [] (array_get (ts_hotspotData session) (ts_currentStep session - 1)).

(** A number that is an integer. *)
Definition is_integer (a : Q) : bool := Qeq_bool (inject_Z (Qfloor a)) a.

(** [insertTestAttemptSchema.parse]: the schema made from the table
    [test_attempts], whose number columns are all [integer]; a body with
    a number that is not an integer is rejected.  The session id, the
    step number and the time spent are integers by their type here. *)
Definition insertTestAttemptSchema_parse (body : InsertTestAttempt) : bool :=
  is_integer (ia_clickX body) && is_integer (ia_clickY body) &&
  is_integer (ia_expectedX body) && is_integer (ia_expectedY body).

(** The route [POST /api/test-attempts]: the attempt is stored when the
    body passes the schema; otherwise the route answers 400 and stores
    nothing. *)
Definition postTestAttempt (now : Z) (body : InsertTestAttempt) (st : MemStorage)
    : MemStorage :=
  if insertTestAttemptSchema_parse body then (createTestAttempt now body st).2 else st.

(** [handleHotspotClick] of the hook.  The hook does not wait for the
    outcome of the attempt: the update of a correct click is sent
    whether the attempt was stored or rejected. *)
Definition handleHotspotClick (now : Z) (sessionId : option Z)
    (hotspotId : string) (clickX clickY : Q) (isCorrect : bool) (timeSpent : Q)
    (st : MemStorage) : MemStorage :=
  match useSession sessionId st with
  | None => st
  | Some session =>
      match List.find (λ h, String.eqb (hotspot_id h) hotspotId)
              (currentHotspots session) with
      | None => st
      | Some targetHotspot =>
          let st1 :=
            postTestAttempt now
              {| ia_sessionId := ts_id session;
                 ia_stepNumber := ts_currentStep session;
                 ia_hotspotId := hotspotId;
                 ia_clickX := clickX;
                 ia_clickY := clickY;
                 ia_expectedX := hotspot_x targetHotspot;
                 ia_expectedY := hotspot_y targetHotspot;
                 ia_isCorrect := isCorrect;
                 ia_timeSpent := Num.round (timeSpent * 1000)%Q |} st in
          if isCorrect then
            let nextStep := (ts_currentStep session + 1)%Z in
            let isCompleted := (nextStep >? ts_totalSteps session)%Z in
            match sessionId with
            | Some id =>
                (updateTestSession id
                   {| upd_currentStep := Some nextStep;
                      upd_isCompleted := Some isCompleted;
                      upd_completedTime := if isCompleted then Some now else None |}
                   st1).2
            | None => st1
            end
          else st1
      end
  end.

(** A click as the hook receives it, with the clock reading. *)
Record Click := {
  k_hotspotId : string;
  k_clickX : Q;
  k_clickY : Q;
  k_isCorrect : bool;
  k_timeSpent : Q;
  k_now : Z
}.

Definition click (sessionId : option Z) (st : MemStorage) (k : Click) : MemStorage :=
  handleHotspotClick (k_now k) sessionId (k_hotspotId k) (k_clickX k) (k_clickY k)
    (k_isCorrect k) (k_timeSpent k) st.

Definition clicks (sessionId : option Z) (ks : list Click) (st : MemStorage) : MemStorage :=
  fold_left (click sessionId) ks st.

(** What the hook shows of a session: step, completion flag and
    completion time. *)
Definition progress (s : TestSession) : Z * bool * option Z :=
  (ts_currentStep s, ts_isCompleted s, ts_completedTime s).

(** A session of [total] steps with a hotspot list per step, between its
    first step and completion; a session without steps stays as it was
    created. *)
Definition session_inv (total : Z) (s : TestSession) : Prop :=
  ts_totalSteps s = total ∧
  Z.of_nat (length (ts_hotspotData s)) = total ∧
  (1 ≤ ts_currentStep s ≤ total + 1)%Z ∧
  (((1 ≤ total)%Z ∧ ts_isCompleted s = (ts_currentStep s >? total)%Z) ∨
   (total = 0%Z ∧ ts_currentStep s = 1%Z ∧ ts_isCompleted s = false)).

(** The attempt record that a click on [targetHotspot] posts, and that
    is stored when it passes the schema. *)
Definition attempt_of (now : Z) (id : Z) (session : TestSession)
    (targetHotspot : HotspotData) (hotspotId : string) (clickX clickY : Q)
    (isCorrect : bool) (timeSpent : Q) : TestAttempt :=
  {| ta_id := id;
     ta_data :=
       {| ia_sessionId := ts_id session;
          ia_stepNumber := ts_currentStep session;
          ia_hotspotId := hotspotId;
          ia_clickX := clickX;
          ia_clickY := clickY;
          ia_expectedX := hotspot_x targetHotspot;
          ia_expectedY := hotspot_y targetHotspot;
          ia_isCorrect := isCorrect;
          ia_timeSpent := Num.round (timeSpent * 1000)%Q |};
     ta_attemptTime := now |}.

End Session.

(** ** The specification's wording, where it is compared with the code *)

Module Spec.

Import Pipeline.

(** Silence boundaries as the specification scans them. *)
Inductive boundary :=
| SilenceStart (t : Q)
| SilenceEnd (t : Q).

Definition boundary_line (b : boundary) : line :=
  match b with
  | SilenceStart t => silence_start_line t
  | SilenceEnd t => silence_end_line t
  end.

(** "On a silence-start observed at time t: if t - lastSpeechEnd > 3.0s,
    emit a speech segment [lastSpeechEnd, t]; set silenceStart = t.  On a
    silence-end observed at time t': set lastSpeechEnd = t', clear
    silenceStart." *)
Definition segmentation_step (s : audio_state) (b : boundary) : audio_state :=
  match b with
  | SilenceStart t =>
      {| silenceStart := Some t;
         lastSpeechEnd := lastSpeechEnd s;
         speechSegments :=
           if Num.gtb (t - lastSpeechEnd s)%Q 3%Q
           then speechSegments s ++ [ {| seg_start := lastSpeechEnd s; seg_end := t |} ]
           else speechSegments s |}
  | SilenceEnd t' =>
      {| silenceStart := None;
         lastSpeechEnd := t';
         speechSegments := speechSegments s |}
  end.

Definition segmentation (bs : list boundary) : list segment :=
  speechSegments (fold_left segmentation_step bs audio_init).

(** A boundary sequence alternates when every silence-start arrives
    while no silence is open and every silence-end while one is open. *)
Fixpoint alternates (opened : bool) (bs : list boundary) : bool :=
  match bs with
  | [] => true
  | SilenceStart _ :: rest => negb opened && alternates true rest
  | SilenceEnd _ :: rest => opened && alternates false rest
  end.

(** "Fallback grid activates iff parsed speech-segment list is empty
    after a parse attempt." *)
Definition segments_with_fallback (parsed : list segment) : list segment :=
  match parsed with
  | [] => fallback_segments
  | _ => parsed
  end.

(** "Fixed placeholder position": one position for every speech-derived
    event of every run. *)
Definition fixed_placeholder : Prop :=
  ∃ px py : Q,
    ∀ (random : nat → Q) (segments : list segment) (s s' : state) (events : list Event),
      speech_events random segments s = (Some events, s') →
      ∀ e, e ∈ events → (ev_x e == px)%Q ∧ (ev_y e == py)%Q.

(** "All transient scratch artifacts are removed": the uploaded video
    and the files of the working directory do not remain. *)
Definition scratch_removed (videoPath outputDir : string) (f : gmap string node) : Prop :=
  f !! videoPath = None ∧
  ∀ p, (split_path p).1 = Some outputDir → f !! p = None.

(** "1 ≤ currentStep ≤ totalSteps + 1; isCompleted == (currentStep >
    totalSteps)." *)
Definition step_bounds (s : Session.TestSession) : Prop :=
  (1 ≤ Session.ts_currentStep s ≤ Session.ts_totalSteps s + 1)%Z.

Definition completed_flag (s : Session.TestSession) : Prop :=
  Session.ts_isCompleted s = (Session.ts_currentStep s >? Session.ts_totalSteps s)%Z.

Definition invariant (s : Session.TestSession) : Prop :=
  step_bounds s ∧ completed_flag s.

End Spec.

(** ** Concrete worlds used in the examples *)

Module Examples.

Import Pipeline.

(** Every command resolves; the two analysis commands write the given
    logs, the quick extraction writes the given images, a frame
    extraction writes its target. *)
Definition exec_ok (audio cursor : list line) (quick : list string)
    (c : command) (f : gmap string node) : bool * gmap string node :=
  match c with
  | CmdQuick _ outputDir =>
      (true, foldr (λ name g, <[outputDir +:+ "/" +:+ name := File []]> g) f quick)
  | CmdAudio _ outputDir => (true, <[audio_path outputDir := File audio]> f)
  | CmdCursor _ outputDir => (true, <[cursor_path outputDir := File cursor]> f)
  | CmdExtract _ _ target => (true, <[target := File []]> f)
  end.

(** Every command rejects and leaves the files as they are. *)
Definition exec_fail (c : command) (f : gmap string node) : bool * gmap string node :=
  (false, f).

(** A source of numbers in [0, 1): 0, 0.1, ..., 0.9, 0, ... *)
Definition random10 (n : nat) : Q := Z.of_nat (n mod 10) # 10.

(** An upload stored by the middleware, nothing else on disk. *)
Definition uploaded : state :=
  {| fs := {[ "uploads/v1" := File [] ]}; rng := 0; console := [] |}.

(** A working directory whose audio log is empty (one empty line). *)
Definition silent : state :=
  {| fs := {[ "frames" := Dir; "frames/7" := Dir;
              "frames/7/audio_analysis.txt" := File [other_line] ]};
     rng := 0; console := [] |}.

(** Two speech segments, [0,5] and [6,20]. *)
Definition two_segments : list segment :=
  [ {| seg_start := 0; seg_end := 5 |}; {| seg_start := 6; seg_end := 20 |} ].

Definition smart_request : Request :=
  {| req_file := Some "uploads/v1"; req_quickMode := Some "false" |}.

Definition quick_request : Request :=
  {| req_file := Some "uploads/v1"; req_quickMode := Some "true" |}.

(** Silence boundaries of the specification's example. *)
Definition audio_5_6_20 : list line :=
  [silence_start_line 5; silence_end_line 6; silence_start_line 20].

(** 35 scene changes of score 0.5 at times 35, 34, ..., 1. *)
Definition scene_35 : list line :=
  map (λ i : nat, showinfo_line (Num.of_nat (35 - i)) 0.5%Q) (seq 0 35).

(** 35 candidate events at times 35, 34, ..., 1. *)
Definition candidates_35 : list Event :=
  map (λ i : nat,
         click_event {| ce_timestamp := Num.of_nat (35 - i);
                        ce_x := Some 400%Q; ce_y := Some 200%Q;
                        ce_confidence := 0.5%Q |})
      (seq 0 35).

(** An upload stored by the middleware beside an unrelated file. *)
Definition uploaded_beside : state :=
  {| fs := {[ "uploads/v1" := File []; "notes.txt" := File [other_line] ]};
     rng := 0; console := [] |}.

(** A smart-mode run beside the unrelated file, every command
    resolving. *)
Definition beside_run : option response * state :=
  uploadVideo (exec_ok audio_5_6_20 [showinfo_line 3 0.5; showinfo_line 7 0.3] [])
    random10 7 smart_request uploaded_beside.

Definition beside_frames : list FrameData :=
  match beside_run.1 with
  | Some (SmartOk _ frameAnalysis _ _) => frameAnalysis
  | _ => []
  end.

(** A quick-mode run whose extraction command rejects. *)
Definition failed_run : option response * state :=
  uploadVideo exec_fail random10 7 quick_request uploaded.

(** An upload whose working directory exists already: a second request
    in the same millisecond. *)
Definition uploaded_again : state :=
  {| fs := {[ "uploads/v1" := File []; "frames" := Dir; "frames/7" := Dir ]};
     rng := 0; console := [] |}.

(** A quick-mode run, every command resolving, that cannot make its
    working directory. *)
Definition repeated_run : option response * state :=
  uploadVideo (exec_ok [] [] ["quick_001.png"]) random10 7 quick_request uploaded_again.

(** A smart-mode run on the specification's silence boundaries and two
    scene changes, of score 0.5 at 3 s and 0.3 at 7 s. *)
Definition smart_run : option response * state :=
  uploadVideo (exec_ok audio_5_6_20 [showinfo_line 3 0.5; showinfo_line 7 0.3] [])
    random10 7 smart_request uploaded.

Definition smart_frames : list FrameData :=
  match smart_run.1 with
  | Some (SmartOk _ frameAnalysis _ _) => frameAnalysis
  | _ => []
  end.

(** A quick-mode run that extracts two images. *)
Definition quick_run : option response * state :=
  uploadVideo (exec_ok [] [] ["quick_002.png"; "quick_001.png"])
    random10 7 quick_request uploaded.

Definition quick_frames : list FrameData :=
  match quick_run.1 with
  | Some (QuickOk _ frameAnalysis) => frameAnalysis
  | _ => []
  end.

(** A smart-mode run with 35 scene changes. *)
Definition crowded_run : option response * state :=
  uploadVideo (exec_ok [other_line] scene_35 []) random10 7 smart_request uploaded.

Definition crowded_frames : list FrameData :=
  match crowded_run.1 with
  | Some (SmartOk _ frameAnalysis _ _) => frameAnalysis
  | _ => []
  end.

Import Session.

Definition hotspot (id : string) (x y : Q) : HotspotData :=
  {| hotspot_id := id; hotspot_x := x; hotspot_y := y; hotspot_label := id |}.

(** A session request of three steps, one hotspot per step. *)
Definition three_steps : InsertTestSession :=
  {| ins_testName := "CTRM Interface Test";
     ins_userId := None;
     ins_extractedFrames := ["f1.png"; "f2.png"; "f3.png"];
     ins_hotspotData := [[hotspot "a" 100 100]; [hotspot "b" 200 150]; [hotspot "c" 300 50]];
     ins_totalSteps := 3 |}.

(** A session request without any selected frame. *)
Definition zero_steps : InsertTestSession :=
  {| ins_testName := "CTRM Interface Test";
     ins_userId := None;
     ins_extractedFrames := [];
     ins_hotspotData := [];
     ins_totalSteps := 0 |}.

Definition hit (id : string) (now : Z) : Click :=
  {| k_hotspotId := id; k_clickX := 100; k_clickY := 100;
     k_isCorrect := true; k_timeSpent := 1.5; k_now := now |}.

Definition miss (id : string) (now : Z) : Click :=
  {| k_hotspotId := id; k_clickX := 10; k_clickY := 10;
     k_isCorrect := false; k_timeSpent := 0.5; k_now := now |}.

(** The three-step session created at time 1000 in a new storage, and
    the storage after that. *)
Definition started_session : TestSession :=
  (createTestSession 1000 three_steps newStorage).1.

Definition started : MemStorage := (createTestSession 1000 three_steps newStorage).2.

(** The session created from zero selected frames. *)
Definition empty_session : TestSession :=
  (createTestSession 1000 zero_steps newStorage).1.

(** A session request of one frame and one step that carries two
    hotspot lists; the route that stores sessions accepts it. *)
Definition one_frame_two_lists : InsertTestSession :=
  {| ins_testName := "CTRM Interface Test";
     ins_userId := None;
     ins_extractedFrames := ["f1.png"];
     ins_hotspotData := [[hotspot "a" 100 100]; [hotspot "b" 200 150]];
     ins_totalSteps := 1 |}.

End Examples.

(** ** Client utilities *)

Module Utils.

(** [calculateAccuracy] *)
Definition calculateAccuracy (correct total : Q) : Z :=
  if Qeq_bool total 0 then 0%Z
  else Num.round (correct / total * 100)%Q.

(** The integer part, towards zero, and the remainder [a % b], which
    takes the sign of [a]. *)
Definition trunc (a : Q) : Z := if Qle_bool 0 a then Qfloor a else Qceiling a.

Definition rem (a b : Q) : Q := (a - b * inject_Z (trunc (a / b)))%Q.

(** [a.toFixed(1)]: the number of tenths nearest to [|a|], the larger one
    on a tie, printed with one decimal and the sign of [a]. *)
Definition tenths (a : Q) : Z := Qfloor (Qabs a * 10 + (1 # 2))%Q.

Definition print_tenths (n : Z) : string :=
  pretty (n / 10)%Z +:+ "." +:+ pretty (n mod 10)%Z.

Definition toFixed1 (a : Q) : string :=
  if Num.gtb 0 a then "-" +:+ print_tenths (tenths a) else print_tenths (tenths a).

(** [Number(a.toFixed(1))] *)
Definition roundFixed1 (a : Q) : Q :=
  if Num.gtb 0 a then (- (inject_Z (tenths a) / 10))%Q else (inject_Z (tenths a) / 10)%Q.

(** [formatTime], also the local helper of the test display. *)
Definition formatTime (seconds : Q) : string :=
  let mins := Qfloor (seconds / 60)%Q in
  let secs := rem seconds 60 in
  Pipeline.padStart (pretty mins) 2 "0" +:+ ":" +:+ Pipeline.padStart (toFixed1 secs) 4 "0".

End Utils.

(** ** Helper of the server routes *)

Module Routes.

Definition is_digit (c : ascii) : bool :=
  (48 <=? nat_of_ascii c)%nat && (nat_of_ascii c <=? 57)%nat.

Definition digit_value (c : ascii) : N := N.of_nat (nat_of_ascii c - 48).

(** The text has no digit; the text has only digits. *)
Fixpoint no_digit (s : string) : bool :=
  match s with
  | EmptyString => true
  | String c r => negb (is_digit c) && no_digit r
  end.

Fixpoint all_digits (s : string) : bool :=
  match s with
  | EmptyString => true
  | String c r => is_digit c && all_digits r
  end.

(** The text from the first digit on. *)
Fixpoint from_first_digit (s : string) : string :=
  match s with
  | EmptyString => EmptyString
  | String c r => if is_digit c then s else from_first_digit r
  end.

(** The longest prefix made of digits. *)
Fixpoint leading_digits (s : string) : string :=
  match s with
  | EmptyString => EmptyString
  | String c r => if is_digit c then String c (leading_digits r) else EmptyString
  end.

(** [filename.match(/(\d+)/)]: the first run of digits, if any. *)
Definition match_digits (filename : string) : option string :=
  match leading_digits (from_first_digit filename) with
  | EmptyString => None
  | digits => Some digits
  end.

(** [parseInt] on a run of digits. *)
Fixpoint parse_digits (acc : N) (digits : string) : N :=
  match digits with
  | EmptyString => acc
  | String c r => parse_digits (10 * acc + digit_value c) r
  end.

Definition parseInt (digits : string) : N := parse_digits 0 digits.

(** [extractTimestamp] *)
Definition extractTimestamp (filename : string) : N :=
  match match_digits filename with
  | Some digits => parseInt digits
  | None => 0%N
  end.

(** What the loop over the scene-change log keeps of a line: the
    timestamp and the score of a scene change above 0.4. *)
Definition scene_change (l : Pipeline.line) : option (Q * Q) :=
  match Pipeline.match_pts_time l, Pipeline.match_scene l with
  | Some timestamp, Some sceneScore =>
      if Num.gtb sceneScore 0.4%Q then Some (timestamp, sceneScore) else None
  | _, _ => None
  end.

(** Where a speech segment comes from: it is longer than 3 seconds,
    starts at 0 or at a silence end of the log and ends at a silence start
    of the log. *)
Definition segment_of_log (lines : list Pipeline.line) (g : Pipeline.segment) : Prop :=
  (3 < Pipeline.seg_end g - Pipeline.seg_start g)%Q ∧
  (Pipeline.seg_start g = 0%Q ∨
   ∃ l, l ∈ lines ∧ Pipeline.incl_silence_end l = true ∧
        Pipeline.match_silence_end l = Some (Pipeline.seg_start g)) ∧
  (∃ l, l ∈ lines ∧ Pipeline.incl_silence_start l = true ∧
        Pipeline.match_silence_start l = Some (Pipeline.seg_end g)).

(** The order of [.sort()] on file names. *)
Definition name_le (a b : string) : Prop := String.leb a b = true.

(** The file names that quick mode keeps. *)
Definition is_quick_name (file : string) : bool :=
  Pipeline.startsWith file "quick_" && Pipeline.endsWith file ".png".

End Routes.

(** ** Conditions on the session and attempt tables *)

Module Store.

Import Session.

(** The session counter is ahead of every stored session id, as it is in
    every storage built from [newStorage] by creating sessions. *)
Definition session_ids_fresh (st : MemStorage) : Prop :=
  ∀ k s, testSessions st !! k = Some s → (k < currentSessionId st)%Z.




(** An attempt record for the examples. *)
Definition attempt_for (sessionId stepNumber : Z) (isCorrect : bool) : InsertTestAttempt :=
  {| ia_sessionId := sessionId; ia_stepNumber := stepNumber; ia_hotspotId := "a";
     ia_clickX := 100; ia_clickY := 100; ia_expectedX := 100; ia_expectedY := 100;
     ia_isCorrect := isCorrect; ia_timeSpent := 1500 |}.

End Store.

(** ** The user and result tables of the storage *)

Module Tables.

Record User := {
  user_id : Z;
  user_username : string;
  user_password : string
}.

Record InsertUser := {
  iu_username : string;
  iu_password : string
}.

Record InsertTestResult := {
  ir_sessionId : Z;
  ir_totalCorrect : Z;
  ir_totalIncorrect : Z;
  ir_totalTime : Z;
  ir_averageStepTime : Z;
  ir_accuracy : Z
}.

Record TestResult := {
  tr_id : Z;
  tr_data : InsertTestResult;   (* ...insertResult *)
  tr_completedAt : Z
}.

(** [Map.get] on a map kept in insertion order. *)
Definition map_get {V} (k : Z) (m : list (Z * V)) : option V :=
  snd <$> List.find (λ kv, Z.eqb kv.1 k) m.

(** The two tables of [MemStorage] that the session operations leave
    alone, with their id counters. *)
Record Tables := {
  users : list (Z * User);
  testResults : list (Z * TestResult);
  currentUserId : Z;
  currentResultId : Z
}.

Definition newTables : Tables :=
  {| users := []; testResults := []; currentUserId := 1; currentResultId := 1 |}.

(** The counters are ahead of every stored id. *)
Definition ids_fresh (t : Tables) : Prop :=
  (∀ k u, (k, u) ∈ users t → (k < currentUserId t)%Z) ∧
  (∀ k r, (k, r) ∈ testResults t → (k < currentResultId t)%Z).

Definition getUser (id : Z) (t : Tables) : option User := map_get id (users t).

Definition getUserByUsername (username : string) (t : Tables) : option User :=
  List.find (λ user, String.eqb (user_username user) username) (map snd (users t)).

Definition createUser (insertUser : InsertUser) (t : Tables) : User * Tables :=
  let id := currentUserId t in
  let user := {| user_id := id;
                 user_username := iu_username insertUser;
                 user_password := iu_password insertUser |} in
  (user,
   {| users := Session.map_set id user (users t);
      testResults := testResults t;
      currentUserId := (id + 1)%Z;
      currentResultId := currentResultId t |}).

(** [now] is the value of [new Date()]. *)
Definition createTestResult (now : Z) (insertResult : InsertTestResult) (t : Tables)
    : TestResult * Tables :=
  let id := currentResultId t in
  let result := {| tr_id := id; tr_data := insertResult; tr_completedAt := now |} in
  (result,
   {| users := users t;
      testResults := Session.map_set id result (testResults t);
      currentUserId := currentUserId t;
      currentResultId := (id + 1)%Z |}).

Definition getTestResult (sessionId : Z) (t : Tables) : option TestResult :=
  List.find (λ result, Z.eqb (ir_sessionId (tr_data result)) sessionId)
    (map snd (testResults t)).

End Tables.

(** ** The rest of the hook [useTestSession] *)

Module Hook.

Import Session.

Record PerformanceMetrics := {
  correctClicks : nat;
  incorrectClicks : nat;
  averageTime : Q;
  currentStepTime : Q;
  accuracy : Z
}.


(** The initial metrics, also set by [resetTest]. *)
Definition noMetrics : PerformanceMetrics :=
  {| correctClicks := 0; incorrectClicks := 0; averageTime := 0;
     currentStepTime := 0; accuracy := 0 |}.

Definition correctAttempts (attempts : list TestAttempt) : list TestAttempt :=
  List.filter (λ a, ia_isCorrect (ta_data a)) attempts.

Definition incorrectAttempts (attempts : list TestAttempt) : list TestAttempt :=
  List.filter (λ a, negb (ia_isCorrect (ta_data a))) attempts.

(** [attempts.reduce((sum, a) => sum + a.timeSpent, 0)] *)
Definition totalTime (attempts : list TestAttempt) : Z :=
  fold_left (λ sum a, (sum + ia_timeSpent (ta_data a))%Z) attempts 0%Z.

(** The metrics set by the effect on [attempts]; [prev] are the metrics
    before. *)
Definition updatePerformance (attempts : list TestAttempt) (prev : PerformanceMetrics)
    : PerformanceMetrics :=
  if (0 <? length attempts)%nat then
    let averageTime :=
      (inject_Z (totalTime attempts) / Num.of_nat (length attempts) / 1000)%Q in
    let accuracy :=
      if (0 <? length attempts)%nat
      then Num.round (Num.of_nat (length (correctAttempts attempts)) /
                      Num.of_nat (length attempts) * 100)%Q
      else 0%Z in
    {| correctClicks := length (correctAttempts attempts);
       incorrectClicks := length (incorrectAttempts attempts);
       averageTime := Utils.roundFixed1 averageTime;
       currentStepTime := currentStepTime prev;
       accuracy := accuracy |}
  else prev.





(** The step of the simulated upload progress at each tick. *)
Definition progressTick (prev : Z) : Z :=
  if (90 <=? prev)%Z then 90%Z else (prev + 10)%Z.

(** [session?.extractedFrames[session.currentStep - 1] || null] *)
Definition currentFrame (session : option TestSession) : option string :=
  match session with
  | Some s =>
      match array_get (ts_extractedFrames s) (ts_currentStep s - 1) with
      | Some frame => if String.eqb frame "" then None else Some frame
      | None => None
      end
  | None => None
  end.

(** [session?.hotspotData[session.currentStep - 1] || []] *)
Definition hookHotspots (session : option TestSession) : list HotspotData :=
  match session with
  | Some s => currentHotspots s
  | None => []
  end.

End Hook.

(** ** The overlays of the test display *)

Module Display.

Import Scorer.

(** The elements that [TestDisplay] renders: an image with the sizes
    that the browser gives it, or another element with its tag, the
    hotspot of its click handler, if it has one, and its children. *)
#[warnings="-register-all"] Inductive element :=
| Img (image : Image)
| Node (tag : string) (onClick : option HotspotData) (children : list element).

(** An element without a click handler. *)
Definition plain (tag : string) (children : list element) : element :=
  Node tag None children.

(** The first image among an element and its descendants, in document
    order. *)
Fixpoint first_img (e : element) : option Image :=
  match e with
  | Img image => Some image
  | Node _ _ children =>
      (fix among (l : list element) : option Image :=
         match l with
         | [] => None
         | c :: rest =>
             match first_img c with
             | Some image => Some image
             | None => among rest
             end
         end) children
  end.

(** [e.querySelector('img')]: the first image among the descendants of
    [e]. *)
Definition querySelector_img (e : element) : option Image :=
  match e with
  | Img _ => None
  | Node _ _ children => first_img (plain "" children)
  end.

(** The element reached from [e] by the child indices of [path]. *)
Fixpoint child_at (path : list nat) (e : element) : option element :=
  match path with
  | [] => Some e
  | i :: rest =>
      match e with
      | Img _ => None
      | Node _ _ children =>
          match children !! i with
          | Some c => child_at rest c
          | None => None
          end
      end
  end.

(** [parentElement] of the element at [path]. *)
Definition parentElement (root : element) (path : list nat) : option element :=
  match path with
  | [] => None
  | _ :: _ => child_at (removelast path) root
  end.

(** The overlay of a hotspot: an empty element whose click handler is
    [handleHotspotClick(event, hotspot)]. *)
Definition overlay (hotspot : HotspotData) : element :=
  Node "div" (Some hotspot) [].

(** The container of the overlays, and the screenshot area that holds
    the image and that container. *)
Definition overlays (currentHotspots : list HotspotData) : element :=
  plain "div" (map overlay currentHotspots).

Definition screenshotArea (image : Image) (currentHotspots : list HotspotData)
    : element :=
  plain "div" [Img image; overlays currentHotspots].

(** What [TestDisplay] renders; [image] stands for the sizes of the
    [img] element of the current frame.  The clock icons are [svg]
    elements. *)
Definition TestDisplay (session : option Session.TestSession)
    (currentFrame : option string) (image : Image)
    (currentHotspots : list HotspotData) : element :=
  let placeholder :=
    plain "main"
      [plain "div" [plain "div" [plain "svg" []]; plain "h2" []; plain "p" []]] in
  match session, currentFrame with
  | Some _, Some frame =>
      if String.eqb frame "" then placeholder
      else
        plain "main"
          [plain "div" [plain "div" [plain "div" []; plain "span" []]];
           plain "div" [plain "div" [plain "svg" []; plain "span" []]];
           screenshotArea image currentHotspots]
  | _, _ => placeholder
  end.

(** A click on the element at [path] of the rendered tree [root]: the
    handler of that element, if it has one, runs with the element as
    [event.currentTarget].  [None]: nothing is reported. *)
Definition clickElement (root : element) (path : list nat)
    (clientX clientY left top stepTimer : Q) : option Report :=
  match child_at path root with
  | Some (Node _ (Some hotspot) _) =>
      displayHotspotClick clientX clientY left top
        (parentElement root path ≫= querySelector_img) hotspot stepTimer
  | _ => None
  end.

End Display.

(** ** The frame-selection page *)

Module Admin.

Import Pipeline.

(** [toggleFrameSelection] *)
Definition toggleFrameSelection (frameIndex : Z) (prev : list FrameData) : list FrameData :=
  imap (λ index frame,
          if Z.eqb (Z.of_nat index) frameIndex
          then {| fd_url := fd_url frame; fd_type := fd_type frame;
                  fd_filename := fd_filename frame; fd_timestamp := fd_timestamp frame;
                  fd_selected := negb (fd_selected frame);
                  fd_clickData := fd_clickData frame |}
          else frame) prev.

Definition selectedFrames (frameAnalysis : list FrameData) : list FrameData :=
  List.filter fd_selected frameAnalysis.

Definition testFrames (frameAnalysis : list FrameData) : list string :=
  map fd_url (selectedFrames frameAnalysis).

(** [frameAnalysis.findIndex(f => f.url === url)]; -1 when there is none. *)
Fixpoint findIndex (url : string) (frameAnalysis : list FrameData) : Z :=
  match frameAnalysis with
  | [] => (-1)%Z
  | f :: rest =>
      if String.eqb (fd_url f) url then 0%Z
      else let i := findIndex url rest in
           if (i <? 0)%Z then (-1)%Z else (i + 1)%Z
  end.

(** [testHotspots]: the hotspots edited for each selected frame. *)
Definition testHotspots (frameAnalysis : list FrameData)
    (frameHotspots : gmap Z (list HotspotData)) : list (list HotspotData) :=
  map (λ frame,
         default [] (frameHotspots !! findIndex (fd_url frame) frameAnalysis))
      (selectedFrames frameAnalysis).

(** [handleHotspotsChange] *)
Definition handleHotspotsChange (frameIndex : Z) (hotspots : list HotspotData)
    (prev : gmap Z (list HotspotData)) : gmap Z (list HotspotData) :=
  <[frameIndex := hotspots]> prev.

End Admin.

(** ** The hotspot editor *)

Module Editor.

(** [getBoundingClientRect()] of the image. *)
Record Rect := {
  rect_left : Q;
  rect_top : Q;
  rect_width : Q;
  rect_height : Q
}.

Record EditorState := {
  hotspots : list HotspotData;
  isAddingHotspot : bool
}.

(** [useState(initialHotspots)], [initialHotspots = []] by default. *)
Definition initial (initialHotspots : option (list HotspotData)) : EditorState :=
  {| hotspots := default [] initialHotspots; isAddingHotspot := false |}.

(** The button Add Hotspot / Cancel. *)
Definition toggleAdding (st : EditorState) : EditorState :=
  {| hotspots := hotspots st; isAddingHotspot := negb (isAddingHotspot st) |}.

(** The hotspot made by a click at [(clientX, clientY)]; [now] is the
    value of [Date.now()]. *)
Definition newHotspot (now : N) (clientX clientY : Q) (rect : Rect)
    (hotspots : list HotspotData) : HotspotData :=
  let x := (clientX - rect_left rect)%Q in
  let y := (clientY - rect_top rect)%Q in
  let xPercent := (x / rect_width rect * 100)%Q in
  let yPercent := (y / rect_height rect * 100)%Q in
  {| hotspot_id := "hotspot-" +:+ pretty now;
     hotspot_x := xPercent;
     hotspot_y := yPercent;
     hotspot_label := "Click " +:+ pretty (length hotspots + 1) |}.

(** The handlers return the state of the editor and the list passed to
    [onHotspotsChange], if it is called.  [rect] is the rectangle of
    [imageRef.current], if there is an image. *)
Definition handleImageClick (now : N) (clientX clientY : Q) (rect : option Rect)
    (st : EditorState) : EditorState * option (list HotspotData) :=
  if negb (isAddingHotspot st) then (st, None)
  else
    match rect with
    | None => (st, None)
    | Some rect =>
        let updatedHotspots :=
          hotspots st ++ [newHotspot now clientX clientY rect (hotspots st)] in
        ({| hotspots := updatedHotspots; isAddingHotspot := false |},
         Some updatedHotspots)
    end.

Definition removeHotspot (hotspotId : string) (st : EditorState)
    : EditorState * option (list HotspotData) :=
  let updatedHotspots :=
    List.filter (λ h, negb (String.eqb (hotspot_id h) hotspotId)) (hotspots st) in
  ({| hotspots := updatedHotspots; isAddingHotspot := isAddingHotspot st |},
   Some updatedHotspots).

Definition updateHotspotLabel (hotspotId newLabel : string) (st : EditorState)
    : EditorState * option (list HotspotData) :=
  let updatedHotspots :=
    map (λ h, if String.eqb (hotspot_id h) hotspotId
              then {| hotspot_id := hotspot_id h; hotspot_x := hotspot_x h;
                      hotspot_y := hotspot_y h; hotspot_label := newLabel |}
              else h) (hotspots st) in
  ({| hotspots := updatedHotspots; isAddingHotspot := isAddingHotspot st |},
   Some updatedHotspots).

End Editor.

(** ** The test simulation *)

Module Simulation.

Import Editor.

Record TestResult := {
  r_frameIndex : nat;
  r_correct : bool;
  r_attempts : nat;
  r_timeSpent : Z;
  r_clickedHotspot : string
}.

(** What a pending timeout does when it fires: after a hit, it advances
    from the frame of the hit or reports the results captured at the hit;
    after a miss, it only hides the feedback. *)
Inductive timeout :=
| AfterHit (frameIndex : nat) (reported : list TestResult)
| AfterMiss.

(** The state of the component, the timeouts that are pending, oldest
    first (all are set for 1500 ms), and the calls of [onComplete]. *)
Record Sim := {
  currentFrameIndex : nat;
  results : list TestResult;
  attempts : nat;
  startTime : Z;
  feedbackShow : bool;
  isCompleted : bool;
  timeouts : list timeout;
  completions : list (list TestResult)
}.

(** The state at mount; [now] is the value of [Date.now()]. *)
Definition mount (now : Z) : Sim :=
  {| currentFrameIndex := 0; results := []; attempts := 0; startTime := now;
     feedbackShow := false; isCompleted := false; timeouts := []; completions := [] |}.

(** [distance < tolerance] for the tolerance of 8 percent:
    [Math.sqrt(d) < 8], written [d < 8 * 8] on exact numbers. *)
Definition clicked (x y : Q) (hotspot : HotspotData) : bool :=
  Num.gtb (8 * 8)%Q
    ((hotspot_x hotspot - x) * (hotspot_x hotspot - x) +
     (hotspot_y hotspot - y) * (hotspot_y hotspot - y))%Q.

(** [hotspots[currentFrameIndex] || []] *)
Definition currentHotspots (hotspots : list (list HotspotData)) (st : Sim)
    : list HotspotData :=
  default [] (hotspots !! currentFrameIndex st).

(** [handleHotspotClick]; every click on a hotspot counts as correct. *)
Definition handleHotspotClick (now : Z) (hotspot : HotspotData) (st : Sim) : Sim :=
  let newAttempts := attempts st + 1 in
  let timeSpent := (now - startTime st)%Z in
  let result :=
    {| r_frameIndex := currentFrameIndex st;
       r_correct := true;
       r_attempts := newAttempts;
       r_timeSpent := timeSpent;
       r_clickedHotspot := hotspot_label hotspot |} in
  {| currentFrameIndex := currentFrameIndex st;
     results := results st ++ [result];
     attempts := newAttempts;
     startTime := startTime st;
     feedbackShow := true;
     isCompleted := isCompleted st;
     timeouts := timeouts st ++ [AfterHit (currentFrameIndex st) (results st ++ [result])];
     completions := completions st |}.

(** [handleImageClick] for a click at [(clientX, clientY)] on the frame
    whose rectangle is [rect]. *)
Definition handleImageClick (hotspots : list (list HotspotData)) (now : Z)
    (clientX clientY : Q) (rect : Rect) (st : Sim) : Sim :=
  if feedbackShow st || isCompleted st then st
  else
    let x := ((clientX - rect_left rect) / rect_width rect * 100)%Q in
    let y := ((clientY - rect_top rect) / rect_height rect * 100)%Q in
    match List.find (clicked x y) (currentHotspots hotspots st) with
    | Some clickedHotspot => handleHotspotClick now clickedHotspot st
    | None =>
        {| currentFrameIndex := currentFrameIndex st;
           results := results st;
           attempts := attempts st + 1;
           startTime := startTime st;
           feedbackShow := true;
           isCompleted := isCompleted st;
           timeouts := timeouts st ++ [AfterMiss];
           completions := completions st |}
    end.

(** The oldest pending timeout fires at time [now].  After a hit on a
    frame that is not the last, the frame index is advanced and the effect
    on the index restarts the clock and the attempt counter. *)
Definition fire (frames : list string) (now : Z) (st : Sim) : Sim :=
  match timeouts st with
  | [] => st
  | AfterMiss :: rest =>
      {| currentFrameIndex := currentFrameIndex st;
         results := results st;
         attempts := attempts st;
         startTime := startTime st;
         feedbackShow := false;
         isCompleted := isCompleted st;
         timeouts := rest;
         completions := completions st |}
  | AfterHit frameIndex reported :: rest =>
      if (Z.of_nat frameIndex <? Z.of_nat (length frames) - 1)%Z then
        {| currentFrameIndex := currentFrameIndex st + 1;
           results := results st;
           attempts := 0;
           startTime := now;
           feedbackShow := false;
           isCompleted := isCompleted st;
           timeouts := rest;
           completions := completions st |}
      else
        {| currentFrameIndex := currentFrameIndex st;
           results := results st;
           attempts := attempts st;
           startTime := startTime st;
           feedbackShow := false;
           isCompleted := true;
           timeouts := rest;
           completions := completions st ++ [reported] |}
  end.

Inductive event :=
| ImageClick (now : Z) (clientX clientY : Q) (rect : Rect)
| Timeout (now : Z).

Definition step (frames : list string) (hotspots : list (list HotspotData))
    (st : Sim) (e : event) : Sim :=
  match e with
  | ImageClick now clientX clientY rect =>
      handleImageClick hotspots now clientX clientY rect st
  | Timeout now => fire frames now st
  end.

Definition run (frames : list string) (hotspots : list (list HotspotData))
    (events : list event) (st : Sim) : Sim :=
  fold_left (step frames hotspots) events st.

(** The states of a run: the results number the frames from 0, each is
    correct after at least one attempt, the frame index stays inside the
    frames, and at most one timeout is pending, which agrees with the
    feedback shown. *)
Definition run_inv (frames : list string) (st : Sim) : Prop :=
  map r_frameIndex (results st) = seq 0 (length (results st)) ∧
  Forall (λ r, r_correct r = true ∧ 1 ≤ r_attempts r) (results st) ∧
  (currentFrameIndex st < length frames ∨ currentFrameIndex st = 0) ∧
  match timeouts st with
  | [] =>
      feedbackShow st = false ∧
      length (results st) = currentFrameIndex st + (if isCompleted st then 1 else 0) ∧
      completions st = (if isCompleted st then [results st] else []) ∧
      (isCompleted st = true → length frames ≤ currentFrameIndex st + 1)
  | [AfterHit frameIndex reported] =>
      feedbackShow st = true ∧ isCompleted st = false ∧
      frameIndex = currentFrameIndex st ∧ reported = results st ∧
      length (results st) = currentFrameIndex st + 1 ∧ completions st = []
  | [AfterMiss] =>
      feedbackShow st = true ∧ isCompleted st = false ∧
      length (results st) = currentFrameIndex st ∧ completions st = []
  | _ => False
  end.

(** Nothing but timeouts of misses is pending. *)
Definition only_misses (st : Sim) : Prop := Forall (λ t, t = AfterMiss) (timeouts st).

(** A frame shown on a rectangle of 100 by 100 at the origin, so that
    client coordinates are percentages. *)
Definition percent_rect : Rect :=
  {| rect_left := 0; rect_top := 0; rect_width := 100; rect_height := 100 |}.

(** One click on the first hotspot of each frame, each followed by its
    timeout. *)
Fixpoint perfect_run (frameHotspots : list (list HotspotData)) : list event :=
  match frameHotspots with
  | [] => []
  | [] :: rest => perfect_run rest
  | (h :: _) :: rest =>
      ImageClick 0 (hotspot_x h) (hotspot_y h) percent_rect :: Timeout 0 ::
      perfect_run rest
  end.

End Simulation.

(** * Properties *)

(** ** Numbers *)

Section NumFacts.

Lemma leb_le (a b : Q) : Num.leb a b = true ↔ (a <= b)%Q.
Proof. apply Qle_bool_iff. Qed.

Lemma gtb_lt (a b : Q) : Num.gtb a b = true ↔ (b < a)%Q.
Proof.
  unfold Num.gtb. rewrite negb_true_iff. split.
  - intros H. apply Qnot_le_lt. intros Hle.
    apply Qle_bool_iff in Hle. congruence.
  - intros H. destruct (Qle_bool a b) eqn:E; [|reflexivity].
    apply Qle_bool_iff in E. exfalso. exact (Qlt_not_le _ _ H E).
Qed.

Lemma gtb_false_le (a b : Q) : Num.gtb a b = false ↔ (a <= b)%Q.
Proof.
  unfold Num.gtb. rewrite negb_false_iff. apply Qle_bool_iff.
Qed.

End NumFacts.

(** ** Attempt scorer *)

Section ScorerFacts.

Import Scorer.

Lemma validateClickTolerance_iff (x y ex ey : Q) (tolerance : option Q) :
  validateClickTolerance x y ex ey tolerance = true ↔
  (Qabs (x - ex) <= default 25 tolerance)%Q ∧ (Qabs (y - ey) <= default 25 tolerance)%Q.
Proof.
  unfold validateClickTolerance. cbv zeta.
  rewrite andb_true_iff, !leb_le. reflexivity.
Qed.

Lemma displayVerdict_validate (x y : Q) (h : HotspotData) :
  displayVerdict x y h = validateClickTolerance x y (hotspot_x h) (hotspot_y h) None.
Proof. reflexivity. Qed.

(** C1.  The scorer accepts a click exactly when it lies within the
    tolerance on each axis separately: for every click [(x, y)], target
    [(ex, ey)] and tolerance [t] (25 when omitted),
    [validateClickTolerance] is true iff [|x - ex| <= t] and
    [|y - ey| <= t]; the test display computes the same verdict with
    [t = 25].  The window is a square, not a circle: around (100, 100)
    with [t = 25], (125, 125) and (75, 75) are correct although farther
    than 25 from the target, (126, 100) and (74, 100) are incorrect. *)
Theorem scorer_axis_aligned_window :
  (∀ x y ex ey t : Q,
      validateClickTolerance x y ex ey (Some t) = true ↔
      (Qabs (x - ex) <= t)%Q ∧ (Qabs (y - ey) <= t)%Q) ∧
  (∀ x y ex ey : Q,
      validateClickTolerance x y ex ey None = true ↔
      (Qabs (x - ex) <= 25)%Q ∧ (Qabs (y - ey) <= 25)%Q) ∧
  (∀ (x y : Q) (h : HotspotData),
      displayVerdict x y h = true ↔
      (Qabs (x - hotspot_x h) <= 25)%Q ∧ (Qabs (y - hotspot_y h) <= 25)%Q) ∧
  validateClickTolerance 125 125 100 100 (Some 25%Q) = true ∧
  validateClickTolerance 126 100 100 100 (Some 25%Q) = false ∧
  validateClickTolerance 75 75 100 100 (Some 25%Q) = true ∧
  validateClickTolerance 74 100 100 100 (Some 25%Q) = false ∧
  validateClickTolerance 125 125 100 100 None = true ∧
  validateClickTolerance 126 100 100 100 None = false ∧
  validateClickTolerance 75 75 100 100 None = true ∧
  validateClickTolerance 74 100 100 100 None = false ∧
  withinCircle 125 125 100 100 25 = false ∧
  withinCircle 75 75 100 100 25 = false.
Proof.
  split; [|split; [|split]].
  - intros x y ex ey t. apply (validateClickTolerance_iff x y ex ey (Some t)).
  - intros x y ex ey. apply (validateClickTolerance_iff x y ex ey None).
  - intros x y h. rewrite displayVerdict_validate.
    apply (validateClickTolerance_iff x y _ _ None).
  - repeat split; vm_compute; reflexivity.
Qed.

End ScorerFacts.

(** ** Speech segmentation *)

Section SegmentationFacts.

Import Pipeline.

Lemma gtb_shift (t l : Q) : Num.gtb t (l + 3)%Q = Num.gtb (t - l)%Q 3%Q.
Proof.
  destruct (Num.gtb (t - l) 3) eqn:E.
  - apply gtb_lt in E. apply gtb_lt. lra.
  - apply gtb_false_le in E. apply gtb_false_le. lra.
Qed.

Lemma audio_step_start_closed (s : audio_state) (t : Q) :
  silenceStart s = None →
  audio_step s (silence_start_line t) = Spec.segmentation_step s (Spec.SilenceStart t).
Proof.
  intros H. unfold audio_step. simpl. rewrite H, gtb_shift. reflexivity.
Qed.

Lemma audio_step_start_open (s : audio_state) (t : Q) :
  silenceStart s ≠ None → audio_step s (silence_start_line t) = s.
Proof.
  intros H. unfold audio_step. simpl.
  destruct (silenceStart s); [reflexivity | congruence].
Qed.

Lemma audio_step_end_open (s : audio_state) (t : Q) :
  silenceStart s ≠ None →
  audio_step s (silence_end_line t) = Spec.segmentation_step s (Spec.SilenceEnd t).
Proof.
  intros H. unfold audio_step. simpl.
  rewrite bool_decide_eq_true_2 by exact H. reflexivity.
Qed.

Lemma audio_step_end_closed (s : audio_state) (t : Q) :
  silenceStart s = None → audio_step s (silence_end_line t) = s.
Proof.
  intros H. unfold audio_step. simpl.
  rewrite bool_decide_eq_false_2; [reflexivity | ]. intros Hne. congruence.
Qed.

Lemma audio_step_other (s : audio_state) : audio_step s other_line = s.
Proof. reflexivity. Qed.

(** On an alternating sequence the loop of the code and the scan of the
    specification go through the same states. *)
Lemma audio_loop_alternates (bs : list Spec.boundary) (s : audio_state) :
  Spec.alternates (bool_decide (silenceStart s ≠ None)) bs = true →
  fold_left audio_step (map Spec.boundary_line bs) s =
  fold_left Spec.segmentation_step bs s.
Proof.
  revert s. induction bs as [|b bs IH]; intros s Halt; [reflexivity|].
  destruct b as [t|t]; simpl in Halt |- *;
    apply andb_true_iff in Halt as [Hopen Hrest].
  - apply negb_true_iff, bool_decide_eq_false in Hopen.
    assert (Hnone : silenceStart s = None)
      by (destruct (silenceStart s); [exfalso; apply Hopen; discriminate | reflexivity]).
    rewrite (audio_step_start_closed s t Hnone).
    apply IH. simpl. exact Hrest.
  - apply bool_decide_eq_true in Hopen.
    rewrite (audio_step_end_open s t Hopen).
    apply IH. simpl. exact Hrest.
Qed.

(** C3 (as amended).  The loop keeps [lastSpeechEnd] (initially 0) and
    the open silence [silenceStart].  A silence-start at [t] read while
    no silence is open emits the segment [lastSpeechEnd, t] exactly when
    [t - lastSpeechEnd > 3] and opens the silence; read while a silence
    is open it is ignored.  A silence-end at [t'] read while a silence
    is open sets [lastSpeechEnd = t'] and closes it; read while none is
    open it is ignored.  Hence on every alternating boundary sequence
    the output is the one the specification describes, and for
    silence_start=5, silence_end=6, silence_start=20 it is exactly
    [0,5], [6,20] in that order. *)
Theorem segmentation_guarded_scan :
  (∀ (s : audio_state) (t : Q), silenceStart s = None →
      silenceStart (audio_step s (silence_start_line t)) = Some t ∧
      lastSpeechEnd (audio_step s (silence_start_line t)) = lastSpeechEnd s ∧
      ((3 < t - lastSpeechEnd s)%Q →
         speechSegments (audio_step s (silence_start_line t)) =
         speechSegments s ++ [ {| seg_start := lastSpeechEnd s; seg_end := t |} ]) ∧
      (¬ (3 < t - lastSpeechEnd s)%Q →
         speechSegments (audio_step s (silence_start_line t)) = speechSegments s)) ∧
  (∀ (s : audio_state) (t : Q), silenceStart s ≠ None →
      audio_step s (silence_start_line t) = s) ∧
  (∀ (s : audio_state) (t' : Q), silenceStart s ≠ None →
      audio_step s (silence_end_line t') =
      {| silenceStart := None; lastSpeechEnd := t'; speechSegments := speechSegments s |}) ∧
  (∀ (s : audio_state) (t' : Q), silenceStart s = None →
      audio_step s (silence_end_line t') = s) ∧
  (∀ bs : list Spec.boundary, Spec.alternates false bs = true →
      parse_audio (map Spec.boundary_line bs) = Spec.segmentation bs) ∧
  lastSpeechEnd audio_init = 0%Q ∧ silenceStart audio_init = None ∧
  parse_audio [silence_start_line 5; silence_end_line 6; silence_start_line 20] =
    [ {| seg_start := 0; seg_end := 5 |}; {| seg_start := 6; seg_end := 20 |} ].
Proof.
  split; [|split; [|split; [|split; [|split]]]].
  - intros s t Hnone. rewrite (audio_step_start_closed s t Hnone). simpl.
    repeat split.
    + intros Hgt. apply gtb_lt in Hgt. rewrite Hgt. reflexivity.
    + intros Hle. destruct (Num.gtb (t - lastSpeechEnd s) 3) eqn:E; [|reflexivity].
      apply gtb_lt in E. contradiction.
  - apply audio_step_start_open.
  - intros s t' Hopen. rewrite (audio_step_end_open s t' Hopen). reflexivity.
  - apply audio_step_end_closed.
  - intros bs Halt. unfold parse_audio, audio_loop, Spec.segmentation.
    rewrite audio_loop_alternates; [reflexivity | exact Halt].
  - repeat split.
Qed.

(** The guarded scan at work on the specification's example. *)
Lemma segmentation_guarded_scan_example :
  parse_audio (map Spec.boundary_line
                 [Spec.SilenceStart 5; Spec.SilenceEnd 6; Spec.SilenceStart 20]) =
  Spec.segmentation [Spec.SilenceStart 5; Spec.SilenceEnd 6; Spec.SilenceStart 20].
Proof.
  apply (proj1 (proj2 (proj2 (proj2 (proj2 segmentation_guarded_scan))))).
  reflexivity.
Defined.

(** C3 as stated fails where the boundaries do not alternate: a second
    silence-start while the silence is open emits nothing, although it
    is more than 3 s after [lastSpeechEnd]; a silence-end read while no
    silence is open does not move [lastSpeechEnd]. *)
Lemma segmentation_unguarded_differs :
  parse_audio (map Spec.boundary_line [Spec.SilenceStart 5; Spec.SilenceStart 20]) =
    [ {| seg_start := 0; seg_end := 5 |} ] ∧
  Spec.segmentation [Spec.SilenceStart 5; Spec.SilenceStart 20] =
    [ {| seg_start := 0; seg_end := 5 |}; {| seg_start := 0; seg_end := 20 |} ] ∧
  parse_audio (map Spec.boundary_line [Spec.SilenceEnd 6; Spec.SilenceStart 8]) =
    [ {| seg_start := 0; seg_end := 8 |} ] ∧
  Spec.segmentation [Spec.SilenceEnd 6; Spec.SilenceStart 8] = [].
Proof. repeat split. Qed.

End SegmentationFacts.

(** ** Effects of the handler *)

Section MonadFacts.

Import Pipeline.

Lemma bind_run {A B} (m : M A) (f : A → M B) (s : state) :
  (m ≫= f) s =
  match m s with
  | (Some a, s') => f a s'
  | (None, s') => (None, s')
  end.
Proof. reflexivity. Qed.

Lemma bind_Some {A B} (m : M A) (f : A → M B) (s s' : state) (b : B) :
  (m ≫= f) s = (Some b, s') →
  ∃ a s1, m s = (Some a, s1) ∧ f a s1 = (Some b, s').
Proof.
  rewrite bind_run. destruct (m s) as [[a|] s1]; [eauto | discriminate].
Qed.

Lemma try_catch_run {A} (body handler : M A) (s : state) :
  try_catch body handler s =
  match body s with
  | (Some a, s') => (Some a, s')
  | (None, s') => handler s'
  end.
Proof. reflexivity. Qed.

Lemma ret_run {A} (a : A) (s : state) : (mret a : M A) s = (Some a, s).
Proof. reflexivity. Qed.

Lemma log_run (m : log_msg) (s : state) :
  log m s = (Some (), {| fs := fs s; rng := rng s; console := console s ++ [m] |}).
Proof. reflexivity. Qed.

Lemma state_eta (s : state) :
  {| fs := fs s; rng := rng s; console := console s |} = s.
Proof. destruct s; reflexivity. Qed.

End MonadFacts.

(** ** Fallback grid *)

Section FallbackFacts.

Import Pipeline.

Lemma fallback_segments_length : length fallback_segments = 20.
Proof. reflexivity. Qed.

Lemma fallback_segments_lookup (i : nat) :
  i < 20 →
  fallback_segments !! i =
  Some {| seg_start := (Num.of_nat i * 15)%Q; seg_end := (Num.of_nat i * 15 + 2)%Q |}.
Proof.
  intros Hi. unfold fallback_segments.
  change (Z.to_nat (Num.ceil (videoDuration / 15))) with 20.
  rewrite list_lookup_fmap, lookup_seq_lt by exact Hi. reflexivity.
Qed.

Lemma read_speech_segments_readable (outputDir : string) (s : state) (lines : list line) :
  fs s !! audio_path outputDir = Some (File lines) →
  read_speech_segments outputDir s = (Some (parse_audio lines), s).
Proof.
  intros H. unfold read_speech_segments.
  rewrite try_catch_run, bind_run. unfold readFileSync. rewrite H. reflexivity.
Qed.

Lemma read_speech_segments_unreadable (outputDir : string) (s : state) :
  (∀ lines, fs s !! audio_path outputDir ≠ Some (File lines)) →
  read_speech_segments outputDir s =
  (Some fallback_segments,
   {| fs := fs s; rng := rng s; console := console s ++ [LogFallback] |}).
Proof.
  intros H. unfold read_speech_segments.
  rewrite try_catch_run, bind_run. unfold readFileSync.
  destruct (fs s !! audio_path outputDir) as [[|lines]|] eqn:E; try reflexivity.
  exfalso. exact (H lines eq_refl).
Qed.

(** C2 (as amended).  In smart mode the fallback grid replaces the
    speech segments exactly when reading the audio-analysis output
    throws: a readable output is parsed and its segments are kept as
    they are, with no fallback and nothing logged, also when there are
    none; an unreadable output gives the grid and the fallback message.
    The grid has exactly ceil(300/15) = 20 pseudo-segments, the i-th
    starting at 15 i and ending 2 seconds later. *)
Theorem fallback_grid_on_read_failure :
  (∀ (outputDir : string) (s : state) (lines : list line),
      fs s !! audio_path outputDir = Some (File lines) →
      read_speech_segments outputDir s = (Some (parse_audio lines), s)) ∧
  (∀ (outputDir : string) (s : state),
      (∀ lines, fs s !! audio_path outputDir ≠ Some (File lines)) →
      read_speech_segments outputDir s =
      (Some fallback_segments,
       {| fs := fs s; rng := rng s; console := console s ++ [LogFallback] |})) ∧
  Num.ceil (300 / 15)%Q = 20%Z ∧
  length fallback_segments = 20 ∧
  (∀ i : nat, i < 20 →
      ∃ g, fallback_segments !! i = Some g ∧
           seg_start g = (Num.of_nat i * 15)%Q ∧
           (seg_end g - seg_start g == 2)%Q).
Proof.
  split; [|split; [|split; [|split]]].
  - apply read_speech_segments_readable.
  - apply read_speech_segments_unreadable.
  - reflexivity.
  - apply fallback_segments_length.
  - intros i Hi. eexists. split; [apply fallback_segments_lookup, Hi|].
    simpl. split; [reflexivity | ring].
Qed.

(** The amended statement on a working directory whose audio log could
    not be written and on the third grid point. *)
Lemma fallback_grid_on_read_failure_example :
  read_speech_segments "frames/7" Examples.uploaded =
    (Some fallback_segments,
     {| fs := fs Examples.uploaded; rng := 0; console := [LogFallback] |}) ∧
  ∃ g, fallback_segments !! 2 = Some g ∧
       seg_start g = (Num.of_nat 2 * 15)%Q ∧ (seg_end g - seg_start g == 2)%Q.
Proof.
  split.
  - apply (proj1 (proj2 fallback_grid_on_read_failure) "frames/7" Examples.uploaded).
    intros lines. vm_compute. discriminate.
  - apply (proj2 (proj2 (proj2 (proj2 fallback_grid_on_read_failure))) 2). lia.
Defined.

End FallbackFacts.

Section FallbackCounterexample.

Import Pipeline.

(** C2 as stated fails on an audio log that is readable and yields no
    segment (no silence was detected): the parsed list is empty, the
    fallback is not taken and the run goes on with zero speech
    segments, where the specification's rule would give the 20-segment
    grid. *)
Lemma fallback_skipped_on_empty_parse :
  parse_audio [other_line] = [] ∧
  read_speech_segments "frames/7" Examples.silent = (Some [], Examples.silent) ∧
  Spec.segments_with_fallback (parse_audio [other_line]) = fallback_segments ∧
  length (Spec.segments_with_fallback (parse_audio [other_line])) = 20 ∧
  (uploadVideo (Examples.exec_ok [other_line] [other_line] []) Examples.random10 7
     Examples.smart_request Examples.uploaded).1 = Some (SmartOk [] [] 0 0) ∧
  console (uploadVideo (Examples.exec_ok [other_line] [other_line] []) Examples.random10 7
             Examples.smart_request Examples.uploaded).2 =
    [LogAnalyzing; LogCursorFound 0; LogSpeechSegments 0; LogClickEvents 0].
Proof. repeat split; vm_compute; reflexivity. Qed.

End FallbackCounterexample.

(** ** Speech segments as candidate events *)

Section SpeechEventFacts.

Import Pipeline.

Variable random : nat → Q.

(** The events of [speech_events], by the position of their draws. *)
Lemma speech_events_run (segments : list segment) (s : state) :
  speech_events random segments s =
  (Some (imap (λ i seg, speech_event seg (random (rng s + 2 * i))
                                         (random (rng s + 2 * i + 1))) segments),
   {| fs := fs s; rng := rng s + 2 * length segments; console := console s |}).
Proof.
  revert s. induction segments as [|seg rest IH]; intros s.
  - simpl. rewrite ret_run. destruct s; simpl. do 2 f_equal. f_equal. lia.
  - cbn [speech_events]. rewrite bind_run. unfold mathRandom at 1.
    rewrite bind_run. unfold mathRandom at 1.
    rewrite bind_run, IH. cbn [fs rng console]. rewrite ret_run. f_equal.
    + f_equal. cbn [imap]. f_equal.
      * f_equal; f_equal; lia.
      * apply imap_ext. intros i seg' _. cbn. f_equal; f_equal; lia.
    + f_equal. cbn [length]. lia.
Qed.

Lemma speech_event_midpoint (seg : segment) (rx ry : Q) :
  (ev_timestamp (speech_event seg rx ry) == (seg_start seg + seg_end seg) / 2)%Q.
Proof. simpl. field. Qed.

Lemma speech_event_range (seg : segment) (rx ry : Q) :
  (0 <= rx < 1)%Q → (0 <= ry < 1)%Q →
  (400 <= ev_x (speech_event seg rx ry) < 600)%Q ∧
  (300 <= ev_y (speech_event seg rx ry) < 500)%Q.
Proof. simpl. intros [? ?] [? ?]. repeat split; lra. Qed.

End SpeechEventFacts.

Section SpeechEventClaim.

Import Pipeline.

(** C8 (as amended).  In smart mode every speech segment is converted
    into exactly one candidate event, in order, of type speech, whose
    timestamp is the segment's midpoint and whose confidence is 0.7.
    Its estimated position is a placeholder drawn at random:
    x = 400 + 200 r and y = 300 + 200 r' for two successive values
    r, r' of the random source, hence within [400, 600) x [300, 500) when
    the source stays in [0, 1). *)
Theorem speech_segment_to_event :
  ∀ (random : nat → Q) (segments : list segment) (s : state),
  ∃ (events : list Event) (s' : state),
    speech_events random segments s = (Some events, s') ∧
    length events = length segments ∧
    ∀ (i : nat) (seg : segment), segments !! i = Some seg →
      ∃ e, events !! i = Some e ∧
           ev_type e = "speech" ∧
           (ev_timestamp e == (seg_start seg + seg_end seg) / 2)%Q ∧
           ev_confidence e = 0.7%Q ∧
           ev_x e = (400 + random (rng s + 2 * i)%nat * 200)%Q ∧
           ev_y e = (300 + random (rng s + 2 * i + 1)%nat * 200)%Q ∧
           ((∀ n, (0 <= random n < 1)%Q) →
            (400 <= ev_x e < 600)%Q ∧ (300 <= ev_y e < 500)%Q).
Proof.
  intros random segments s. eexists. eexists.
  split; [apply speech_events_run|].
  split; [apply length_imap|].
  intros i seg Hi. eexists. split.
  - rewrite list_lookup_imap, Hi. reflexivity.
  - split; [reflexivity|]. split; [apply speech_event_midpoint|].
    split; [reflexivity|]. split; [reflexivity|]. split; [reflexivity|].
    intros Hr. apply speech_event_range; apply Hr.
Qed.

Lemma random10_range (n : nat) : (0 <= Examples.random10 n < 1)%Q.
Proof.
  unfold Examples.random10, Qle, Qlt. simpl.
  pose proof (Nat.mod_upper_bound n 10). lia.
Qed.

(** The two events of the segments [0,5] and [6,20]. *)
Lemma speech_segment_to_event_example :
  ∃ e : Event,
    (speech_events Examples.random10 Examples.two_segments Examples.uploaded).1 ≫=
      (λ events, events !! 1) = Some e ∧
    ev_type e = "speech" ∧ (ev_timestamp e == 13)%Q ∧ ev_confidence e = 0.7%Q ∧
    (400 <= ev_x e < 600)%Q ∧ (300 <= ev_y e < 500)%Q.
Proof.
  destruct (speech_segment_to_event Examples.random10 Examples.two_segments
              Examples.uploaded) as (events & s' & Hrun & _ & Hall).
  destruct (Hall 1 {| seg_start := 6; seg_end := 20 |} eq_refl)
    as (e & He & Hty & Hts & Hc & _ & _ & Hrange).
  exists e. rewrite Hrun. simpl. split; [exact He|]. split; [exact Hty|].
  split; [rewrite Hts; reflexivity|]. split; [exact Hc|].
  apply Hrange, random10_range.
Defined.

(** The positions of two events of one run differ, so no constant is the
    position of every speech-derived event. *)
Lemma speech_positions_vary :
  (speech_events Examples.random10 Examples.two_segments Examples.uploaded).1 =
    Some [ speech_event {| seg_start := 0; seg_end := 5 |} (0 # 10) (1 # 10);
           speech_event {| seg_start := 6; seg_end := 20 |} (2 # 10) (3 # 10) ] ∧
  ¬ (ev_x (speech_event {| seg_start := 0; seg_end := 5 |} (0 # 10) (1 # 10)) ==
     ev_x (speech_event {| seg_start := 6; seg_end := 20 |} (2 # 10) (3 # 10)))%Q ∧
  ¬ Spec.fixed_placeholder.
Proof.
  split; [vm_compute; reflexivity|].
  split; [vm_compute; discriminate|].
  intros (px & py & Hfix).
  pose proof (Hfix Examples.random10 Examples.two_segments Examples.uploaded _ _
                (speech_events_run _ _ _)) as Hall.
  unfold Examples.two_segments in Hall. cbn [imap] in Hall.
  destruct (Hall _ (list_elem_of_here _ _)) as [H1 _].
  destruct (Hall _ (list_elem_of_further _ _ _ (list_elem_of_here _ _))) as [H2 _].
  rewrite <- H2 in H1. revert H1. vm_compute. discriminate.
Qed.

End SpeechEventClaim.

(** ** The merge: a stable sort by timestamp *)

Section SortFacts.

Import Pipeline.

Lemma insert_event_perm (e : Event) (l : list Event) : insert_event e l ≡ₚ e :: l.
Proof.
  induction l as [|h t IH]; [reflexivity|]. simpl.
  destruct (Num.leb (ev_timestamp e) (ev_timestamp h)); [reflexivity|].
  rewrite IH. apply Permutation_swap.
Qed.

Lemma sort_events_perm (l : list Event) : sort_events l ≡ₚ l.
Proof.
  induction l as [|e l IH]; [reflexivity|].
  unfold sort_events in *. simpl. rewrite insert_event_perm, IH. reflexivity.
Qed.

Lemma sort_events_length (l : list Event) : length (sort_events l) = length l.
Proof. apply Permutation_length, sort_events_perm. Qed.

Lemma earlier_trans (a b c : Event) : earlier a b → earlier b c → earlier a c.
Proof. unfold earlier. apply Qle_trans. Qed.

Lemma insert_event_sorted (e : Event) (l : list Event) :
  StronglySorted earlier l → StronglySorted earlier (insert_event e l).
Proof.
  induction 1 as [|h t Hs IH Hall]; simpl.
  - repeat constructor.
  - destruct (Num.leb (ev_timestamp e) (ev_timestamp h)) eqn:E.
    + apply leb_le in E. constructor; [constructor; assumption|].
      constructor; [exact E|].
      eapply Forall_impl; [exact Hall|]. intros x Hx.
      exact (earlier_trans e h x E Hx).
    + constructor; [exact IH|].
      rewrite insert_event_perm. constructor; [|exact Hall].
      unfold earlier. apply Qlt_le_weak, gtb_lt.
      unfold Num.gtb, Num.leb in *. rewrite E. reflexivity.
Qed.

Lemma sort_events_sorted (l : list Event) : StronglySorted earlier (sort_events l).
Proof.
  induction l as [|e l IH]; [constructor|].
  unfold sort_events in *. simpl. apply insert_event_sorted, IH.
Qed.

(** Events with the same timestamp keep their order of insertion. *)
Lemma insert_event_stable (t : Q) (e : Event) (l : list Event) :
  StronglySorted earlier l →
  List.filter (λ x, Qeq_bool (ev_timestamp x) t) (insert_event e l) =
  List.filter (λ x, Qeq_bool (ev_timestamp x) t) (e :: l).
Proof.
  induction 1 as [|h r Hs IH Hall]; [reflexivity|].
  cbn [insert_event].
  destruct (Num.leb (ev_timestamp e) (ev_timestamp h)) eqn:E; [reflexivity|].
  cbn [List.filter] in *.
  destruct (Qeq_bool (ev_timestamp h) t) eqn:Eh.
  - rewrite IH. destruct (Qeq_bool (ev_timestamp e) t) eqn:Ee; [|reflexivity].
    exfalso. apply Qeq_bool_iff in Eh, Ee.
    assert (Hle : (ev_timestamp e <= ev_timestamp h)%Q) by (rewrite Eh, Ee; apply Qle_refl).
    apply leb_le in Hle. congruence.
  - exact IH.
Qed.

Lemma sort_events_stable (t : Q) (l : list Event) :
  List.filter (λ x, Qeq_bool (ev_timestamp x) t) (sort_events l) =
  List.filter (λ x, Qeq_bool (ev_timestamp x) t) l.
Proof.
  induction l as [|e l IH]; [reflexivity|].
  change (sort_events (e :: l)) with (insert_event e (sort_events l)).
  rewrite insert_event_stable by apply sort_events_sorted.
  cbn [List.filter]. rewrite IH. reflexivity.
Qed.

(** The first [n] events of the merge are the earliest ones. *)
Lemma sort_events_take_earliest (n : nat) (l : list Event) (e e' : Event) :
  e ∈ take n (sort_events l) → e' ∈ drop n (sort_events l) → earlier e e'.
Proof.
  intros He He'.
  apply (StronglySorted_app_1_elem_of earlier
           (take n (sort_events l)) (drop n (sort_events l))); [|assumption..].
  rewrite take_drop. apply sort_events_sorted.
Qed.

End SortFacts.

(** ** Frame extraction *)

Section ExtractFacts.

Import Pipeline.

Variable exec : command → gmap string node → bool * gmap string node.

Lemma frames_from_length (outputDir : string) (i : nat) (events : list Event) :
  length (frames_from outputDir i events) = length events.
Proof.
  revert i. induction events as [|e r IH]; intros i; simpl; [|rewrite IH]; reflexivity.
Qed.

Lemma frames_from_lookup (outputDir : string) (i j : nat) (events : list Event) :
  frames_from outputDir i events !! j =
  (λ e, smart_frame outputDir e (i + j)) <$> events !! j.
Proof.
  revert i j. induction events as [|e r IH]; intros i j; [reflexivity|].
  destruct j as [|j]; simpl.
  - rewrite Nat.add_0_r. reflexivity.
  - rewrite IH. replace (S i + j) with (i + S j) by lia. reflexivity.
Qed.

Lemma frames_from_elem (outputDir : string) (i : nat) (events : list Event)
    (fd : FrameData) :
  fd ∈ frames_from outputDir i events →
  ∃ j e, events !! j = Some e ∧ fd = smart_frame outputDir e (i + j).
Proof.
  intros Hin. apply list_elem_of_lookup in Hin as [j Hj].
  rewrite frames_from_lookup in Hj.
  destruct (events !! j) as [e|] eqn:E; [|discriminate].
  exists j, e. split; [exact E|]. simpl in Hj. congruence.
Qed.

(** The loop never throws; it keeps, in order, the descriptors of the
    events whose extraction succeeded. *)
Lemma extract_loop_run (videoPath outputDir : string) (events : list Event) :
  ∀ (i : nat) (acc : list FrameData) (s : state),
  ∃ (kept : list FrameData) (s' : state),
    extract_loop exec videoPath outputDir i events acc s = (Some (acc ++ kept), s') ∧
    kept `sublist_of` frames_from outputDir i events ∧
    rng s' = rng s ∧
    (never_fails exec → kept = frames_from outputDir i events ∧ console s' = console s).
Proof.
  induction events as [|e r IH]; intros i acc s.
  - exists [], s. rewrite app_nil_r. repeat split. constructor.
  - cbn [extract_loop frames_from].
    rewrite bind_run, try_catch_run, bind_run. unfold execAsync.
    destruct (exec (CmdExtract videoPath (ev_timestamp e)
                      (outputDir +:+ "/" +:+ smart_filename e i)) (fs s))
      as [ok f'] eqn:E.
    destruct ok.
    + rewrite ret_run.
      destruct (IH (S i) (acc ++ [smart_frame outputDir e i])
                  {| fs := f'; rng := rng s; console := console s |})
        as (kept & s' & Hrun & Hsub & Hrng & Hok).
      exists (smart_frame outputDir e i :: kept), s'.
      rewrite Hrun, <- app_assoc. split; [reflexivity|].
      split; [apply sublist_skip, Hsub|]. split; [exact Hrng|].
      intros Hnf. destruct (Hok Hnf) as [-> Hc]. split; [reflexivity | exact Hc].
    + rewrite bind_run, log_run, ret_run.
      destruct (IH (S i) acc
                  {| fs := f'; rng := rng s;
                     console := console s ++
                       [LogExtractFailed (ev_type e) (ev_timestamp e)] |})
        as (kept & s' & Hrun & Hsub & Hrng & Hok).
      exists kept, s'. split; [exact Hrun|].
      split; [apply sublist_cons, Hsub|]. split; [exact Hrng|].
      intros Hnf. exfalso.
      pose proof (Hnf (CmdExtract videoPath (ev_timestamp e)
                         (outputDir +:+ "/" +:+ smart_filename e i)) (fs s)) as Ht.
      rewrite E in Ht. discriminate.
Qed.

Lemma take_min_length {A} (l : list A) (n : nat) :
  take (Nat.min (length l) n) l = take n l.
Proof.
  destruct (Nat.le_ge_cases (length l) n) as [H|H].
  - rewrite Nat.min_l, !take_ge by lia. reflexivity.
  - rewrite Nat.min_r by lia. reflexivity.
Qed.

Lemma extract_frames_run (videoPath outputDir : string) (events : list Event)
    (s : state) :
  ∃ (frameData : list FrameData) (s' : state),
    extract_frames exec videoPath outputDir events s = (Some frameData, s') ∧
    frameData `sublist_of` frames_from outputDir 0 (take 20 events) ∧
    rng s' = rng s ∧
    (never_fails exec →
     frameData = frames_from outputDir 0 (take 20 events) ∧ console s' = console s).
Proof.
  unfold extract_frames. rewrite take_min_length.
  destruct (extract_loop_run videoPath outputDir (take 20 events) 0 [] s)
    as (kept & s' & Hrun & Hsub & Hrng & Hok).
  exists kept, s'. auto.
Qed.

Lemma extract_frames_elem (videoPath outputDir : string) (events : list Event)
    (s s' : state) (frameData : list FrameData) (fd : FrameData) :
  extract_frames exec videoPath outputDir events s = (Some frameData, s') →
  fd ∈ frameData →
  ∃ i event, i < 20 ∧ events !! i = Some event ∧ fd = smart_frame outputDir event i.
Proof.
  intros Hrun Hin.
  destruct (extract_frames_run videoPath outputDir events s)
    as (fa & s1 & Hrun' & Hsub & _).
  rewrite Hrun in Hrun'. injection Hrun' as <- <-.
  apply (λ H, elem_of_sublist _ _ _ H Hsub) in Hin.
  apply frames_from_elem in Hin as (j & e & Hj & ->).
  apply lookup_take_Some in Hj as [Hj Hlt].
  exists j, e. auto.
Qed.

End ExtractFacts.

(** ** The upload route, step by step *)

Section HandlerFacts.

Import Pipeline.

Variable exec : command → gmap string node → bool * gmap string node.
Variable random : nat → Q.

Lemma quick_mode_inv (videoPath outputDir : string) (s s' : state) (r : response) :
  quick_mode exec videoPath outputDir s = (Some r, s') →
  ∃ names s1 s2,
    execAsync exec (CmdQuick videoPath outputDir)
      {| fs := fs s; rng := rng s; console := console s ++ [LogQuickMode] |} =
      (Some (), s1) ∧
    readdirSync outputDir s1 = (Some names, s2) ∧
    unlinkSync videoPath s2 = (Some (), s') ∧
    r = QuickOk (map fd_url (quick_files outputDir names)) (quick_files outputDir names).
Proof.
  unfold quick_mode. intros H.
  apply bind_Some in H as ([] & sa & Ha & H). rewrite log_run in Ha.
  injection Ha as <-.
  apply bind_Some in H as ([] & s1 & H1 & H).
  apply bind_Some in H as (names & s2 & H2 & H).
  apply bind_Some in H as ([] & s3 & H3 & H).
  rewrite ret_run in H. injection H as <- <-.
  exists names, s1, s2. auto.
Qed.

Lemma smart_mode_inv (videoPath outputDir : string) (s s' : state) (r : response) :
  smart_mode exec random videoPath outputDir s = (Some r, s') →
  ∃ s1 segments s2 clicks s3 events s4 frameData s5,
    try_catch
      (execAsync exec (CmdAudio videoPath outputDir);;
       execAsync exec (CmdCursor videoPath outputDir))
      (log LogAnalysisCompleted)
      {| fs := fs s; rng := rng s; console := console s ++ [LogAnalyzing] |} =
      (Some (), s1) ∧
    read_speech_segments outputDir s1 = (Some segments, s2) ∧
    read_click_events random outputDir s2 = (Some clicks, s3) ∧
    combined_events random segments clicks
      {| fs := fs s3; rng := rng s3;
         console := (console s3 ++ [LogSpeechSegments (length segments)]) ++
                    [LogClickEvents (length clicks)] |} = (Some events, s4) ∧
    extract_frames exec videoPath outputDir events s4 = (Some frameData, s5) ∧
    unlinkSync videoPath s5 = (Some (), s') ∧
    r = SmartOk (map fd_url frameData) frameData (length segments) (length clicks).
Proof.
  unfold smart_mode. intros H.
  apply bind_Some in H as ([] & sa & Ha & H). rewrite log_run in Ha.
  injection Ha as <-.
  apply bind_Some in H as ([] & s1 & H1 & H).
  apply bind_Some in H as (segments & s2 & H2 & H).
  apply bind_Some in H as (clicks & s3 & H3 & H).
  apply bind_Some in H as ([] & sb & Hb & H). rewrite log_run in Hb.
  injection Hb as <-.
  apply bind_Some in H as ([] & sc & Hc & H). rewrite log_run in Hc.
  injection Hc as <-. cbn [fs rng console] in H.
  apply bind_Some in H as (events & s4 & H4 & H).
  apply bind_Some in H as (frameData & s5 & H5 & H).
  apply bind_Some in H as ([] & s6 & H6 & H).
  rewrite ret_run in H. injection H as <- <-.
  exists s1, segments, s2, clicks, s3, events, s4, frameData, s5. auto 10.
Qed.

(** A response other than the two failures comes from one of the two
    modes, run on the uploaded file in a fresh working directory. *)
Lemma uploadVideo_inv (now : N) (req : Request) (s s' : state) (r : response) :
  uploadVideo exec random now req s = (Some r, s') →
  r ≠ BadRequest → r ≠ ServerError →
  ∃ videoPath s1,
    req_file req = Some videoPath ∧
    console s1 = console s ∧ rng s1 = rng s ∧
    fs s1 !! outputDir_of now = Some Dir ∧
    (quick_mode exec videoPath (outputDir_of now) s1 = (Some r, s') ∨
     smart_mode exec random videoPath (outputDir_of now) s1 = (Some r, s')).
Proof.
  unfold uploadVideo. rewrite try_catch_run. intros H Hbad Herr.
  destruct (req_file req) as [videoPath|] eqn:Efile.
  2:{ rewrite ret_run in H. congruence. }
  match type of H with
  | match ?body s with _ => _ end = _ => destruct (body s) as [[r0|] s0] eqn:Ebody
  end.
  2:{ rewrite bind_run, log_run, ret_run in H. congruence. }
  injection H as -> ->.
  apply bind_Some in Ebody as (present & sa & Ha & H).
  unfold existsSync in Ha. injection Ha as <- <-.
  apply bind_Some in H as ([] & sb & Hb & H).
  apply bind_Some in H as ([] & s1 & H1 & H).
  exists videoPath, s1. split; [reflexivity|].
  assert (Hsb : console sb = console s ∧ rng sb = rng s).
  { destruct (bool_decide (fs s !! "frames" ≠ None)).
    - rewrite ret_run in Hb. injection Hb as <-. auto.
    - unfold mkdirSync in Hb.
      destruct (fs s !! "frames"); [discriminate|].
      simpl in Hb. injection Hb as <-. auto. }
  assert (Hs1 : console s1 = console sb ∧ rng s1 = rng sb ∧
                fs s1 !! outputDir_of now = Some Dir).
  { unfold mkdirSync in H1.
    destruct (fs sb !! outputDir_of now); [discriminate|].
    destruct ((split_path (outputDir_of now)).1) as [d|].
    - destruct (fs sb !! d) as [[|]|]; try discriminate.
      injection H1 as <-. simpl. rewrite lookup_insert_eq. auto.
    - injection H1 as <-. simpl. rewrite lookup_insert_eq. auto. }
  destruct Hsb as [Hc1 Hr1]. destruct Hs1 as (Hc2 & Hr2 & Hd).
  split; [congruence|]. split; [congruence|]. split; [exact Hd|].
  destruct (bool_decide (req_quickMode req = Some "true")); [left | right]; exact H.
Qed.

(** The same, with the state in which the mode starts. *)
Lemma uploadVideo_dirs (now : N) (req : Request) (s s' : state) (r : response) :
  uploadVideo exec random now req s = (Some r, s') →
  r ≠ BadRequest → r ≠ ServerError →
  ∃ videoPath,
    req_file req = Some videoPath ∧
    (if bool_decide (req_quickMode req = Some "true")
     then quick_mode exec videoPath (outputDir_of now)
     else smart_mode exec random videoPath (outputDir_of now))
      {| fs := dirs_made now (fs s); rng := rng s; console := console s |} =
    (Some r, s').
Proof.
  unfold uploadVideo. rewrite try_catch_run. intros H Hbad Herr.
  destruct (req_file req) as [videoPath|] eqn:Efile.
  2:{ rewrite ret_run in H. congruence. }
  match type of H with
  | match ?body s with _ => _ end = _ => destruct (body s) as [[r0|] s0] eqn:Ebody
  end.
  2:{ rewrite bind_run, log_run, ret_run in H. congruence. }
  injection H as -> ->.
  apply bind_Some in Ebody as (present & sa & Ha & H).
  unfold existsSync in Ha. injection Ha as <- <-.
  apply bind_Some in H as ([] & sb & Hb & H).
  apply bind_Some in H as ([] & s1 & H1 & H).
  exists videoPath. split; [reflexivity|].
  unfold dirs_made.
  set (F := if bool_decide (fs s !! "frames" ≠ None) then fs s
            else <["frames" := Dir]> (fs s)).
  assert (Hsb : sb = {| fs := F; rng := rng s; console := console s |}).
  { unfold F. destruct (bool_decide (fs s !! "frames" ≠ None)).
    - rewrite ret_run in Hb. injection Hb as <-. symmetry. apply state_eta.
    - unfold mkdirSync in Hb.
      destruct (fs s !! "frames"); [discriminate|].
      simpl in Hb. injection Hb as <-. reflexivity. }
  assert (Hs1 : s1 = {| fs := <[outputDir_of now := Dir]> F; rng := rng s;
                        console := console s |}).
  { unfold mkdirSync in H1. rewrite Hsb in H1. cbn [fs rng console] in H1.
    destruct (F !! outputDir_of now); [discriminate|].
    destruct ((split_path (outputDir_of now)).1) as [d|].
    - destruct (F !! d) as [[|]|]; try discriminate.
      injection H1 as <-. reflexivity.
    - injection H1 as <-. reflexivity. }
  rewrite <- Hs1.
  destruct (bool_decide (req_quickMode req = Some "true")); exact H.
Qed.

Lemma uploadVideo_total (now : N) (req : Request) (s : state) :
  ∃ r s', uploadVideo exec random now req s = (Some r, s').
Proof.
  unfold uploadVideo. rewrite try_catch_run.
  match goal with
  | |- ∃ _ _, match ?body s with _ => _ end = _ => destruct (body s) as [[r0|] s0]
  end; eauto.
Qed.

End HandlerFacts.

(** ** Frame sampler: the cap and the selection flag *)

Section SamplerClaims.

Import Pipeline.

Lemma exec_ok_never_fails (audio cursor : list line) (quick : list string) :
  never_fails (Examples.exec_ok audio cursor quick).
Proof. intros c f. destruct c; reflexivity. Qed.

(** C4.  In smart mode the sampler runs over the candidate events
    sorted by timestamp and stops after 20 of them.  For every list of
    candidates it returns normally with at most 20 descriptors, each the
    descriptor of one of the first 20 sorted events, in order; every one
    of these 20 events is at least as early as every event left out.
    When no extraction fails the descriptors are exactly those of the
    first 20 sorted events, so more than 20 candidates give exactly 20
    descriptors, and nothing is logged for the events left out.  The
    same bound holds for the response of the route. *)
Theorem sampler_cap_twenty :
  (∀ (exec : command → gmap string node → bool * gmap string node)
     (videoPath outputDir : string) (candidates : list Event) (s : state),
    ∃ (frameData : list FrameData) (s' : state),
      extract_frames exec videoPath outputDir (sort_events candidates) s =
        (Some frameData, s') ∧
      length frameData ≤ 20 ∧
      frameData `sublist_of` frames_from outputDir 0 (take 20 (sort_events candidates)) ∧
      sort_events candidates ≡ₚ candidates ∧
      (∀ e e', e ∈ take 20 (sort_events candidates) →
               e' ∈ drop 20 (sort_events candidates) →
               (ev_timestamp e <= ev_timestamp e')%Q) ∧
      (never_fails exec →
       frameData = frames_from outputDir 0 (take 20 (sort_events candidates)) ∧
       console s' = console s ∧
       (20 < length candidates → length frameData = 20))) ∧
  (∀ (exec : command → gmap string node → bool * gmap string node)
     (random : nat → Q) (now : N) (req : Request) (s s' : state)
     (frames : list string) (frameAnalysis : list FrameData) (n m : nat),
    uploadVideo exec random now req s = (Some (SmartOk frames frameAnalysis n m), s') →
    length frameAnalysis ≤ 20 ∧ length frames ≤ 20).
Proof.
  split.
  - intros exec videoPath outputDir candidates s.
    destruct (extract_frames_run exec videoPath outputDir (sort_events candidates) s)
      as (frameData & s' & Hrun & Hsub & _ & Hok).
    exists frameData, s'. split; [exact Hrun|].
    split.
    { apply sublist_length in Hsub.
      rewrite frames_from_length, length_take in Hsub. lia. }
    split; [exact Hsub|]. split; [apply sort_events_perm|].
    split; [apply sort_events_take_earliest|].
    intros Hnf. destruct (Hok Hnf) as [-> Hc].
    split; [reflexivity|]. split; [exact Hc|].
    intros Hlen. rewrite frames_from_length, length_take, sort_events_length. lia.
  - intros exec random now req s s' frames fa n m Hrun.
    apply uploadVideo_inv in Hrun as (videoPath & s1 & _ & _ & _ & _ & Hmode);
      [|discriminate..].
    destruct Hmode as [Hq|Hs].
    + apply quick_mode_inv in Hq as (? & ? & ? & _ & _ & _ & Hr). discriminate.
    + apply smart_mode_inv in Hs
        as (? & ? & ? & ? & ? & events & s4 & fd & s5 & _ & _ & _ & _ & Hex & _ & Hr).
      injection Hr as -> -> _ _.
      destruct (extract_frames_run exec videoPath (outputDir_of now) events s4)
        as (fd' & s5' & Hrun' & Hsub & _).
      rewrite Hex in Hrun'. injection Hrun' as <- <-.
      apply sublist_length in Hsub.
      rewrite frames_from_length, length_take in Hsub.
      rewrite length_map. lia.
Qed.

(** 35 candidates and no extraction failure: exactly the 20 earliest
    are sampled, and the route answers with 20 descriptors. *)
Lemma sampler_cap_twenty_example :
  (∃ (frameData : list FrameData) (s' : state),
      extract_frames (Examples.exec_ok [] [] []) "uploads/v1" "frames/7"
        (sort_events Examples.candidates_35) Examples.uploaded = (Some frameData, s') ∧
      frameData = frames_from "frames/7" 0 (take 20 (sort_events Examples.candidates_35)) ∧
      length frameData = 20 ∧
      console s' = []) ∧
  length Examples.candidates_35 = 35 ∧
  map ev_timestamp (take 20 (sort_events Examples.candidates_35)) =
    map Num.of_nat (seq 1 20) ∧
  length Examples.crowded_frames = 20 ∧
  map fd_timestamp Examples.crowded_frames = map Num.of_nat (seq 1 20).
Proof.
  split; [|repeat split; vm_compute; reflexivity].
  destruct (proj1 sampler_cap_twenty (Examples.exec_ok [] [] []) "uploads/v1" "frames/7"
              Examples.candidates_35 Examples.uploaded)
    as (frameData & s' & Hrun & _ & _ & _ & _ & Hok).
  destruct (Hok (exec_ok_never_fails [] [] [])) as (Hfd & Hc & Hlen).
  exists frameData, s'. split; [exact Hrun|]. split; [exact Hfd|].
  split; [apply Hlen; vm_compute; lia | exact Hc].
Defined.

(** C5.  Every descriptor of a smart-mode response is the descriptor of
    a candidate event and is selected exactly when that event is of type
    click or has a confidence strictly above 0.8; every descriptor of a
    quick-mode response is selected. *)
Theorem selected_flag :
  (∀ (exec : command → gmap string node → bool * gmap string node)
     (random : nat → Q) (now : N) (req : Request) (s s' : state)
     (frames : list string) (frameAnalysis : list FrameData) (n m : nat),
    uploadVideo exec random now req s = (Some (SmartOk frames frameAnalysis n m), s') →
    ∀ fd, fd ∈ frameAnalysis →
      ∃ (i : nat) (event : Event),
        fd = smart_frame (outputDir_of now) event i ∧
        fd_type fd = ev_type event ∧
        cd_confidence (fd_clickData fd) = ev_confidence event ∧
        (fd_selected fd = true ↔
         ev_type event = "click" ∨ (0.8 < ev_confidence event)%Q)) ∧
  (∀ (exec : command → gmap string node → bool * gmap string node)
     (random : nat → Q) (now : N) (req : Request) (s s' : state)
     (frames : list string) (frameAnalysis : list FrameData),
    uploadVideo exec random now req s = (Some (QuickOk frames frameAnalysis), s') →
    ∀ fd, fd ∈ frameAnalysis → fd_selected fd = true).
Proof.
  split.
  - intros exec random now req s s' frames fa n m Hrun fd Hin.
    apply uploadVideo_inv in Hrun as (videoPath & s1 & _ & _ & _ & _ & Hmode);
      [|discriminate..].
    destruct Hmode as [Hq|Hs].
    { apply quick_mode_inv in Hq as (? & ? & ? & _ & _ & _ & Hr). discriminate. }
    apply smart_mode_inv in Hs
      as (? & ? & ? & ? & ? & events & s4 & fa' & s5 & _ & _ & _ & _ & Hex & _ & Hr).
    injection Hr as _ -> _ _.
    destruct (extract_frames_elem exec videoPath (outputDir_of now) events s4 s5 fa' fd
                Hex Hin) as (i & event & _ & _ & ->).
    exists i, event. split; [reflexivity|]. split; [reflexivity|].
    split; [reflexivity|]. cbn [fd_selected smart_frame].
    rewrite orb_true_iff, String.eqb_eq, gtb_lt. reflexivity.
  - intros exec random now req s s' frames fa Hrun fd Hin.
    apply uploadVideo_inv in Hrun as (videoPath & s1 & _ & _ & _ & _ & Hmode);
      [|discriminate..].
    destruct Hmode as [Hq|Hs].
    2:{ apply smart_mode_inv in Hs
          as (? & ? & ? & ? & ? & ? & ? & ? & ? & _ & _ & _ & _ & _ & _ & Hr).
        discriminate. }
    apply quick_mode_inv in Hq as (names & ? & ? & _ & _ & _ & Hr).
    injection Hr as _ ->.
    unfold quick_files in Hin.
    apply list_elem_of_lookup in Hin as [i Hi].
    rewrite list_lookup_imap in Hi.
    destruct (sort_names _ !! i); [|discriminate].
    injection Hi as <-. reflexivity.
Qed.

(** The flag on the descriptors of two concrete runs: a click event of
    confidence 0.5 is selected, a speech event of confidence 0.7 is
    not, a quick-mode frame is. *)
Lemma selected_flag_example :
  (∃ (i : nat) (event : Event),
      ev_type event = "click" ∧ ev_confidence event = 0.5%Q ∧
      smart_frame "frames/7" event i ∈ Examples.smart_frames ∧
      fd_selected (smart_frame "frames/7" event i) = true) ∧
  (∃ (i : nat) (event : Event),
      ev_type event = "speech" ∧ ev_confidence event = 0.7%Q ∧
      smart_frame "frames/7" event i ∈ Examples.smart_frames ∧
      fd_selected (smart_frame "frames/7" event i) = false) ∧
  Forall (λ fd, fd_selected fd = true) Examples.quick_frames ∧
  length Examples.quick_frames = 2.
Proof.
  assert (Hsmart :
    uploadVideo
      (Examples.exec_ok Examples.audio_5_6_20
         [showinfo_line 3 0.5; showinfo_line 7 0.3] [])
      Examples.random10 7 Examples.smart_request Examples.uploaded =
    (Some (SmartOk (map fd_url Examples.smart_frames) Examples.smart_frames 2 1),
     Examples.smart_run.2)) by (vm_compute; reflexivity).
  assert (Hquick :
    uploadVideo (Examples.exec_ok [] [] ["quick_002.png"; "quick_001.png"])
      Examples.random10 7 Examples.quick_request Examples.uploaded =
    (Some (QuickOk (map fd_url Examples.quick_frames) Examples.quick_frames),
     Examples.quick_run.2)) by (vm_compute; reflexivity).
  pose proof (proj1 selected_flag _ _ _ _ _ _ _ _ _ _ Hsmart) as Hs.
  pose proof (proj2 selected_flag _ _ _ _ _ _ _ _ Hquick) as Hq.
  change (outputDir_of 7) with "frames/7" in Hs.
  split; [|split; [|split]].
  - assert (Hin : Examples.smart_frames !! 1 = Some
              (smart_frame "frames/7"
                 (click_event (click_candidate 3 0.5 (0 # 10) (1 # 10))) 1))
      by (vm_compute; reflexivity).
    apply list_elem_of_lookup_2 in Hin.
    destruct (Hs _ Hin) as (i & event & Hfd & Htype & Hconf & Hsel).
    exists i, event. rewrite <- Htype, <- Hconf, <- Hfd.
    split; [reflexivity|]. split; [reflexivity|]. split; [exact Hin|].
    apply Hsel. left. rewrite <- Htype. reflexivity.
  - assert (Hin : Examples.smart_frames !! 0 = Some
              (smart_frame "frames/7"
                 (speech_event {| seg_start := 0; seg_end := 5 |} (2 # 10) (3 # 10)) 0))
      by (vm_compute; reflexivity).
    apply list_elem_of_lookup_2 in Hin.
    destruct (Hs _ Hin) as (i & event & Hfd & Htype & Hconf & Hsel).
    exists i, event. rewrite <- Htype, <- Hconf, <- Hfd.
    split; [reflexivity|]. split; [reflexivity|]. split; [exact Hin|].
    reflexivity.
  - apply Forall_forall. exact Hq.
  - vm_compute. reflexivity.
Defined.

End SamplerClaims.

(** ** What the handler removes *)

Section KeepFacts.

Import Pipeline.

Variable exec : command → gmap string node → bool * gmap string node.
Variable random : nat → Q.
Variable p : string.

Lemma keeps_ret {A} (a : A) : keeps p (mret a : M A).
Proof. intros s r s' H _. rewrite ret_run in H. congruence. Qed.

Lemma keeps_throw {A} : keeps p (throw : M A).
Proof. intros s r s' H _. unfold throw in H. congruence. Qed.

Lemma keeps_bind {A B} (m : M A) (f : A → M B) :
  keeps p m → (∀ a, keeps p (f a)) → keeps p (m ≫= f).
Proof.
  intros Hm Hf s r s' H Hp. rewrite bind_run in H.
  destruct (m s) as [[a|] s1] eqn:E.
  - pose proof (Hm _ _ _ E Hp) as H1.
    rewrite <- H1 in Hp |- *. exact (Hf a _ _ _ H Hp).
  - injection H as <- <-. exact (Hm _ _ _ E Hp).
Qed.

Lemma keeps_try_catch {A} (body handler : M A) :
  keeps p body → keeps p handler → keeps p (try_catch body handler).
Proof.
  intros Hb Hh s r s' H Hp. rewrite try_catch_run in H.
  destruct (body s) as [[a|] s1] eqn:E.
  - injection H as <- <-. exact (Hb _ _ _ E Hp).
  - pose proof (Hb _ _ _ E Hp) as H1.
    rewrite <- H1 in Hp |- *. exact (Hh _ _ _ H Hp).
Qed.

Lemma keeps_log (m : log_msg) : keeps p (log m).
Proof. intros s r s' H _. rewrite log_run in H. injection H as <- <-. reflexivity. Qed.

Lemma keeps_existsSync (q : string) : keeps p (existsSync q).
Proof. intros s r s' H _. unfold existsSync in H. congruence. Qed.

Lemma keeps_readFileSync (q : string) : keeps p (readFileSync q).
Proof.
  intros s r s' H _. unfold readFileSync in H.
  destruct (fs s !! q) as [[|]|]; congruence.
Qed.

Lemma keeps_readdirSync (q : string) : keeps p (readdirSync q).
Proof.
  intros s r s' H _. unfold readdirSync in H.
  destruct (fs s !! q) as [[|]|]; congruence.
Qed.

Lemma keeps_mathRandom : keeps p (mathRandom random).
Proof. intros s r s' H _. unfold mathRandom in H. injection H as <- <-. reflexivity. Qed.

(** A directory is only created where nothing exists. *)
Lemma keeps_mkdirSync (q : string) : keeps p (mkdirSync q).
Proof.
  intros s r s' H Hp. unfold mkdirSync in H.
  destruct (fs s !! q) eqn:Eq; [congruence|].
  assert (Hne : q ≠ p) by (intros ->; rewrite Eq in Hp; destruct Hp; discriminate).
  destruct ((split_path q).1) as [d|].
  - destruct (fs s !! d) as [[|]|]; try congruence.
    injection H as <- <-. simpl. apply lookup_insert_ne, Hne.
  - injection H as <- <-. simpl. apply lookup_insert_ne, Hne.
Qed.

Lemma keeps_unlinkSync (q : string) : q ≠ p → keeps p (unlinkSync q).
Proof.
  intros Hne s r s' H _. unfold unlinkSync in H.
  destruct (fs s !! q) as [[|]|]; try congruence.
  injection H as <- <-. simpl. apply lookup_delete_ne, Hne.
Qed.

Lemma keeps_cursor_loop (lines : list line) :
  ∀ acc, keeps p (cursor_loop random lines acc).
Proof.
  induction lines as [|l rest IH]; intros acc; cbn [cursor_loop].
  - apply keeps_ret.
  - destruct (match_pts_time l), (match_scene l); try apply IH.
    destruct (Num.gtb _ _); [|apply IH].
    apply keeps_bind; [apply keeps_mathRandom|]. intros rx.
    apply keeps_bind; [apply keeps_mathRandom|]. intros ry. apply IH.
Qed.

Lemma keeps_speech_events (segments : list segment) :
  keeps p (speech_events random segments).
Proof.
  induction segments as [|g rest IH]; cbn [speech_events].
  - apply keeps_ret.
  - apply keeps_bind; [apply keeps_mathRandom|]. intros rx.
    apply keeps_bind; [apply keeps_mathRandom|]. intros ry.
    apply keeps_bind; [apply IH|]. intros events. apply keeps_ret.
Qed.

Lemma keeps_read_speech_segments (outputDir : string) :
  keeps p (read_speech_segments outputDir).
Proof.
  apply keeps_try_catch.
  - apply keeps_bind; [apply keeps_readFileSync|]. intros lines. apply keeps_ret.
  - apply keeps_bind; [apply keeps_log|]. intros _. apply keeps_ret.
Qed.

Lemma keeps_read_click_events (outputDir : string) :
  keeps p (read_click_events random outputDir).
Proof.
  apply keeps_try_catch.
  - apply keeps_bind; [apply keeps_readFileSync|]. intros lines.
    apply keeps_bind; [apply keeps_cursor_loop|]. intros clicks.
    apply keeps_bind; [apply keeps_log|]. intros _. apply keeps_ret.
  - apply keeps_bind; [apply keeps_log|]. intros _. apply keeps_ret.
Qed.

Lemma keeps_combined_events (segments : list segment) (clicks : list ClickEvent) :
  keeps p (combined_events random segments clicks).
Proof.
  apply keeps_bind; [apply keeps_speech_events|]. intros speech. apply keeps_ret.
Qed.

End KeepFacts.

Section RemovalFacts.

Import Pipeline.

Variable exec : command → gmap string node → bool * gmap string node.
Variable random : nat → Q.
Variable p : string.

Lemma keeps_survives {A} (m : M A) : keeps p m → survives p m.
Proof. intros H s r s' Hrun Hp. rewrite (H s r s' Hrun Hp). exact Hp. Qed.

Lemma survives_bind {A B} (m : M A) (f : A → M B) :
  survives p m → (∀ a, survives p (f a)) → survives p (m ≫= f).
Proof.
  intros Hm Hf s r s' H Hp. rewrite bind_run in H.
  destruct (m s) as [[a|] s1] eqn:E.
  - exact (Hf a _ _ _ H (Hm _ _ _ E Hp)).
  - injection H as <- <-. exact (Hm _ _ _ E Hp).
Qed.

Lemma survives_try_catch {A} (body handler : M A) :
  survives p body → survives p handler → survives p (try_catch body handler).
Proof.
  intros Hb Hh s r s' H Hp. rewrite try_catch_run in H.
  destruct (body s) as [[a|] s1] eqn:E.
  - injection H as <- <-. exact (Hb _ _ _ E Hp).
  - exact (Hh _ _ _ H (Hb _ _ _ E Hp)).
Qed.

Lemma survives_failing_bind {A B} (m : M A) (f : A → M B) :
  survives p m → (∀ a, survives_failing p (f a)) → survives_failing p (m ≫= f).
Proof.
  intros Hm Hf s s' H Hp. rewrite bind_run in H.
  destruct (m s) as [[a|] s1] eqn:E.
  - exact (Hf a _ _ H (Hm _ _ _ E Hp)).
  - injection H as <-. exact (Hm _ _ _ E Hp).
Qed.

(** The removal at the end of a mode: when it throws, nothing is
    removed. *)
Lemma survives_failing_unlink {A} (q : string) (r : A) :
  survives_failing p (unlinkSync q;; mret r).
Proof.
  intros s s' H Hp. rewrite bind_run in H. unfold unlinkSync in H.
  destruct (fs s !! q) as [[|content]|].
  - injection H as <-. exact Hp.
  - rewrite ret_run in H. discriminate.
  - injection H as <-. exact Hp.
Qed.

Hypothesis exec_never_removes : never_removes exec.

Lemma survives_execAsync (c : command) : survives p (execAsync exec c).
Proof.
  intros s r s' H Hp. unfold execAsync in H.
  pose proof (exec_never_removes c (fs s) p Hp) as Hn.
  destruct (exec c (fs s)) as [ok f']. injection H as <- <-. exact Hn.
Qed.

Lemma survives_analysis (videoPath outputDir : string) :
  survives p (try_catch
                (execAsync exec (CmdAudio videoPath outputDir);;
                 execAsync exec (CmdCursor videoPath outputDir))
                (log LogAnalysisCompleted)).
Proof.
  apply survives_try_catch; [|apply keeps_survives, keeps_log].
  apply survives_bind; [apply survives_execAsync|]. intros _. apply survives_execAsync.
Qed.

Lemma survives_extract_loop (videoPath outputDir : string) (events : list Event) :
  ∀ i acc, survives p (extract_loop exec videoPath outputDir i events acc).
Proof.
  induction events as [|e rest IH]; intros i acc; cbn [extract_loop].
  - apply keeps_survives, keeps_ret.
  - apply survives_bind; [|intros fd; apply IH].
    apply survives_try_catch.
    + apply survives_bind; [apply survives_execAsync|]. intros _.
      apply keeps_survives, keeps_ret.
    + apply survives_bind; [apply keeps_survives, keeps_log|]. intros _.
      apply keeps_survives, keeps_ret.
Qed.

Lemma survives_failing_quick_mode (videoPath outputDir : string) :
  survives_failing p (quick_mode exec videoPath outputDir).
Proof.
  unfold quick_mode.
  apply survives_failing_bind; [apply keeps_survives, keeps_log|]. intros _.
  apply survives_failing_bind; [apply survives_execAsync|]. intros _.
  apply survives_failing_bind; [apply keeps_survives, keeps_readdirSync|]. intros names.
  apply survives_failing_unlink.
Qed.

Lemma survives_failing_smart_mode (videoPath outputDir : string) :
  survives_failing p (smart_mode exec random videoPath outputDir).
Proof.
  unfold smart_mode.
  apply survives_failing_bind; [apply keeps_survives, keeps_log|]. intros _.
  apply survives_failing_bind; [apply survives_analysis|]. intros _.
  apply survives_failing_bind; [apply keeps_survives, keeps_read_speech_segments|].
  intros segments.
  apply survives_failing_bind; [apply keeps_survives, keeps_read_click_events|].
  intros clicks.
  apply survives_failing_bind; [apply keeps_survives, keeps_log|]. intros _.
  apply survives_failing_bind; [apply keeps_survives, keeps_log|]. intros _.
  apply survives_failing_bind; [apply keeps_survives, keeps_combined_events|].
  intros events.
  apply survives_failing_bind; [apply survives_extract_loop|]. intros frameData.
  apply survives_failing_unlink.
Qed.

(** What the first commands of a mode find, they leave. *)
Lemma first_commands_keeps (quickMode : bool) (videoPath outputDir : string)
    (f : gmap string node) :
  is_Some (f !! p) → is_Some (first_commands exec quickMode videoPath outputDir f !! p).
Proof.
  intros Hp. unfold first_commands. destruct quickMode.
  - apply exec_never_removes, Hp.
  - pose proof (exec_never_removes (CmdAudio videoPath outputDir) f p Hp) as H1.
    destruct (exec (CmdAudio videoPath outputDir) f) as [ok f1]. cbn [snd] in H1.
    destruct ok; [|exact H1]. apply exec_never_removes, H1.
Qed.

End RemovalFacts.

Section NameFacts.

Import Pipeline.

Lemma insert_name_perm (f : string) (l : list string) : insert_name f l ≡ₚ f :: l.
Proof.
  induction l as [|h t IH]; [reflexivity|]. simpl.
  destruct (String.leb f h); [reflexivity|].
  rewrite IH. apply Permutation_swap.
Qed.

Lemma sort_names_perm (l : list string) : sort_names l ≡ₚ l.
Proof.
  induction l as [|f l IH]; [reflexivity|].
  unfold sort_names in *. simpl. rewrite insert_name_perm, IH. reflexivity.
Qed.

Lemma quick_files_elem (outputDir : string) (names : list string) (fd : FrameData) :
  fd ∈ quick_files outputDir names → fd_filename fd ∈ names.
Proof.
  unfold quick_files. intros Hfd.
  apply elem_of_lookup_imap in Hfd as (i & file & -> & Hi).
  apply list_elem_of_lookup_2 in Hi.
  rewrite (sort_names_perm
             (List.filter (λ file, startsWith file "quick_" && endsWith file ".png")
                names)) in Hi.
  apply list_elem_of_In, List.filter_In in Hi as [Hi _].
  apply list_elem_of_In. exact Hi.
Qed.

Lemma split_path_None (q b : string) : split_path q = (None, b) → b = q.
Proof.
  revert b. induction q as [|c r IH]; intros b; cbn [split_path].
  - intros [= <-]. reflexivity.
  - destruct (split_path r) as [[d|] b'] eqn:E; [discriminate|].
    destruct (Ascii.eqb c "/"%char); [discriminate|].
    intros [= <-]. rewrite (IH b' eq_refl). reflexivity.
Qed.

(** A path is its directory, a slash and its base name. *)
Lemma split_path_join (q d b : string) :
  split_path q = (Some d, b) → q = d +:+ "/" +:+ b.
Proof.
  revert d. induction q as [|c r IH]; intros d; cbn [split_path]; [discriminate|].
  destruct (split_path r) as [[d'|] b'] eqn:E.
  - intros [= <- <-]. rewrite (IH d' eq_refl). reflexivity.
  - destruct (Ascii.eqb_spec c "/"%char) as [->|_]; [|discriminate].
    intros [= <- <-]. rewrite (split_path_None r b' E). reflexivity.
Qed.

(** The names that [readdirSync] lists are those of entries of the
    directory. *)
Lemma readdirSync_elem (d : string) (s s' : state) (names : list string)
    (name : string) :
  readdirSync d s = (Some names, s') → name ∈ names →
  s' = s ∧ is_Some (fs s !! (d +:+ "/" +:+ name)).
Proof.
  unfold readdirSync. destruct (fs s !! d) as [[|]|]; try discriminate.
  intros [= <- <-] Hin. split; [reflexivity|].
  apply list_elem_of_omap in Hin as (q & Hq & Hsplit).
  destruct (split_path q) as [[d'|] b] eqn:E; [|discriminate].
  destruct (String.eqb_spec d' d) as [->|]; [|discriminate].
  injection Hsplit as <-.
  apply split_path_join in E. rewrite <- E.
  apply elem_of_elements, elem_of_dom in Hq. exact Hq.
Qed.

End NameFacts.

Section CleanupClaim.

Import Pipeline.

Lemma unlinkSync_inv (q : string) (s s' : state) :
  unlinkSync q s = (Some (), s') →
  (∃ content, fs s !! q = Some (File content)) ∧ fs s' = delete q (fs s).
Proof.
  unfold unlinkSync. destruct (fs s !! q) as [[|content]|]; try discriminate.
  intros H. injection H as <-. eauto.
Qed.

Lemma analysis_fs
    (exec : command → gmap string node → bool * gmap string node)
    (videoPath outputDir : string) (s s' : state) (r : option unit) :
  try_catch
    (execAsync exec (CmdAudio videoPath outputDir);;
     execAsync exec (CmdCursor videoPath outputDir))
    (log LogAnalysisCompleted) s = (r, s') →
  fs s' = first_commands exec false videoPath outputDir (fs s).
Proof.
  rewrite try_catch_run, bind_run. unfold execAsync, first_commands.
  destruct (exec (CmdAudio videoPath outputDir) (fs s)) as [ok f1].
  destruct ok; cbn [fs].
  - destruct (exec (CmdCursor videoPath outputDir) f1) as [ok2 f2]. destruct ok2.
    + intros [= _ <-]. reflexivity.
    + rewrite log_run. intros [= _ <-]. reflexivity.
  - rewrite log_run. intros [= _ <-]. reflexivity.
Qed.

Lemma quick_command_fs
    (exec : command → gmap string node → bool * gmap string node)
    (videoPath outputDir : string) (s s' : state) :
  execAsync exec (CmdQuick videoPath outputDir) s = (Some (), s') →
  fs s' = first_commands exec true videoPath outputDir (fs s).
Proof.
  unfold execAsync, first_commands.
  destruct (exec (CmdQuick videoPath outputDir) (fs s)) as [ok f1].
  destruct ok; [|discriminate]. intros [= <-]. reflexivity.
Qed.

(** The images of the descriptors that the loop keeps are on disk when
    it ends, and so is everything that was there when it started. *)
Lemma extract_loop_files
    (exec : command → gmap string node → bool * gmap string node)
    (videoPath outputDir : string) (events : list Event) :
  never_removes exec →
  ∀ (i : nat) (acc : list FrameData) (s s' : state) (frameData : list FrameData),
    extract_loop exec videoPath outputDir i events acc s = (Some frameData, s') →
    (∀ q, is_Some (fs s !! q) → is_Some (fs s' !! q)) ∧
    (writes_target exec →
     (∀ fd, fd ∈ acc → is_Some (fs s !! frame_path outputDir fd)) →
     ∀ fd, fd ∈ frameData → is_Some (fs s' !! frame_path outputDir fd)).
Proof.
  intros Hnr. induction events as [|e rest IH]; intros i acc s s' frameData.
  - cbn [extract_loop]. rewrite ret_run. intros [= <- <-]. auto.
  - cbn [extract_loop]. rewrite bind_run, try_catch_run, bind_run. unfold execAsync.
    pose proof (Hnr (CmdExtract videoPath (ev_timestamp e)
                       (outputDir +:+ "/" +:+ smart_filename e i)) (fs s)) as Hkeep.
    destruct (exec (CmdExtract videoPath (ev_timestamp e)
                      (outputDir +:+ "/" +:+ smart_filename e i)) (fs s))
      as [ok f'] eqn:E.
    cbn [snd] in Hkeep. destruct ok.
    + rewrite ret_run. intros Hrun.
      destruct (IH _ _ _ _ _ Hrun) as [Hall Hfiles]. cbn [fs] in Hall, Hfiles.
      split; [intros q Hq; apply Hall, Hkeep, Hq|].
      intros Hwt Hacc. apply (Hfiles Hwt).
      intros fd Hfd. apply elem_of_app in Hfd as [Hfd|Hfd].
      * apply Hkeep, Hacc, Hfd.
      * apply list_elem_of_singleton in Hfd. subst fd.
        pose proof (Hwt videoPath (ev_timestamp e)
                      (outputDir +:+ "/" +:+ smart_filename e i) (fs s)) as Hw.
        rewrite E in Hw. exact (Hw eq_refl).
    + rewrite bind_run, log_run, ret_run. intros Hrun.
      destruct (IH _ _ _ _ _ Hrun) as [Hall Hfiles]. cbn [fs] in Hall, Hfiles.
      split; [intros q Hq; apply Hall, Hkeep, Hq|].
      intros Hwt Hacc. apply (Hfiles Hwt).
      intros fd Hfd. apply Hkeep, Hacc, Hfd.
Qed.

(** The state in which a successful mode removes the upload. *)
Lemma mode_before_unlink
    (exec : command → gmap string node → bool * gmap string node) (random : nat → Q)
    (quickMode : bool) (videoPath outputDir : string) (s s' : state) (r : response) :
  (if quickMode then quick_mode exec videoPath outputDir
   else smart_mode exec random videoPath outputDir) s = (Some r, s') →
  ∃ s2, unlinkSync videoPath s2 = (Some (), s') ∧
        (never_removes exec →
         (∀ q, is_Some (first_commands exec quickMode videoPath outputDir (fs s) !! q) →
               is_Some (fs s2 !! q)) ∧
         (writes_target exec →
          ∀ fd, fd ∈ frameAnalysis_of r → is_Some (fs s2 !! frame_path outputDir fd))).
Proof.
  destruct quickMode; intros Hmode.
  - apply quick_mode_inv in Hmode as (names & s1 & s2 & Hex & Hrd & Hun & ->).
    exists s2. split; [exact Hun|]. intros _.
    apply quick_command_fs in Hex. cbn [fs] in Hex.
    assert (Hsame : s2 = s1).
    { unfold readdirSync in Hrd. destruct (fs s1 !! outputDir) as [[|]|];
        try discriminate. injection Hrd as _ <-. reflexivity. }
    subst s2. split; [intros q Hq; rewrite Hex; exact Hq|].
    intros _ fd Hfd. cbn [frameAnalysis_of] in Hfd.
    apply quick_files_elem in Hfd.
    destruct (readdirSync_elem _ _ _ _ _ Hrd Hfd) as [_ Hfile]. exact Hfile.
  - apply smart_mode_inv in Hmode
      as (s1 & segments & s2 & clicks & s3 & events & s4 & frameData & s5 &
          Han & Hsp & Hcl & Hco & Hex & Hun & ->).
    exists s5. split; [exact Hun|]. intros Hnr.
    apply analysis_fs in Han. cbn [fs] in Han.
    destruct (extract_loop_files exec videoPath outputDir _ Hnr _ _ _ _ _ Hex)
      as [Hall Hfiles].
    split.
    + intros q Hq. rewrite <- Han in Hq. apply Hall.
      apply (keeps_survives q _ (keeps_combined_events random q segments clicks)
               _ _ _ Hco).
      cbn [fs].
      apply (keeps_survives q _ (keeps_read_click_events random q outputDir)
               _ _ _ Hcl).
      apply (keeps_survives q _ (keeps_read_speech_segments q outputDir) _ _ _ Hsp).
      exact Hq.
    + intros Hwt fd Hfd. cbn [frameAnalysis_of] in Hfd.
      apply (Hfiles Hwt); [|exact Hfd]. intros fd' Hfd'. inversion Hfd'.
Qed.

Lemma dirs_made_keeps (now : N) (f : gmap string node) (q : string) :
  is_Some (f !! q) → is_Some (dirs_made now f !! q).
Proof.
  intros Hq. unfold dirs_made. apply lookup_insert_is_Some'. right.
  destruct (bool_decide (f !! "frames" ≠ None)); [exact Hq|].
  apply lookup_insert_is_Some'. right. exact Hq.
Qed.

(** C9 (as amended).  On every successful run of the upload route, in
    quick or in smart mode, the uploaded source video has been removed
    when the response is sent.  The route removes nothing else.  Where
    the external commands remove no entry themselves, the following
    still exist when the response is sent, each unless its path is that
    of the upload: the working directory of the request; every entry
    that existed before the request; every entry that the first commands
    of the mode left (the quick extraction, or the two analysis commands
    with their logs); and, where a frame extraction that resolves has
    written its target, the image of every descriptor of the response,
    in the working directory. *)
Theorem upload_removed_on_success :
  ∀ (exec : command → gmap string node → bool * gmap string node)
    (random : nat → Q) (now : N) (req : Request) (s s' : state) (r : response),
    uploadVideo exec random now req s = (Some r, s') →
    r ≠ BadRequest → r ≠ ServerError →
    ∃ videoPath,
      req_file req = Some videoPath ∧
      fs s' !! videoPath = None ∧
      (never_removes exec →
       (outputDir_of now ≠ videoPath → is_Some (fs s' !! outputDir_of now)) ∧
       (∀ p, p ≠ videoPath → is_Some (fs s !! p) → is_Some (fs s' !! p)) ∧
       (∀ p, p ≠ videoPath →
             is_Some (first_commands exec (bool_decide (req_quickMode req = Some "true"))
                        videoPath (outputDir_of now) (dirs_made now (fs s)) !! p) →
             is_Some (fs s' !! p)) ∧
       (writes_target exec →
        ∀ fd, fd ∈ frameAnalysis_of r →
              frame_path (outputDir_of now) fd ≠ videoPath →
              is_Some (fs s' !! frame_path (outputDir_of now) fd))).
Proof.
  intros exec random now req s s' r Hrun Hbad Herr.
  destruct (uploadVideo_dirs exec random now req s s' r Hrun Hbad Herr)
    as (videoPath & Hfile & Hmode).
  exists videoPath. split; [exact Hfile|].
  assert (Hmode' :
    (if bool_decide (req_quickMode req = Some "true")
     then quick_mode exec videoPath (outputDir_of now)
     else smart_mode exec random videoPath (outputDir_of now))
      {| fs := dirs_made now (fs s); rng := rng s; console := console s |} =
    (Some r, s')).
  { destruct (bool_decide (req_quickMode req = Some "true")); exact Hmode. }
  destruct (mode_before_unlink exec random _ videoPath (outputDir_of now) _ s' r Hmode')
    as (s2 & Hun & Hkeep).
  cbn [fs] in Hkeep.
  apply unlinkSync_inv in Hun as [[content Hvid] Hfs].
  split; [rewrite Hfs; apply lookup_delete_eq|].
  intros Hnr. destruct (Hkeep Hnr) as [Hfirst Hframes].
  assert (Hleft : ∀ p, p ≠ videoPath →
            is_Some (first_commands exec (bool_decide (req_quickMode req = Some "true"))
                       videoPath (outputDir_of now) (dirs_made now (fs s)) !! p) →
            is_Some (fs s' !! p)).
  { intros p Hne Hp. rewrite Hfs, lookup_delete_ne by congruence.
    apply Hfirst, Hp. }
  split.
  { intros Hne. apply Hleft; [exact Hne|].
    apply first_commands_keeps; [exact Hnr|].
    unfold dirs_made. rewrite lookup_insert_eq. eauto. }
  split.
  { intros p Hne Hp. apply Hleft; [exact Hne|].
    apply first_commands_keeps; [exact Hnr|]. apply dirs_made_keeps, Hp. }
  split; [exact Hleft|].
  intros Hwt fd Hfd Hne. rewrite Hfs, lookup_delete_ne by congruence.
  apply (Hframes Hwt), Hfd.
Qed.

Lemma exec_ok_never_removes (audio cursor : list line) (quick : list string) :
  never_removes (Examples.exec_ok audio cursor quick).
Proof.
  intros c f p Hp. destruct c; cbn [Examples.exec_ok snd];
    try (apply lookup_insert_is_Some'; right; exact Hp).
  induction quick as [|name quick IH]; [exact Hp|]. cbn [foldr].
  apply lookup_insert_is_Some'. right. exact IH.
Qed.

Lemma exec_ok_writes_target (audio cursor : list line) (quick : list string) :
  writes_target (Examples.exec_ok audio cursor quick).
Proof.
  intros videoPath timestamp target f _. cbn [Examples.exec_ok snd].
  rewrite lookup_insert_eq. eauto.
Qed.

(** A successful smart-mode run beside an unrelated file, every command
    resolving and writing its files: the upload is gone; the working
    directory, the unrelated file, the two logs and the three images
    are there. *)
Lemma upload_removed_on_success_example :
  fs Examples.beside_run.2 !! "uploads/v1" = None ∧
  is_Some (fs Examples.beside_run.2 !! "frames/7") ∧
  is_Some (fs Examples.beside_run.2 !! "notes.txt") ∧
  is_Some (fs Examples.beside_run.2 !! "frames/7/audio_analysis.txt") ∧
  is_Some (fs Examples.beside_run.2 !! "frames/7/cursor_analysis.txt") ∧
  map fd_filename Examples.beside_frames =
    ["speech_000.png"; "click_001.png"; "speech_002.png"] ∧
  Forall (λ fd, is_Some (fs Examples.beside_run.2 !! frame_path "frames/7" fd))
    Examples.beside_frames.
Proof.
  assert (Hrun :
    uploadVideo
      (Examples.exec_ok Examples.audio_5_6_20
         [showinfo_line 3 0.5; showinfo_line 7 0.3] [])
      Examples.random10 7 Examples.smart_request Examples.uploaded_beside =
    (Some (SmartOk (map fd_url Examples.beside_frames) Examples.beside_frames 2 1),
     Examples.beside_run.2)) by (vm_compute; reflexivity).
  destruct (upload_removed_on_success _ _ _ _ _ _ _ Hrun)
    as (v & Hv & Hgone & Hkept); [discriminate..|].
  injection Hv as <-.
  destruct (Hkept (exec_ok_never_removes _ _ _)) as (Hdir & Hold & Hleft & Hframes).
  split; [exact Hgone|]. split.
  { apply Hdir. apply String.eqb_neq. reflexivity. }
  split.
  { apply Hold; [apply String.eqb_neq; reflexivity|]. vm_compute. eauto. }
  split.
  { apply Hleft; [apply String.eqb_neq; reflexivity|]. vm_compute. eauto. }
  split.
  { apply Hleft; [apply String.eqb_neq; reflexivity|]. vm_compute. eauto. }
  split; [vm_compute; reflexivity|].
  apply Forall_forall. intros fd Hfd.
  apply (Hframes (exec_ok_writes_target _ _ _)); [exact Hfd|].
  assert (Hnames : fd_filename fd ∈ ["speech_000.png"; "click_001.png"; "speech_002.png"]).
  { change ["speech_000.png"; "click_001.png"; "speech_002.png"]
      with (map fd_filename Examples.beside_frames).
    apply list_elem_of_fmap. exists fd. split; [reflexivity|exact Hfd]. }
  unfold frame_path.
  repeat (apply elem_of_cons in Hnames as [->|Hnames];
          [apply String.eqb_neq; reflexivity|]).
  inversion Hnames.
Defined.

(** C9 as stated fails on a successful run: the two analysis logs and
    the working directory remain after the response. *)
Lemma scratch_left_after_success :
  Examples.smart_run.1 =
    Some (SmartOk (map fd_url Examples.smart_frames) Examples.smart_frames 2 1) ∧
  fs Examples.smart_run.2 !! "uploads/v1" = None ∧
  fs Examples.smart_run.2 !! "frames/7" = Some Dir ∧
  fs Examples.smart_run.2 !! "frames/7/audio_analysis.txt" =
    Some (File Examples.audio_5_6_20) ∧
  fs Examples.smart_run.2 !! "frames/7/cursor_analysis.txt" =
    Some (File [showinfo_line 3 0.5; showinfo_line 7 0.3]) ∧
  ¬ Spec.scratch_removed "uploads/v1" "frames/7" (fs Examples.smart_run.2).
Proof.
  assert (Hlog : fs Examples.smart_run.2 !! "frames/7/audio_analysis.txt" =
                 Some (File Examples.audio_5_6_20)) by (vm_compute; reflexivity).
  split; [vm_compute; reflexivity|]. split; [vm_compute; reflexivity|].
  split; [vm_compute; reflexivity|]. split; [exact Hlog|].
  split; [vm_compute; reflexivity|].
  intros [_ Hdir].
  rewrite (Hdir "frames/7/audio_analysis.txt") in Hlog; [discriminate|].
  vm_compute. reflexivity.
Qed.

(** On the failure path the upload itself remains. *)
Lemma upload_left_after_failure :
  Examples.failed_run.1 = Some ServerError ∧
  fs Examples.failed_run.2 !! "uploads/v1" = Some (File []) ∧
  console Examples.failed_run.2 = [LogQuickMode; LogProcessingError].
Proof.
  split; [vm_compute; reflexivity|]. split; vm_compute; reflexivity.
Qed.

End CleanupClaim.

(** ** Test sessions *)

Section SessionFacts.

Import Session.

Lemma map_set_fresh {V} (k : Z) (v : V) (m : list (Z * V)) :
  (∀ k' v', (k', v') ∈ m → k' ≠ k) → map_set k v m = m ++ [(k, v)].
Proof.
  induction m as [|[k' v'] m IH]; intros Hfresh; [reflexivity|]. simpl.
  destruct (Z.eqb_spec k' k) as [->|_].
  - exfalso. exact (Hfresh k v' (list_elem_of_here _ _) eq_refl).
  - rewrite IH; [reflexivity|].
    intros k'' v'' Hin. apply (Hfresh k'' v''). apply list_elem_of_further, Hin.
Qed.

Lemma find_none_iff {A} (f : A → bool) (l : list A) :
  List.find f l = None ↔ ∀ x, x ∈ l → f x = false.
Proof.
  induction l as [|a l IH]; simpl.
  - split; [|reflexivity]. intros _ x Hx. inversion Hx.
  - destruct (f a) eqn:E.
    + split; [discriminate|]. intros H.
      rewrite (H a (list_elem_of_here _ _)) in E. discriminate.
    + rewrite IH. split.
      * intros H x Hx. apply elem_of_cons in Hx as [->|Hx]; auto.
      * intros H x Hx. apply H, list_elem_of_further, Hx.
Qed.

Lemma find_some_elem {A} (f : A → bool) (l : list A) (x : A) :
  List.find f l = Some x → x ∈ l ∧ f x = true.
Proof.
  intros H. apply List.find_some in H as [Hin Hf].
  split; [apply list_elem_of_In, Hin | exact Hf].
Qed.

Lemma useSession_lookup (sessionId : option Z) (st : MemStorage) (session : TestSession) :
  useSession sessionId st = Some session →
  ∃ id, sessionId = Some id ∧ id ≠ 0%Z ∧ testSessions st !! id = Some session.
Proof.
  unfold useSession, getTestSession. destruct sessionId as [id|]; [|discriminate].
  destruct (Z.eqb_spec id 0); [discriminate|]. eauto.
Qed.

(** The two outcomes of a click that finds its target. *)
Lemma handleHotspotClick_found (now : Z) (id : Z) (hotspotId : string)
    (clickX clickY : Q) (isCorrect : bool) (timeSpent : Q) (st : MemStorage)
    (session : TestSession) (target : HotspotData) :
  useSession (Some id) st = Some session →
  List.find (λ h, String.eqb (hotspot_id h) hotspotId) (currentHotspots session) =
    Some target →
  handleHotspotClick now (Some id) hotspotId clickX clickY isCorrect timeSpent st =
  {| testSessions :=
       if isCorrect then
         <[id := apply_updates session
                   {| upd_currentStep := Some (ts_currentStep session + 1)%Z;
                      upd_isCompleted :=
                        Some (ts_currentStep session + 1 >? ts_totalSteps session)%Z;
                      upd_completedTime :=
                        if (ts_currentStep session + 1 >? ts_totalSteps session)%Z
                        then Some now else None |}]> (testSessions st)
       else testSessions st;
     testAttempts :=
       if insertTestAttemptSchema_parse
            (ta_data (attempt_of now (currentAttemptId st) session target hotspotId
                        clickX clickY isCorrect timeSpent))
       then
         map_set (currentAttemptId st)
           (attempt_of now (currentAttemptId st) session target hotspotId clickX clickY
              isCorrect timeSpent)
           (testAttempts st)
       else testAttempts st;
     currentSessionId := currentSessionId st;
     currentAttemptId :=
       if insertTestAttemptSchema_parse
            (ta_data (attempt_of now (currentAttemptId st) session target hotspotId
                        clickX clickY isCorrect timeSpent))
       then (currentAttemptId st + 1)%Z else currentAttemptId st |}.
Proof.
  intros Hs Hf. unfold handleHotspotClick, postTestAttempt. rewrite Hs, Hf.
  apply useSession_lookup in Hs as (id' & [= <-] & _ & Hl).
  cbn [attempt_of ta_data].
  destruct (insertTestAttemptSchema_parse _);
    (destruct isCorrect; [|destruct st; reflexivity]);
    unfold updateTestSession, createTestAttempt; cbn [snd testSessions]; rewrite Hl;
    reflexivity.
Qed.

(** The attempt ids stay fresh: the storages built from [newStorage] by
    creating sessions and clicking all satisfy [attempt_ids_fresh]. *)
Lemma newStorage_fresh : attempt_ids_fresh newStorage.
Proof. intros k a Hin. inversion Hin. Qed.

Lemma createTestSession_fresh (now : Z) (ins : InsertTestSession) (st : MemStorage) :
  attempt_ids_fresh st → attempt_ids_fresh (createTestSession now ins st).2.
Proof. intros H. exact H. Qed.


(** C10.  A click whose hotspot id matches no hotspot of the current
    step of the loaded session, or that arrives while no session is
    loaded, leaves the storage as it is: no attempt is recorded and the
    current step and the completion flag of the session do not change. *)
Theorem click_without_target_is_noop :
  ∀ (now : Z) (sessionId : option Z) (hotspotId : string) (clickX clickY : Q)
    (isCorrect : bool) (timeSpent : Q) (st : MemStorage),
    (useSession sessionId st = None ∨
     ∃ session, useSession sessionId st = Some session ∧
                ∀ h, h ∈ currentHotspots session → hotspot_id h ≠ hotspotId) →
    handleHotspotClick now sessionId hotspotId clickX clickY isCorrect timeSpent st = st ∧
    testAttempts
      (handleHotspotClick now sessionId hotspotId clickX clickY isCorrect timeSpent st) =
      testAttempts st ∧
    useSession sessionId
      (handleHotspotClick now sessionId hotspotId clickX clickY isCorrect timeSpent st) =
      useSession sessionId st.
Proof.
  intros now sessionId hotspotId clickX clickY isCorrect timeSpent st H.
  assert (Hnoop :
    handleHotspotClick now sessionId hotspotId clickX clickY isCorrect timeSpent st = st).
  { unfold handleHotspotClick. destruct H as [->|(session & -> & Hno)]; [reflexivity|].
    assert (Hf : List.find (λ h, String.eqb (hotspot_id h) hotspotId)
                   (currentHotspots session) = None).
    { apply find_none_iff. intros h Hh. apply String.eqb_neq, Hno, Hh. }
    rewrite Hf. reflexivity. }
  rewrite Hnoop. auto.
Qed.

(** On the three-step session: a click on a hotspot of another step,
    and a click while no session is loaded. *)
Lemma click_without_target_is_noop_example :
  handleHotspotClick 2000 (Some 1%Z) "b" 200 150 true 1.5 Examples.started =
    Examples.started ∧
  handleHotspotClick 2000 None "a" 100 100 true 1.5 Examples.started = Examples.started.
Proof.
  split.
  - apply (click_without_target_is_noop 2000 (Some 1%Z) "b" 200 150 true 1.5
             Examples.started).
    right. eexists. split; [vm_compute; reflexivity|].
    intros h Hh. apply list_elem_of_singleton in Hh as ->. discriminate.
  - apply (click_without_target_is_noop 2000 None "a" 100 100 true 1.5 Examples.started).
    left. reflexivity.
Defined.

End SessionFacts.

Section SessionClaims.

Import Session.

Lemma array_get_Some {A} (a : list A) (i : Z) (x : A) :
  array_get a i = Some x → (0 ≤ i < Z.of_nat (length a))%Z.
Proof.
  unfold array_get. destruct (Z.leb_spec 0 i) as [Hi|]; [|discriminate].
  intros H. apply lookup_lt_Some in H. lia.
Qed.

Lemma currentHotspots_elem (session : TestSession) (h : HotspotData) :
  h ∈ currentHotspots session →
  (1 ≤ ts_currentStep session ≤ Z.of_nat (length (ts_hotspotData session)))%Z.
Proof.
  unfold currentHotspots.
  destruct (array_get (ts_hotspotData session) (ts_currentStep session - 1)) eqn:E.
  - intros _. apply array_get_Some in E. lia.
  - simpl. intros H. inversion H.
Qed.


Lemma started_fresh : attempt_ids_fresh Examples.started.
Proof. apply createTestSession_fresh, newStorage_fresh. Qed.


End SessionClaims.

Section SessionInvariant.

Import Session.

Lemma createTestSession_lookup (now : Z) (ins : InsertTestSession) (st : MemStorage) :
  testSessions (createTestSession now ins st).2 !!
    ts_id (createTestSession now ins st).1 =
  Some (createTestSession now ins st).1.
Proof. simpl. apply lookup_insert_eq. Qed.

Lemma createTestSession_inv (now : Z) (ins : InsertTestSession) (st : MemStorage) :
  Z.of_nat (length (ins_extractedFrames ins)) = ins_totalSteps ins →
  length (ins_hotspotData ins) = length (ins_extractedFrames ins) →
  session_inv (ins_totalSteps ins) (createTestSession now ins st).1.
Proof.
  intros Hn Hh. unfold session_inv. simpl.
  split; [reflexivity|]. split; [lia|]. split; [lia|].
  destruct (Z.gtb_spec 1 (ins_totalSteps ins)); [right; lia | left].
  split; [lia | reflexivity].
Qed.

(** A click keeps a stored session within its bounds. *)
Lemma click_inv (total id : Z) (k : Click) (st : MemStorage) (s : TestSession) :
  testSessions st !! id = Some s → session_inv total s →
  ∃ s', testSessions (click (Some id) st k) !! id = Some s' ∧ session_inv total s'.
Proof.
  intros Hl Hinv. unfold click.
  destruct (useSession (Some id) st) as [session|] eqn:Hs.
  2:{ unfold handleHotspotClick. rewrite Hs. eauto. }
  pose proof (useSession_lookup _ _ _ Hs) as (id' & [= <-] & _ & Hl').
  assert (session = s) as -> by congruence.
  destruct (List.find (λ h, String.eqb (hotspot_id h) (k_hotspotId k))
              (currentHotspots s)) as [target|] eqn:Hf.
  2:{ unfold handleHotspotClick. rewrite Hs, Hf. eauto. }
  rewrite (handleHotspotClick_found _ _ _ _ _ _ _ _ _ _ Hs Hf). cbn [testSessions].
  destruct (k_isCorrect k); [|eauto].
  rewrite lookup_insert_eq. eexists. split; [reflexivity|].
  apply find_some_elem in Hf as [Hin _]. apply currentHotspots_elem in Hin.
  destruct Hinv as (Ht & Hlen & Hb & _).
  unfold session_inv.
  cbn [apply_updates ts_currentStep ts_isCompleted ts_totalSteps ts_hotspotData
       upd_currentStep upd_isCompleted default].
  unfold Datatypes.id.
  split; [exact Ht|]. split; [exact Hlen|]. split; [lia|].
  left. split; [lia|]. rewrite Ht. reflexivity.
Qed.

Lemma clicks_inv (total id : Z) (ks : list Click) :
  ∀ (st : MemStorage) (s : TestSession),
    testSessions st !! id = Some s → session_inv total s →
    ∃ s', testSessions (clicks (Some id) ks st) !! id = Some s' ∧ session_inv total s'.
Proof.
  induction ks as [|k ks IH]; intros st s Hl Hinv; [simpl; eauto|].
  destruct (click_inv total id k st s Hl Hinv) as (s1 & Hl1 & Hinv1).
  exact (IH _ s1 Hl1 Hinv1).
Qed.

(** C7 (as amended).  A session created from a set of selected frames,
    with one hotspot list per frame and [totalSteps] equal to their
    count, and then subjected to any sequence of correct and incorrect
    clicks, always satisfies [1 <= currentStep <= totalSteps + 1]; when
    it has at least one step it also satisfies
    [isCompleted = (currentStep > totalSteps)].  A session created from
    zero frames stays on step 1 with [isCompleted = false]: it is never
    marked completed. *)
Theorem session_invariant :
  ∀ (now : Z) (ins : InsertTestSession) (st0 : MemStorage) (ks : list Click),
    Z.of_nat (length (ins_extractedFrames ins)) = ins_totalSteps ins →
    length (ins_hotspotData ins) = length (ins_extractedFrames ins) →
    ∃ s : TestSession,
      getTestSession (ts_id (createTestSession now ins st0).1)
        (clicks (Some (ts_id (createTestSession now ins st0).1)) ks
           (createTestSession now ins st0).2) = Some s ∧
      ts_totalSteps s = ins_totalSteps ins ∧
      Spec.step_bounds s ∧
      ((1 ≤ ins_totalSteps ins)%Z → Spec.completed_flag s) ∧
      (ins_totalSteps ins = 0%Z → ts_currentStep s = 1%Z ∧ ts_isCompleted s = false).
Proof.
  intros now ins st0 ks Hn Hh.
  destruct (clicks_inv (ins_totalSteps ins) (ts_id (createTestSession now ins st0).1) ks
              (createTestSession now ins st0).2 (createTestSession now ins st0).1
              (createTestSession_lookup now ins st0)
              (createTestSession_inv now ins st0 Hn Hh))
    as (s & Hl & Ht & Hlen & Hb & Hflag).
  exists s. split; [exact Hl|]. split; [exact Ht|].
  unfold Spec.step_bounds, Spec.completed_flag. rewrite Ht.
  split; [exact Hb|]. split.
  - intros H1. destruct Hflag as [[_ Hf]|(H0 & _)]; [exact Hf | lia].
  - intros H0. destruct Hflag as [[H1 _]|(_ & Hc & Hf)]; [lia | auto].
Qed.

(** The three-step session after a hit, a miss and a hit. *)
Lemma session_invariant_example :
  ∃ s : TestSession,
    getTestSession 1
      (clicks (Some 1%Z)
         [Examples.hit "a" 2000; Examples.miss "b" 3000; Examples.hit "b" 4000]
         Examples.started) = Some s ∧
    ts_currentStep s = 3%Z ∧
    Spec.step_bounds s ∧ Spec.completed_flag s.
Proof.
  destruct (session_invariant 1000 Examples.three_steps newStorage
              [Examples.hit "a" 2000; Examples.miss "b" 3000; Examples.hit "b" 4000])
    as (s & Hl & Ht & Hb & Hflag & _); [reflexivity..|].
  exists s. split; [exact Hl|]. split.
  - vm_compute in Hl. injection Hl as <-. reflexivity.
  - split; [exact Hb|]. apply Hflag. vm_compute. discriminate.
Defined.

(** C7 as stated fails on a session created from zero selected frames:
    it is on step 1 of 0 and not marked completed. *)
Lemma zero_step_session_not_completed :
  ts_totalSteps Examples.empty_session = 0%Z ∧
  ts_currentStep Examples.empty_session = 1%Z ∧
  ts_isCompleted Examples.empty_session = false ∧
  (ts_currentStep Examples.empty_session >? ts_totalSteps Examples.empty_session)%Z =
    true ∧
  ¬ Spec.completed_flag Examples.empty_session ∧
  ¬ Spec.invariant Examples.empty_session.
Proof.
  split; [reflexivity|]. split; [reflexivity|]. split; [reflexivity|].
  split; [reflexivity|]. split.
  - unfold Spec.completed_flag. vm_compute. discriminate.
  - intros [_ H]. revert H. unfold Spec.completed_flag. vm_compute. discriminate.
Qed.

(** The condition on the hotspot lists is needed: a session of one
    frame and one step that carries two hotspot lists takes a correct
    click on its second list after it is completed, and ends on step 3
    of 1. *)
Lemma extra_hotspot_list_breaks_bounds :
  progress <$> getTestSession 1
    (clicks (Some 1%Z) [Examples.hit "a" 2000; Examples.hit "b" 3000]
       (createTestSession 1000 Examples.one_frame_two_lists newStorage).2) =
  Some (3%Z, true, Some 3000%Z).
Proof. vm_compute. reflexivity. Qed.

End SessionInvariant.

(** * Further properties of the code *)

(** ** Client utilities *)

Section UtilsFacts.

Import Utils.

Lemma round_between (x : Q) (lo hi : Z) :
  (inject_Z lo <= x)%Q → (x <= inject_Z hi)%Q → (lo ≤ Num.round x ≤ hi)%Z.
Proof.
  intros Hlo Hhi. unfold Num.round.
  pose proof (Qfloor_le (x + (1 # 2))) as Hf.
  pose proof (Qlt_floor (x + (1 # 2))) as Hc.
  set (f := Qfloor (x + (1 # 2))) in *.
  rewrite inject_Z_plus in Hc. change (inject_Z 1) with 1%Q in Hc.
  split; apply Z.lt_succ_r; rewrite <- Z.add_1_r, Zlt_Qlt, inject_Z_plus;
    change (inject_Z 1) with 1%Q; lra.
Qed.

Lemma Qdiv_between (a b : Q) : (0 < b)%Q → (0 <= a <= b)%Q → (0 <= a / b <= 1)%Q.
Proof.
  intros Hb [H0 H1]. split.
  - apply Qle_shift_div_l; [exact Hb | lra].
  - apply Qle_shift_div_r; [exact Hb | lra].
Qed.

(** X1.  [calculateAccuracy] is a percentage: for a count of correct answers
    between 0 and the total it lies between 0 and 100; it is 0 when the
    total is 0 and 100 when all answers are correct. *)
Theorem calculateAccuracy_percentage (correct total : Q) :
  (0 <= correct <= total)%Q →
  (0 ≤ calculateAccuracy correct total ≤ 100)%Z ∧
  ((total == 0)%Q → calculateAccuracy correct total = 0%Z) ∧
  ((0 < total)%Q → (correct == total)%Q → calculateAccuracy correct total = 100%Z) ∧
  ((0 < total)%Q → (correct == 0)%Q → calculateAccuracy correct total = 0%Z).
Proof.
  intros [H0 H1]. unfold calculateAccuracy.
  destruct (Qeq_bool total 0) eqn:E.
  - apply Qeq_bool_iff in E. split; [lia|]. split; [reflexivity|].
    split; intros Hpos; lra.
  - apply Qeq_bool_neq in E.
    assert (Hpos : (0 < total)%Q) by (destruct (Qlt_le_dec 0 total); [assumption | lra]).
    destruct (Qdiv_between correct total Hpos (conj H0 H1)) as [Hq0 Hq1].
    split.
    { set (q := (correct / total)%Q) in *.
      apply round_between; [change (inject_Z 0) with 0%Q | change (inject_Z 100) with 100%Q];
        lra. }
    split; [intros Hz; contradiction|]. split.
    + intros _ Heq.
      assert (Hone : (correct / total * 100 == 100)%Q) by (rewrite Heq; field; lra).
      unfold Num.round. rewrite Hone. reflexivity.
    + intros _ Heq.
      assert (Hzero : (correct / total * 100 == 0)%Q) by (rewrite Heq; field; lra).
      unfold Num.round. rewrite Hzero. reflexivity.
Qed.

(** Two correct answers out of three. *)
Lemma calculateAccuracy_percentage_example :
  (0 ≤ calculateAccuracy 2 3 ≤ 100)%Z ∧ calculateAccuracy 2 3 = 67%Z ∧
  calculateAccuracy 0 0 = 0%Z.
Proof.
  destruct (calculateAccuracy_percentage 2 3) as (Hr & _ & _ & _).
  { split; [discriminate | discriminate]. }
  split; [exact Hr|]. split; reflexivity.
Defined.

Lemma string_length_app (a b : string) :
  String.length (a +:+ b) = String.length a + String.length b.
Proof. induction a as [|c a IH]; simpl; [|rewrite IH]; reflexivity. Qed.

(** A check over a range of integers. *)
Lemma range_check (p : Z → bool) (lo len : Z) :
  forallb p (seqZ lo len) = true → ∀ z, (lo ≤ z < lo + len)%Z → p z = true.
Proof.
  intros H z Hz. rewrite forallb_forall in H. apply H.
  apply list_elem_of_In, elem_of_seqZ. lia.
Qed.

Lemma minutes_two_chars (m : Z) :
  (0 ≤ m < 100)%Z → String.length (Pipeline.padStart (pretty m) 2 "0") = 2.
Proof.
  intros Hm. apply Nat.eqb_eq.
  apply (range_check
           (λ m, String.length (Pipeline.padStart (pretty m) 2 "0") =? 2) 0 100);
    [vm_compute; reflexivity | lia].
Qed.

Lemma seconds_four_chars (n : Z) :
  (0 ≤ n ≤ 600)%Z →
  String.length (Pipeline.padStart (print_tenths n) 4 "0") = 4 ∧
  String.get 2 (Pipeline.padStart (print_tenths n) 4 "0") = Some "."%char.
Proof.
  intros Hn.
  pose (p := λ n : Z,
          (String.length (Pipeline.padStart (print_tenths n) 4 "0") =? 4) &&
          match String.get 2 (Pipeline.padStart (print_tenths n) 4 "0") with
          | Some c => Ascii.eqb c "."%char
          | None => false
          end).
  assert (H : p n = true)
    by (apply (range_check p 0 601); [vm_compute; reflexivity | lia]).
  unfold p in H. apply andb_true_iff in H as [H1 H2].
  split; [apply Nat.eqb_eq, H1|].
  destruct (String.get 2 _) as [c|]; [|discriminate].
  apply Ascii.eqb_eq in H2. rewrite H2. reflexivity.
Qed.

(** The minutes and the remaining seconds of a non-negative time. *)
Lemma minutes_seconds (seconds : Q) :
  (0 <= seconds < 6000)%Q →
  (0 ≤ Qfloor (seconds / 60) < 100)%Z ∧
  (rem seconds 60 == seconds - 60 * inject_Z (Qfloor (seconds / 60)))%Q ∧
  (0 <= rem seconds 60 < 60)%Q.
Proof.
  intros [H0 H1].
  assert (Hq : (seconds == seconds / 60 * 60)%Q) by (field; lra).
  pose proof (Qfloor_le (seconds / 60)) as Hf.
  pose proof (Qlt_floor (seconds / 60)) as Hc.
  rewrite inject_Z_plus in Hc. change (inject_Z 1) with 1%Q in Hc.
  set (q := (seconds / 60)%Q) in *. set (m := Qfloor q) in *.
  assert (Hq0 : (0 <= q)%Q) by lra.
  assert (Hm : (0 ≤ m < 100)%Z).
  { split.
    - apply Z.lt_succ_r. rewrite <- Z.add_1_r, Zlt_Qlt, inject_Z_plus.
      change (inject_Z 1) with 1%Q. change (inject_Z 0) with 0%Q. lra.
    - rewrite Zlt_Qlt. change (inject_Z 100) with 100%Q. lra. }
  assert (Hrem : (rem seconds 60 == seconds - 60 * inject_Z m)%Q).
  { unfold rem, trunc. fold q. apply Qle_bool_iff in Hq0. rewrite Hq0. reflexivity. }
  split; [exact Hm|]. split; [exact Hrem|]. rewrite Hrem. lra.
Qed.

(** X2.  [formatTime] on a time of less than 100 minutes: seven characters
    [mm:ss.s], the minutes on two digits and the seconds within the minute
    rounded to a tenth on four characters.  The seconds are rounded after
    the minutes are taken, so they can read 60.0. *)
Theorem formatTime_shape (seconds : Q) :
  (0 <= seconds < 6000)%Q →
  ∃ m n : Z,
    m = Qfloor (seconds / 60) ∧ (0 ≤ m < 100)%Z ∧
    n = Qfloor ((seconds - 60 * inject_Z m) * 10 + (1 # 2))%Q ∧ (0 ≤ n ≤ 600)%Z ∧
    formatTime seconds =
      Pipeline.padStart (pretty m) 2 "0" +:+ ":" +:+
      Pipeline.padStart (print_tenths n) 4 "0" ∧
    String.length (formatTime seconds) = 7 ∧
    String.get 2 (formatTime seconds) = Some ":"%char ∧
    String.get 5 (formatTime seconds) = Some "."%char.
Proof.
  intros Hs. destruct (minutes_seconds seconds Hs) as (Hm & Hrem & Hr0 & Hr1).
  set (m := Qfloor (seconds / 60)) in *.
  set (n := Qfloor ((seconds - 60 * inject_Z m) * 10 + (1 # 2))%Q).
  assert (Hten : tenths (rem seconds 60) = n).
  { unfold tenths, n. rewrite (Qabs_pos _ Hr0), Hrem. reflexivity. }
  assert (Hn : (0 ≤ n ≤ 600)%Z).
  { rewrite <- Hten. unfold tenths. rewrite (Qabs_pos _ Hr0).
    set (r := rem seconds 60) in *.
    pose proof (Qfloor_le (r * 10 + (1 # 2))) as Hf.
    pose proof (Qlt_floor (r * 10 + (1 # 2))) as Hc.
    rewrite inject_Z_plus in Hc. change (inject_Z 1) with 1%Q in Hc.
    set (f := Qfloor (r * 10 + (1 # 2))) in *.
    split.
    - apply Z.lt_succ_r. rewrite <- Z.add_1_r, Zlt_Qlt, inject_Z_plus.
      change (inject_Z 1) with 1%Q. change (inject_Z 0) with 0%Q. lra.
    - apply Z.lt_succ_r. rewrite Zlt_Qlt. change (inject_Z (Z.succ 600)) with 601%Q. lra. }
  assert (Hfmt : formatTime seconds =
                 Pipeline.padStart (pretty m) 2 "0" +:+ ":" +:+
                 Pipeline.padStart (print_tenths n) 4 "0").
  { unfold formatTime. cbv zeta. fold m. unfold toFixed1.
    assert (Hneg : Num.gtb 0 (rem seconds 60) = false) by (apply gtb_false_le, Hr0).
    rewrite Hneg, Hten. reflexivity. }
  exists m, n. split; [reflexivity|]. split; [exact Hm|].
  split; [reflexivity|]. split; [exact Hn|]. split; [exact Hfmt|].
  rewrite Hfmt.
  pose proof (minutes_two_chars m Hm) as Hl2.
  destruct (seconds_four_chars n Hn) as [Hl4 Hdot].
  split; [rewrite !string_length_app, Hl2, Hl4; reflexivity|].
  set (b := Pipeline.padStart (print_tenths n) 4 "0") in *.
  destruct (Pipeline.padStart (pretty m) 2 "0") as [|c1 [|c2 [|c3 t]]]; try discriminate.
  split; [reflexivity|]. simpl. exact Hdot.
Qed.

(** 59.96 seconds are shown as 00:60.0, 125.3 seconds as 02:05.3. *)
Lemma formatTime_shape_example :
  String.length (formatTime 59.96) = 7 ∧
  formatTime 59.96 = "00:60.0" ∧ formatTime 125.3 = "02:05.3".
Proof.
  destruct (formatTime_shape 59.96) as (m & n & _ & _ & _ & _ & _ & Hlen & _).
  { split; [discriminate | reflexivity]. }
  split; [exact Hlen|]. split; vm_compute; reflexivity.
Defined.

End UtilsFacts.

(** ** The timestamp of a file name *)

Section TimestampFacts.

Import Routes.

Lemma from_first_digit_skip (pre s : string) :
  no_digit pre = true → from_first_digit (pre +:+ s) = from_first_digit s.
Proof.
  induction pre as [|c pre IH]; intros H; [reflexivity|].
  simpl in H |- *. apply andb_true_iff in H as [Hc Hpre].
  apply negb_true_iff in Hc. rewrite Hc. exact (IH Hpre).
Qed.

Lemma from_first_digit_none (s : string) :
  no_digit s = true → from_first_digit s = EmptyString.
Proof.
  induction s as [|c s IH]; intros H; [reflexivity|].
  simpl in H |- *. apply andb_true_iff in H as [Hc Hs].
  apply negb_true_iff in Hc. rewrite Hc. exact (IH Hs).
Qed.

Lemma leading_digits_run (d post : string) :
  all_digits d = true → leading_digits post = EmptyString →
  leading_digits (d +:+ post) = d.
Proof.
  induction d as [|c d IH]; intros Hd Hpost; [exact Hpost|].
  simpl in Hd |- *. apply andb_true_iff in Hd as [Hc Hd].
  rewrite Hc, (IH Hd Hpost). reflexivity.
Qed.

Lemma all_digits_app (a b : string) :
  all_digits a = true → all_digits b = true → all_digits (a +:+ b) = true.
Proof.
  induction a as [|c a IH]; intros Ha Hb; [exact Hb|].
  simpl in Ha |- *. apply andb_true_iff in Ha as [Hc Ha].
  rewrite Hc. exact (IH Ha Hb).
Qed.

Lemma pretty_N_char_digit (d : N) :
  (d < 10)%N →
  is_digit (pretty_N_char d) = true ∧ digit_value (pretty_N_char d) = d.
Proof.
  intros Hd.
  assert (d = 0 ∨ d = 1 ∨ d = 2 ∨ d = 3 ∨ d = 4 ∨ d = 5 ∨ d = 6 ∨ d = 7 ∨
          d = 8 ∨ d = 9)%N as Hcases by lia.
  repeat (destruct Hcases as [->|Hcases]; [split; reflexivity|]).
  subst d. split; reflexivity.
Qed.

(** Printing a number gives digits that parse back to it. *)
Lemma pretty_N_go_digits (x : N) :
  ∃ k : N, ∀ (acc : N) (s : string),
    parse_digits acc (pretty_N_go x s) = parse_digits (acc * 10 ^ k + x) s ∧
    (all_digits s = true → all_digits (pretty_N_go x s) = true).
Proof.
  induction (N.lt_wf_0 x) as [x _ IH].
  destruct (N.eq_dec x 0%N) as [->|Hx].
  - exists 0%N. intros acc s. rewrite pretty_N_go_0. split; [f_equal; lia | auto].
  - assert (Hpos : (0 < x)%N) by lia.
    destruct (IH (x `div` 10)%N) as (k & Hk); [apply N.div_lt; lia|].
    exists (k + 1)%N. intros acc s. rewrite (pretty_N_go_step x s Hpos).
    destruct (pretty_N_char_digit (x `mod` 10)%N) as [Hdig Hval];
      [apply N.mod_lt; lia|].
    destruct (Hk acc (String (pretty_N_char (x `mod` 10)) s)) as [Hparse Hall].
    split.
    + rewrite Hparse. cbn [parse_digits]. rewrite Hval. f_equal.
      rewrite N.pow_add_r, N.pow_1_r.
      pose proof (N.div_mod x 10). lia.
    + intros Hs. apply Hall. cbn [all_digits]. rewrite Hdig, Hs. reflexivity.
Qed.

Lemma pretty_nat_digits (n : nat) :
  parse_digits 0 (pretty n) = N.of_nat n ∧ all_digits (pretty n) = true ∧
  pretty n ≠ EmptyString.
Proof.
  unfold pretty, pretty_nat, pretty, pretty_N.
  destruct (decide (N.of_nat n = 0%N)) as [E|E].
  - rewrite E. repeat split. discriminate.
  - destruct (pretty_N_go_digits (N.of_nat n)) as (k & Hk).
    destruct (Hk 0%N EmptyString) as [Hparse Hall]. split; [|split].
    + rewrite Hparse. simpl. lia.
    + apply Hall. reflexivity.
    + assert (Hpos : (0 < N.of_nat n)%N) by lia.
      rewrite (pretty_N_go_step _ _ Hpos). intros Hempty.
      pose proof (pretty_N_go_ne_0 (N.of_nat n `div` 10)
                    (String (pretty_N_char (N.of_nat n `mod` 10)) "")) as Hne.
      destruct (pretty_N_go_digits (N.of_nat n `div` 10)) as (k' & Hk').
      destruct (Hk' 1%N (String (pretty_N_char (N.of_nat n `mod` 10)) "")) as [Hp _].
      rewrite Hempty in Hp. cbn [parse_digits] in Hp.
      destruct (Hk' 0%N (String (pretty_N_char (N.of_nat n `mod` 10)) "")) as [Hp0 _].
      rewrite Hempty in Hp0. cbn [parse_digits] in Hp0.
      assert (Hk1 : (10 ^ k' ≠ 0)%N) by (apply N.pow_nonzero; lia).
      lia.
Qed.

Lemma repeat_char_zero (k : nat) (s : string) (acc : N) :
  all_digits (Pipeline.repeat_char k "0") = true ∧
  parse_digits 0 (Pipeline.repeat_char k "0" +:+ s) = parse_digits 0 s.
Proof.
  induction k as [|k [IH1 IH2]]; [split; reflexivity|].
  split; [simpl; exact IH1 | simpl; exact IH2].
Qed.

Lemma padded_digits (n : nat) (width : nat) :
  parse_digits 0 (Pipeline.padStart (pretty n) width "0") = N.of_nat n ∧
  all_digits (Pipeline.padStart (pretty n) width "0") = true ∧
  Pipeline.padStart (pretty n) width "0" ≠ EmptyString.
Proof.
  destruct (pretty_nat_digits n) as (Hparse & Hall & Hne).
  unfold Pipeline.padStart.
  destruct (repeat_char_zero (width - String.length (pretty n)) (pretty n) 0) as [Hz Hp].
  split; [rewrite Hp; exact Hparse|].
  split; [apply all_digits_app; assumption|].
  intros Hempty. apply Hne.
  destruct (Pipeline.repeat_char _ _); [exact Hempty | discriminate].
Qed.

(** X3.  The timestamp read from a file name.  A name without a digit gives
    0.  A name made of a digit-free prefix, a number printed with leading
    zeros and a rest that does not start with a digit gives that number;
    so the index of a smart-mode frame is read back from its file name
    when the event type has no digit. *)
Theorem extractTimestamp_of_name :
  (∀ filename : string, no_digit filename = true → extractTimestamp filename = 0%N) ∧
  (∀ (pre post : string) (n width : nat),
      no_digit pre = true → leading_digits post = EmptyString →
      extractTimestamp (pre +:+ Pipeline.padStart (pretty n) width "0" +:+ post) =
      N.of_nat n) ∧
  (∀ (event : Pipeline.Event) (i : nat),
      no_digit (Pipeline.ev_type event) = true →
      extractTimestamp (Pipeline.smart_filename event i) = N.of_nat i).
Proof.
  assert (Hgen : ∀ (pre post : string) (n width : nat),
      no_digit pre = true → leading_digits post = EmptyString →
      extractTimestamp (pre +:+ Pipeline.padStart (pretty n) width "0" +:+ post) =
      N.of_nat n).
  { intros pre post n width Hpre Hpost.
    destruct (padded_digits n width) as (Hparse & Hall & Hne).
    unfold extractTimestamp, match_digits.
    rewrite (from_first_digit_skip pre _ Hpre).
    set (d := Pipeline.padStart (pretty n) width "0") in *.
    assert (Hfirst : from_first_digit (d +:+ post) = d +:+ post).
    { destruct d as [|c d]; [contradiction|]. simpl in Hall |- *.
      apply andb_true_iff in Hall as [Hc _]. rewrite Hc. reflexivity. }
    rewrite Hfirst, (leading_digits_run d post Hall Hpost).
    destruct d; [contradiction | exact Hparse]. }
  split; [|split; [exact Hgen|]].
  - intros filename H. unfold extractTimestamp, match_digits.
    rewrite (from_first_digit_none filename H). reflexivity.
  - intros event i Htype. unfold Pipeline.smart_filename.
    unfold extractTimestamp, match_digits.
    rewrite (from_first_digit_skip (Pipeline.ev_type event) _ Htype).
    exact (Hgen "_" ".png" i 3 eq_refl eq_refl).
Qed.

(** The names of the seventh click frame and of a quick-mode image. *)
Lemma extractTimestamp_of_name_example :
  extractTimestamp "click_007.png" = 7%N ∧
  extractTimestamp ("quick_" +:+ Pipeline.padStart (pretty 12) 3 "0" +:+ ".png") = 12%N ∧
  extractTimestamp "cover.png" = 0%N.
Proof.
  destruct extractTimestamp_of_name as (Hnone & Hgen & Hsmart).
  split; [|split].
  - exact (Hgen "click_" ".png" 7 3 eq_refl eq_refl).
  - exact (Hgen "quick_" ".png" 12 3 eq_refl eq_refl).
  - apply Hnone. reflexivity.
Defined.

End TimestampFacts.

(** ** The session and attempt tables *)

Section StoreFacts.

Import Session Store.

Lemma newStorage_sessions_fresh : session_ids_fresh newStorage.
Proof. intros k s H. simpl in H. rewrite lookup_empty in H. discriminate. Qed.

(** X4.  Creating a session.  In a storage whose session counter is ahead of
    the stored ids, [createTestSession] takes the id of the counter, which
    is not in use, stores the new session on step 1 and not completed,
    and keeps every session stored before; the new session can be read
    back, and the counter stays ahead. *)
Theorem createTestSession_stores (now : Z) (ins : InsertTestSession) (st : MemStorage) :
  session_ids_fresh st →
  ts_id (createTestSession now ins st).1 = currentSessionId st ∧
  getTestSession (currentSessionId st) st = None ∧
  getTestSession (currentSessionId st) (createTestSession now ins st).2 =
    Some (createTestSession now ins st).1 ∧
  (∀ id s, getTestSession id st = Some s →
           getTestSession id (createTestSession now ins st).2 = Some s) ∧
  (∀ id, id ≠ currentSessionId st →
         getTestSession id (createTestSession now ins st).2 = getTestSession id st) ∧
  ts_currentStep (createTestSession now ins st).1 = 1%Z ∧
  ts_isCompleted (createTestSession now ins st).1 = false ∧
  ts_completedTime (createTestSession now ins st).1 = None ∧
  testAttempts (createTestSession now ins st).2 = testAttempts st ∧
  session_ids_fresh (createTestSession now ins st).2.
Proof.
  intros Hfresh. unfold getTestSession. cbn [createTestSession fst snd testSessions ts_id].
  assert (Hnone : testSessions st !! currentSessionId st = None).
  { destruct (testSessions st !! currentSessionId st) as [s|] eqn:E; [|reflexivity].
    apply Hfresh in E. lia. }
  split; [reflexivity|]. split; [exact Hnone|].
  split; [apply lookup_insert_eq|]. split.
  { intros id s Hs. rewrite lookup_insert_ne; [exact Hs|].
    intros <-. rewrite Hnone in Hs. discriminate. }
  split; [intros id Hne; apply lookup_insert_ne; congruence|].
  split; [reflexivity|]. split; [reflexivity|]. split; [reflexivity|].
  split; [reflexivity|].
  intros k s. cbn [testSessions currentSessionId]. rewrite lookup_insert.
  destruct (decide (currentSessionId st = k)) as [<-|Hne]; [lia|].
  intros Hs. apply Hfresh in Hs. lia.
Qed.

(** Two sessions created one after the other get the ids 1 and 2, and
    both can be read. *)
Lemma createTestSession_stores_example :
  ts_id (createTestSession 2000 Examples.zero_steps Examples.started).1 = 2%Z ∧
  getTestSession 1 (createTestSession 2000 Examples.zero_steps Examples.started).2 =
    Some Examples.started_session ∧
  getTestSession 2 (createTestSession 2000 Examples.zero_steps Examples.started).2 =
    Some (createTestSession 2000 Examples.zero_steps Examples.started).1.
Proof.
  assert (Hfresh : session_ids_fresh Examples.started).
  { destruct (createTestSession_stores 1000 Examples.three_steps newStorage
                newStorage_sessions_fresh) as (_ & _ & _ & _ & _ & _ & _ & _ & _ & H).
    exact H. }
  destruct (createTestSession_stores 2000 Examples.zero_steps Examples.started Hfresh)
    as (Hid & _ & Hget & Hold & _).
  split; [exact Hid|]. split; [|exact Hget].
  apply Hold. vm_compute. reflexivity.
Defined.

Lemma apply_updates_twice (s : TestSession) (u : SessionUpdates) :
  apply_updates (apply_updates s u) u = apply_updates s u.
Proof.
  unfold apply_updates. cbn.
  destruct (upd_currentStep u), (upd_isCompleted u), (upd_completedTime u); reflexivity.
Qed.

(** X5.  Updating a session, for an update with the keys that the hook
    sends (step, flag, completion time).  For an id that is not stored,
    [updateTestSession] returns nothing and leaves the storage as it is.
    For a stored id it returns the merged session, which is then the one
    read back; the other sessions, the attempts and the counters are
    unchanged, the other fields of the session are kept, and sending the
    same update again changes nothing more. *)
Theorem updateTestSession_by_id (id : Z) (u : SessionUpdates) (st : MemStorage) :
  (getTestSession id st = None → updateTestSession id u st = (None, st)) ∧
  (∀ s, getTestSession id st = Some s →
        (updateTestSession id u st).1 = Some (apply_updates s u) ∧
        getTestSession id (updateTestSession id u st).2 = Some (apply_updates s u) ∧
        (∀ id', id' ≠ id →
                getTestSession id' (updateTestSession id u st).2 = getTestSession id' st) ∧
        testAttempts (updateTestSession id u st).2 = testAttempts st ∧
        currentSessionId (updateTestSession id u st).2 = currentSessionId st ∧
        currentAttemptId (updateTestSession id u st).2 = currentAttemptId st ∧
        ts_id (apply_updates s u) = ts_id s ∧
        ts_totalSteps (apply_updates s u) = ts_totalSteps s ∧
        ts_extractedFrames (apply_updates s u) = ts_extractedFrames s ∧
        ts_hotspotData (apply_updates s u) = ts_hotspotData s ∧
        ts_startTime (apply_updates s u) = ts_startTime s ∧
        updateTestSession id u (updateTestSession id u st).2 =
          updateTestSession id u st).
Proof.
  unfold getTestSession, updateTestSession. split.
  - intros ->. reflexivity.
  - intros s ->. cbn [fst snd testSessions testAttempts currentSessionId currentAttemptId].
    split; [reflexivity|]. split; [apply lookup_insert_eq|].
    split; [intros id' Hne; apply lookup_insert_ne; congruence|].
    repeat (split; [reflexivity|]).
    rewrite lookup_insert_eq, apply_updates_twice, insert_insert_eq. reflexivity.
Qed.

(** An update of a session that does not exist, and the update sent by
    the hook after a correct click on step 1 of 3. *)
Lemma updateTestSession_by_id_example :
  updateTestSession 7 {| upd_currentStep := Some 2%Z; upd_isCompleted := Some false;
                         upd_completedTime := None |} Examples.started =
    (None, Examples.started) ∧
  progress <$> getTestSession 1
    (updateTestSession 1 {| upd_currentStep := Some 2%Z; upd_isCompleted := Some false;
                            upd_completedTime := None |} Examples.started).2 =
    Some (2%Z, false, None).
Proof.
  split.
  - apply (proj1 (updateTestSession_by_id 7 _ Examples.started)). vm_compute. reflexivity.
  - destruct (proj2 (updateTestSession_by_id 1
                       {| upd_currentStep := Some 2%Z; upd_isCompleted := Some false;
                          upd_completedTime := None |} Examples.started)
                Examples.started_session) as (_ & Hget & _).
    { vm_compute. reflexivity. }
    rewrite Hget. reflexivity.
Defined.

Lemma filter_snoc {A} (f : A → bool) (l : list A) (x : A) :
  List.filter f (l ++ [x]) = List.filter f l ++ (if f x then [x] else []).
Proof. rewrite List.filter_app. simpl. destruct (f x); reflexivity. Qed.

(** X6.  Recording an attempt.  In a storage whose attempt counter is ahead
    of the stored ids, [createTestAttempt] gives the attempt the id of the
    counter and puts it after the attempts stored before: the attempts of
    its session get it as their last element, those of every other session
    are unchanged, and the sessions are not touched. *)
Theorem createTestAttempt_appends (now : Z) (ia : InsertTestAttempt) (st : MemStorage) :
  attempt_ids_fresh st →
  ta_id (createTestAttempt now ia st).1 = currentAttemptId st ∧
  ta_data (createTestAttempt now ia st).1 = ia ∧
  getTestAttemptsBySession (ia_sessionId ia) (createTestAttempt now ia st).2 =
    getTestAttemptsBySession (ia_sessionId ia) st ++ [(createTestAttempt now ia st).1] ∧
  (∀ sid, sid ≠ ia_sessionId ia →
          getTestAttemptsBySession sid (createTestAttempt now ia st).2 =
          getTestAttemptsBySession sid st) ∧
  testSessions (createTestAttempt now ia st).2 = testSessions st ∧
  attempt_ids_fresh (createTestAttempt now ia st).2.
Proof.
  intros Hfresh.
  assert (Hset : testAttempts (createTestAttempt now ia st).2 =
                 testAttempts st ++ [(currentAttemptId st, (createTestAttempt now ia st).1)]).
  { cbn [createTestAttempt fst snd testAttempts]. apply map_set_fresh.
    intros k v Hin. apply Hfresh in Hin. lia. }
  split; [reflexivity|]. split; [reflexivity|].
  assert (Hby : ∀ sid,
            getTestAttemptsBySession sid (createTestAttempt now ia st).2 =
            getTestAttemptsBySession sid st ++
              (if Z.eqb (ia_sessionId ia) sid then [(createTestAttempt now ia st).1] else [])).
  { intros sid. unfold getTestAttemptsBySession. rewrite Hset, map_app.
    cbn [map snd]. rewrite filter_snoc. reflexivity. }
  split; [rewrite Hby, Z.eqb_refl; reflexivity|]. split.
  { intros sid Hne. rewrite Hby.
    destruct (Z.eqb_spec (ia_sessionId ia) sid); [congruence|]. apply app_nil_r. }
  split; [reflexivity|].
  intros k a. rewrite Hset. cbn [createTestAttempt snd currentAttemptId].
  rewrite elem_of_app, list_elem_of_singleton. intros [Hin|[= -> _]]; [|lia].
  apply Hfresh in Hin. lia.
Qed.

(** An attempt recorded for session 1 is its only attempt, with id 1. *)
Lemma createTestAttempt_appends_example :
  map ta_id
    (getTestAttemptsBySession 1
       (createTestAttempt 2000 (attempt_for 1 1 true) Examples.started).2) = [1%Z] ∧
  getTestAttemptsBySession 2
    (createTestAttempt 2000 (attempt_for 1 1 true) Examples.started).2 = [].
Proof.
  destruct (createTestAttempt_appends 2000 (attempt_for 1 1 true) Examples.started
              started_fresh) as (_ & _ & Hown & Hother & _).
  split.
  - change (ia_sessionId (attempt_for 1 1 true)) with 1%Z in Hown.
    rewrite Hown. reflexivity.
  - rewrite (Hother 2%Z); [reflexivity|]. vm_compute. discriminate.
Defined.

End StoreFacts.

(** ** The user and result tables *)

Section TablesFacts.

Import Tables.

Lemma find_snoc {A} (f : A → bool) (l : list A) (x : A) :
  List.find f (l ++ [x]) =
  match List.find f l with
  | Some y => Some y
  | None => if f x then Some x else None
  end.
Proof.
  induction l as [|h t IH]; simpl; [reflexivity|].
  destruct (f h); [reflexivity|exact IH].
Qed.

Lemma map_get_fresh {V} (k : Z) (m : list (Z * V)) :
  (∀ k' v', (k', v') ∈ m → k' ≠ k) → map_get k m = None.
Proof.
  intros H. unfold map_get.
  destruct (List.find _ m) as [[k' v']|] eqn:E; [|reflexivity].
  apply find_some_elem in E as [Hin Heq]. simpl in Heq. apply Z.eqb_eq in Heq.
  exfalso. eapply H; eauto.
Qed.

Lemma map_get_snoc {V} (k k' : Z) (v : V) (m : list (Z * V)) :
  map_get k (m ++ [(k', v)]) =
  match map_get k m with
  | Some y => Some y
  | None => if Z.eqb k' k then Some v else None
  end.
Proof.
  unfold map_get. rewrite find_snoc.
  destruct (List.find _ m); simpl; [reflexivity|].
  destruct (Z.eqb k' k); reflexivity.
Qed.

Lemma newTables_fresh : ids_fresh newTables.
Proof. split; intros k x H; simpl in H; inversion H. Qed.

(** X7.  Registering a user.  With the counters ahead of the stored ids,
    [createUser] gives the user the id of the counter, which is not in
    use, and the user can be read back by id; the users stored before are
    kept.  The name is not checked: a second user of a name is stored as
    well, and a lookup by name keeps returning the first one. *)
Theorem createUser_registers (insertUser : InsertUser) (t : Tables) :
  ids_fresh t →
  user_id (createUser insertUser t).1 = currentUserId t ∧
  user_username (createUser insertUser t).1 = iu_username insertUser ∧
  user_password (createUser insertUser t).1 = iu_password insertUser ∧
  getUser (currentUserId t) t = None ∧
  getUser (currentUserId t) (createUser insertUser t).2 = Some (createUser insertUser t).1 ∧
  (∀ id, id ≠ currentUserId t →
         getUser id (createUser insertUser t).2 = getUser id t) ∧
  (∀ name old, getUserByUsername name t = Some old →
               getUserByUsername name (createUser insertUser t).2 = Some old) ∧
  (getUserByUsername (iu_username insertUser) t = None →
   getUserByUsername (iu_username insertUser) (createUser insertUser t).2 =
     Some (createUser insertUser t).1) ∧
  (∀ name, name ≠ iu_username insertUser →
           getUserByUsername name (createUser insertUser t).2 = getUserByUsername name t) ∧
  testResults (createUser insertUser t).2 = testResults t ∧
  ids_fresh (createUser insertUser t).2.
Proof.
  intros [Husers Hresults].
  assert (Hnew : ∀ k' v', (k', v') ∈ users t → k' ≠ currentUserId t).
  { intros k' v' Hin. apply Husers in Hin. lia. }
  assert (Hset : users (createUser insertUser t).2 =
                 users t ++ [(currentUserId t, (createUser insertUser t).1)]).
  { cbn [createUser fst snd users]. apply map_set_fresh. exact Hnew. }
  assert (Hname : ∀ name,
            getUserByUsername name (createUser insertUser t).2 =
            match getUserByUsername name t with
            | Some old => Some old
            | None => if String.eqb (iu_username insertUser) name
                      then Some (createUser insertUser t).1 else None
            end).
  { intros name. unfold getUserByUsername. rewrite Hset, map_app. cbn [map snd].
    rewrite find_snoc. reflexivity. }
  split; [reflexivity|]. split; [reflexivity|]. split; [reflexivity|].
  split; [apply map_get_fresh; exact Hnew|].
  unfold getUser. rewrite Hset.
  split; [rewrite map_get_snoc, (map_get_fresh _ _ Hnew), Z.eqb_refl; reflexivity|].
  split.
  { intros id Hne. rewrite map_get_snoc. destruct (map_get id (users t)); [reflexivity|].
    destruct (Z.eqb_spec (currentUserId t) id); [congruence|reflexivity]. }
  split; [intros name old Hold; rewrite Hname, Hold; reflexivity|].
  split; [intros Hnone; rewrite Hname, Hnone, String.eqb_refl; reflexivity|].
  split.
  { intros name Hne. rewrite Hname. destruct (getUserByUsername name t); [reflexivity|].
    destruct (String.eqb_spec (iu_username insertUser) name); [congruence|reflexivity]. }
  split; [reflexivity|].
  split.
  - intros k u. rewrite Hset. cbn [createUser snd currentUserId].
    rewrite elem_of_app, list_elem_of_singleton. intros [Hin|[= -> _]]; [|lia].
    apply Husers in Hin. lia.
  - exact Hresults.
Qed.

(** Two users registered under one name get the ids 1 and 2; the name
    finds the first. *)
Lemma createUser_registers_example :
  user_id (createUser {| iu_username := "ann"; iu_password := "y" |}
             (createUser {| iu_username := "ann"; iu_password := "x" |} newTables).2).1 =
    2%Z ∧
  user_password <$>
    getUserByUsername "ann"
      (createUser {| iu_username := "ann"; iu_password := "y" |}
         (createUser {| iu_username := "ann"; iu_password := "x" |} newTables).2).2 =
    Some "x" ∧
  user_password <$>
    getUser 2
      (createUser {| iu_username := "ann"; iu_password := "y" |}
         (createUser {| iu_username := "ann"; iu_password := "x" |} newTables).2).2 =
    Some "y".
Proof.
  destruct (createUser_registers {| iu_username := "ann"; iu_password := "x" |} newTables
              newTables_fresh) as (_ & _ & _ & _ & _ & _ & _ & Hfirst & _ & _ & Hfresh).
  destruct (createUser_registers {| iu_username := "ann"; iu_password := "y" |} _ Hfresh)
    as (Hid & _ & _ & _ & Hget & _ & Hkeep & _).
  split; [rewrite Hid; reflexivity|]. split.
  - rewrite (Hkeep "ann" _ (Hfirst eq_refl)). reflexivity.
  - change 2%Z with
      (currentUserId (createUser {| iu_username := "ann"; iu_password := "x" |} newTables).2)
      at 1.
    rewrite Hget. reflexivity.
Defined.

(** X8.  Storing a result.  With the counters ahead of the stored ids,
    [createTestResult] gives the result the id of the counter and stores
    it after the results kept before.  [getTestResult] returns the first
    result stored for a session: a later result of the same session is
    stored but not returned. *)
Theorem createTestResult_first (now : Z) (insertResult : InsertTestResult) (t : Tables) :
  ids_fresh t →
  tr_id (createTestResult now insertResult t).1 = currentResultId t ∧
  tr_data (createTestResult now insertResult t).1 = insertResult ∧
  testResults (createTestResult now insertResult t).2 =
    testResults t ++ [(currentResultId t, (createTestResult now insertResult t).1)] ∧
  (∀ sid old, getTestResult sid t = Some old →
              getTestResult sid (createTestResult now insertResult t).2 = Some old) ∧
  (getTestResult (ir_sessionId insertResult) t = None →
   getTestResult (ir_sessionId insertResult) (createTestResult now insertResult t).2 =
     Some (createTestResult now insertResult t).1) ∧
  (∀ sid, sid ≠ ir_sessionId insertResult →
          getTestResult sid (createTestResult now insertResult t).2 = getTestResult sid t) ∧
  users (createTestResult now insertResult t).2 = users t ∧
  ids_fresh (createTestResult now insertResult t).2.
Proof.
  intros [Husers Hresults].
  assert (Hset : testResults (createTestResult now insertResult t).2 =
                 testResults t ++
                 [(currentResultId t, (createTestResult now insertResult t).1)]).
  { cbn [createTestResult fst snd testResults]. apply map_set_fresh.
    intros k' v' Hin. apply Hresults in Hin. lia. }
  assert (Hsid : ∀ sid,
            getTestResult sid (createTestResult now insertResult t).2 =
            match getTestResult sid t with
            | Some old => Some old
            | None => if Z.eqb (ir_sessionId insertResult) sid
                      then Some (createTestResult now insertResult t).1 else None
            end).
  { intros sid. unfold getTestResult. rewrite Hset, map_app. cbn [map snd].
    rewrite find_snoc. reflexivity. }
  split; [reflexivity|]. split; [reflexivity|]. split; [exact Hset|].
  split; [intros sid old Hold; rewrite Hsid, Hold; reflexivity|].
  split; [intros Hnone; rewrite Hsid, Hnone, Z.eqb_refl; reflexivity|].
  split.
  { intros sid Hne. rewrite Hsid. destruct (getTestResult sid t); [reflexivity|].
    destruct (Z.eqb_spec (ir_sessionId insertResult) sid); [congruence|reflexivity]. }
  split; [reflexivity|].
  split.
  - exact Husers.
  - intros k r. rewrite Hset. cbn [createTestResult snd currentResultId].
    rewrite elem_of_app, list_elem_of_singleton. intros [Hin|[= -> _]]; [|lia].
    apply Hresults in Hin. lia.
Qed.

(** Two results stored for session 1: the one read is the first. *)
Lemma createTestResult_first_example :
  ir_accuracy <$> (tr_data <$>
    getTestResult 1
      (createTestResult 20
         {| ir_sessionId := 1; ir_totalCorrect := 3; ir_totalIncorrect := 0;
            ir_totalTime := 9; ir_averageStepTime := 3; ir_accuracy := 100 |}
         (createTestResult 10
            {| ir_sessionId := 1; ir_totalCorrect := 1; ir_totalIncorrect := 1;
               ir_totalTime := 9; ir_averageStepTime := 3; ir_accuracy := 50 |}
            newTables).2).2) = Some 50%Z.
Proof.
  destruct (createTestResult_first 10
              {| ir_sessionId := 1; ir_totalCorrect := 1; ir_totalIncorrect := 1;
                 ir_totalTime := 9; ir_averageStepTime := 3; ir_accuracy := 50 |}
              newTables newTables_fresh) as (_ & _ & _ & _ & Hfirst & _ & _ & Hfresh).
  destruct (createTestResult_first 20
              {| ir_sessionId := 1; ir_totalCorrect := 3; ir_totalIncorrect := 0;
                 ir_totalTime := 9; ir_averageStepTime := 3; ir_accuracy := 100 |}
              _ Hfresh) as (_ & _ & _ & Hkeep & _).
  rewrite (Hkeep 1%Z _ (Hfirst eq_refl)). reflexivity.
Defined.

End TablesFacts.

(** ** The metrics and the step history of the hook *)

Section HookFacts.

Import Session Store Hook.

Lemma filter_partition_length {A} (f : A → bool) (l : list A) :
  (length (List.filter f l) + length (List.filter (λ a, negb (f a)) l))%nat = length l.
Proof. induction l as [|h t IH]; simpl; [reflexivity|]. destruct (f h); simpl; lia. Qed.

Lemma filter_all {A} (f : A → bool) (l : list A) :
  Forall (λ a, f a = true) l → List.filter f l = l.
Proof. induction 1 as [|h t Hh _ IH]; simpl; [reflexivity|]. rewrite Hh, IH. reflexivity. Qed.

Lemma filter_none {A} (f : A → bool) (l : list A) :
  Forall (λ a, f a = false) l → List.filter f l = [].
Proof. induction 1 as [|h t Hh _ IH]; simpl; [reflexivity|]. rewrite Hh, IH. reflexivity. Qed.

Lemma of_nat_pos (n : nat) : (0 < n)%nat → (0 < Num.of_nat n)%Q.
Proof.
  intros H. unfold Num.of_nat. change 0%Q with (inject_Z 0). rewrite <- Zlt_Qlt. lia.
Qed.

Lemma of_nat_le (n m : nat) : (n ≤ m)%nat → (Num.of_nat n <= Num.of_nat m)%Q.
Proof. intros H. unfold Num.of_nat. rewrite <- Zle_Qle. lia. Qed.

Lemma roundFixed1_close (a : Q) : (Qabs (Utils.roundFixed1 a - a) <= 1 # 20)%Q.
Proof.
  unfold Utils.roundFixed1, Utils.tenths.
  pose proof (Qfloor_le (Qabs a * 10 + (1 # 2))) as Hf.
  pose proof (Qlt_floor (Qabs a * 10 + (1 # 2))) as Hc.
  set (f := Qfloor (Qabs a * 10 + (1 # 2))) in *.
  rewrite inject_Z_plus in Hc. change (inject_Z 1) with 1%Q in Hc.
  destruct (Num.gtb 0 a) eqn:E; apply Qabs_Qle_condition.
  - apply gtb_lt in E.
    assert (Ha : (Qabs a == - a)%Q) by (apply Qabs_neg; lra).
    rewrite Ha in Hf, Hc. clearbody f. clear Ha.
    assert (Hd : (inject_Z f / 10 == inject_Z f * (1 # 10))%Q) by field.
    rewrite Hd. set (g := inject_Z f) in *. split; lra.
  - apply gtb_false_le in E.
    assert (Ha : (Qabs a == a)%Q) by (apply Qabs_pos; lra).
    rewrite Ha in Hf, Hc. clearbody f. clear Ha.
    assert (Hd : (inject_Z f / 10 == inject_Z f * (1 # 10))%Q) by field.
    rewrite Hd. set (g := inject_Z f) in *. split; lra.
Qed.

(** X9.  The metrics set from the attempts.  Without attempts the metrics
    stay as they were.  Otherwise the two click counters add up to the
    number of attempts, the accuracy is [calculateAccuracy] of the correct
    count and the number of attempts, hence between 0 and 100, 100 when
    every attempt is correct and 0 when none is; the average time is
    within 0.05 of the mean time in seconds, and the running step time is
    not touched. *)
Theorem updatePerformance_metrics (attempts : list TestAttempt) (prev : PerformanceMetrics) :
  (attempts = [] → updatePerformance attempts prev = prev) ∧
  (attempts ≠ [] →
   (correctClicks (updatePerformance attempts prev) +
    incorrectClicks (updatePerformance attempts prev))%nat = length attempts ∧
   accuracy (updatePerformance attempts prev) =
     Utils.calculateAccuracy
       (Num.of_nat (correctClicks (updatePerformance attempts prev)))
       (Num.of_nat (length attempts)) ∧
   (0 ≤ accuracy (updatePerformance attempts prev) ≤ 100)%Z ∧
   (Forall (λ a, ia_isCorrect (ta_data a) = true) attempts →
    accuracy (updatePerformance attempts prev) = 100%Z) ∧
   (Forall (λ a, ia_isCorrect (ta_data a) = false) attempts →
    accuracy (updatePerformance attempts prev) = 0%Z) ∧
   (Qabs (averageTime (updatePerformance attempts prev) -
          inject_Z (totalTime attempts) / Num.of_nat (length attempts) / 1000)
      <= 1 # 20)%Q ∧
   currentStepTime (updatePerformance attempts prev) = currentStepTime prev).
Proof.
  split; [intros ->; reflexivity|].
  intros Hne. unfold updatePerformance.
  assert (Hlen : (0 < length attempts)%nat).
  { destruct attempts; [contradiction|simpl; lia]. }
  assert (Hltb : (0 <? length attempts)%nat = true) by (apply Nat.ltb_lt; exact Hlen).
  rewrite Hltb. cbn [correctClicks incorrectClicks accuracy averageTime currentStepTime].
  pose proof (of_nat_pos _ Hlen) as Hpos.
  assert (Hle : (Num.of_nat (length (correctAttempts attempts)) <=
                 Num.of_nat (length attempts))%Q).
  { apply of_nat_le. apply List.filter_length_le. }
  assert (H0 : (0 <= Num.of_nat (length (correctAttempts attempts)))%Q).
  { unfold Num.of_nat. change 0%Q with (inject_Z 0). rewrite <- Zle_Qle. lia. }
  destruct (Qdiv_between _ _ Hpos (conj H0 Hle)) as [Hq0 Hq1].
  split; [apply filter_partition_length|].
  split.
  { unfold Utils.calculateAccuracy.
    destruct (Qeq_bool (Num.of_nat (length attempts)) 0) eqn:E; [|reflexivity].
    apply Qeq_bool_iff in E. lra. }
  split.
  { set (q := (Num.of_nat (length (correctAttempts attempts)) /
               Num.of_nat (length attempts))%Q) in *.
    apply round_between;
      [change (inject_Z 0) with 0%Q | change (inject_Z 100) with 100%Q]; lra. }
  split.
  { intros Hall. unfold correctAttempts. rewrite (filter_all _ _ Hall).
    assert (Hone : (Num.of_nat (length attempts) / Num.of_nat (length attempts) * 100
                    == 100)%Q) by (field; lra).
    unfold Num.round. rewrite Hone. reflexivity. }
  split.
  { intros Hnone. unfold correctAttempts. rewrite (filter_none _ _ Hnone).
    assert (Hzero : (Num.of_nat (length (@nil TestAttempt)) /
                     Num.of_nat (length attempts) * 100 == 0)%Q).
    { change (Num.of_nat (length (@nil TestAttempt))) with 0%Q. field. lra. }
    unfold Num.round. rewrite Hzero. reflexivity. }
  split; [apply roundFixed1_close|reflexivity].
Qed.

(** A miss of 1 s and a hit of 1.5 s: one click each, 50 percent, and
    the mean of 1.25 s shown as 1.3. *)
Lemma updatePerformance_metrics_example :
  updatePerformance
    [ {| ta_id := 1; ta_data :=
           {| ia_sessionId := 1; ia_stepNumber := 1; ia_hotspotId := "a";
              ia_clickX := 10; ia_clickY := 10; ia_expectedX := 100; ia_expectedY := 100;
              ia_isCorrect := false; ia_timeSpent := 1000 |};
         ta_attemptTime := 5 |};
      {| ta_id := 2; ta_data := attempt_for 1 1 true; ta_attemptTime := 6 |} ]
    noMetrics =
  {| correctClicks := 1; incorrectClicks := 1; averageTime := 1.3%Q;
     currentStepTime := 0; accuracy := 50 |}.
Proof.
  destruct (updatePerformance_metrics
              [ {| ta_id := 1; ta_data :=
                     {| ia_sessionId := 1; ia_stepNumber := 1; ia_hotspotId := "a";
                        ia_clickX := 10; ia_clickY := 10; ia_expectedX := 100;
                        ia_expectedY := 100; ia_isCorrect := false;
                        ia_timeSpent := 1000 |};
                   ta_attemptTime := 5 |};
                {| ta_id := 2; ta_data := attempt_for 1 1 true; ta_attemptTime := 6 |} ]
              noMetrics) as [_ H].
  vm_compute. reflexivity.
Defined.










Lemma completed_no_hotspots (total : Z) (s : TestSession) :
  session_inv total s → ts_isCompleted s = true → currentHotspots s = [].
Proof.
  intros (_ & Hlen & Hbounds & Hflag) Hdone.
  destruct Hflag as [[Htotal Hflag]|(_ & _ & Hfalse)]; [|congruence].
  rewrite Hdone in Hflag. symmetry in Hflag. rewrite Z.gtb_ltb, Z.ltb_lt in Hflag.
  unfold currentHotspots, array_get.
  destruct (Z.leb_spec 0 (ts_currentStep s - 1)); [|reflexivity].
  rewrite lookup_ge_None_2; [reflexivity|]. lia.
Qed.

(** X12.  A completed session takes no further click.  Take a session
    created with [totalSteps] equal to the number of its frames and one
    hotspot list per frame, and any clicks made on it.  Once the stored
    session is marked completed, its current step has no hotspot and no
    frame, so every later click, correct or not and whatever hotspot it
    names, returns before anything is recorded: the storage stays as it
    is, and so does the session. *)
Theorem completed_session_ignores_clicks (now : Z) (ins : InsertTestSession)
    (st0 : MemStorage) (before ks : list Click) (s : TestSession) :
  Z.of_nat (length (ins_extractedFrames ins)) = ins_totalSteps ins →
  length (ins_hotspotData ins) = length (ins_extractedFrames ins) →
  getTestSession (ts_id (createTestSession now ins st0).1)
    (clicks (Some (ts_id (createTestSession now ins st0).1)) before
       (createTestSession now ins st0).2) = Some s →
  ts_isCompleted s = true →
  hookHotspots (Some s) = [] ∧
  currentFrame (Some s) = None ∧
  clicks (Some (ts_id (createTestSession now ins st0).1)) ks
    (clicks (Some (ts_id (createTestSession now ins st0).1)) before
       (createTestSession now ins st0).2) =
  clicks (Some (ts_id (createTestSession now ins st0).1)) before
    (createTestSession now ins st0).2 ∧
  getTestSession (ts_id (createTestSession now ins st0).1)
    (clicks (Some (ts_id (createTestSession now ins st0).1)) (before ++ ks)
       (createTestSession now ins st0).2) = Some s.
Proof.
  intros Hn Hh.
  set (id := ts_id (createTestSession now ins st0).1).
  set (st := clicks (Some id) before (createTestSession now ins st0).2).
  intros Hs Hdone.
  destruct (clicks_inv (ins_totalSteps ins) id before
              (createTestSession now ins st0).2 (createTestSession now ins st0).1
              (createTestSession_lookup now ins st0)
              (createTestSession_inv now ins st0 Hn Hh)) as (s1 & Hs1 & Hinv).
  fold st in Hs1. unfold getTestSession in Hs. rewrite Hs in Hs1.
  injection Hs1 as <-.
  assert (Hframes : length (ts_extractedFrames s) = length (ts_hotspotData s) ∧
                    testSessions st !! id = Some s).
  { split; [|exact Hs]. clear Hinv Hdone. revert Hs. unfold st. clear st.
    generalize (createTestSession_lookup now ins st0). fold id.
    assert (Hlen : length (ts_extractedFrames (createTestSession now ins st0).1) =
                   length (ts_hotspotData (createTestSession now ins st0).1)).
    { simpl. symmetry. exact Hh. }
    revert Hlen.
    generalize (createTestSession now ins st0).1.
    generalize (createTestSession now ins st0).2.
    generalize id. clear. intros id st s0 Hlen Hl. revert st s0 Hlen Hl.
    induction before as [|k ks IH]; intros st s0 Hlen Hl Hs.
    - simpl in Hs. congruence.
    - unfold clicks in *. cbn [fold_left] in Hs.
      assert (Hstep : ∃ s1, testSessions (click (Some id) st k) !! id = Some s1 ∧
                            length (ts_extractedFrames s1) = length (ts_hotspotData s1)).
      { unfold click.
        destruct (useSession (Some id) st) as [session|] eqn:Hu.
        2:{ unfold handleHotspotClick. rewrite Hu. eauto. }
        pose proof (useSession_lookup _ _ _ Hu) as (id' & [= <-] & _ & Hl').
        assert (session = s0) as -> by congruence.
        destruct (List.find (λ h, String.eqb (hotspot_id h) (k_hotspotId k))
                    (currentHotspots s0)) as [target|] eqn:Hf.
        2:{ unfold handleHotspotClick. rewrite Hu, Hf. eauto. }
        rewrite (handleHotspotClick_found _ _ _ _ _ _ _ _ _ _ Hu Hf). cbn [testSessions].
        destruct (k_isCorrect k); [|eauto].
        rewrite lookup_insert_eq. eexists. split; [reflexivity|]. exact Hlen. }
      destruct Hstep as (s1 & Hl1 & Hlen1).
      exact (IH _ s1 Hlen1 Hl1 Hs). }
  destruct Hframes as [Hframes _].
  pose proof (completed_no_hotspots (ins_totalSteps ins) s Hinv Hdone) as Hnone.
  assert (Hframe : currentFrame (Some s) = None).
  { destruct Hinv as (_ & Hlen & Hbounds & Hflag).
    destruct Hflag as [[Htotal Hflag]|(_ & _ & Hfalse)]; [|congruence].
    rewrite Hdone in Hflag. symmetry in Hflag. rewrite Z.gtb_ltb, Z.ltb_lt in Hflag.
    unfold currentFrame, array_get.
    destruct (Z.leb_spec 0 (ts_currentStep s - 1)); [|reflexivity].
    rewrite lookup_ge_None_2; [reflexivity|]. lia. }
  split; [exact Hnone|]. split; [exact Hframe|].
  assert (Hsame : clicks (Some id) ks st = st).
  { induction ks as [|k ks IH]; [reflexivity|].
    unfold clicks in *. cbn [fold_left].
    assert (Hk : click (Some id) st k = st).
    { unfold click, handleHotspotClick, useSession.
      destruct (Z.eqb id 0); [reflexivity|].
      unfold getTestSession. rewrite Hs, Hnone. reflexivity. }
    rewrite Hk. exact IH. }
  split; [exact Hsame|].
  unfold clicks. rewrite fold_left_app. fold (clicks (Some id) before
    (createTestSession now ins st0).2). fold st. fold (clicks (Some id) ks st).
  rewrite Hsame. exact Hs.
Qed.

(** After the three steps are done, two more clicks change nothing. *)
Lemma completed_session_ignores_clicks_example :
  clicks (Some 1%Z) [Examples.hit "c" 6000; Examples.miss "a" 7000]
    (clicks (Some 1%Z)
       [Examples.hit "a" 3000; Examples.hit "b" 4000; Examples.hit "c" 5000]
       Examples.started) =
  clicks (Some 1%Z)
    [Examples.hit "a" 3000; Examples.hit "b" 4000; Examples.hit "c" 5000]
    Examples.started.
Proof.
  apply (completed_session_ignores_clicks 1000 Examples.three_steps newStorage
           [Examples.hit "a" 3000; Examples.hit "b" 4000; Examples.hit "c" 5000]
           [Examples.hit "c" 6000; Examples.miss "a" 7000]
           (default Examples.started_session
              (getTestSession 1
                 (clicks (Some 1%Z)
                    [Examples.hit "a" 3000; Examples.hit "b" 4000; Examples.hit "c" 5000]
                    Examples.started)))).
  - reflexivity.
  - reflexivity.
  - vm_compute. reflexivity.
  - vm_compute. reflexivity.
Defined.

(** X13.  The simulated upload progress.  Started at 0 and advanced by the
    timer, the progress after [n] ticks is [10 n] up to 90 and stays at 90
    from the ninth tick on: the ticks alone never show a finished upload. *)
Theorem upload_progress_ticks (n : nat) :
  Nat.iter n progressTick 0%Z = Z.min (10 * Z.of_nat n) 90 ∧
  (Nat.iter n progressTick 0%Z ≤ 90)%Z ∧
  (Nat.iter n progressTick 0%Z ≤ Nat.iter (S n) progressTick 0%Z)%Z.
Proof.
  assert (H : ∀ m, Nat.iter m progressTick 0%Z = Z.min (10 * Z.of_nat m) 90).
  { induction m as [|m IH]; [reflexivity|].
    change (Nat.iter (S m) progressTick 0%Z)
      with (progressTick (Nat.iter m progressTick 0%Z)).
    rewrite IH. unfold progressTick.
    destruct (Z.leb_spec 90 (Z.min (10 * Z.of_nat m) 90)); lia. }
  rewrite !H. lia.
Qed.

End HookFacts.

(** ** The analysis of the upload route *)

Section AnalysisFacts.

Import Pipeline Routes.

Lemma segment_of_log_more (lines : list line) (l : line) (g : segment) :
  segment_of_log lines g → segment_of_log (lines ++ [l]) g.
Proof.
  intros (Hlong & Hstart & l2 & Hl2 & Hend). split; [exact Hlong|]. split.
  - destruct Hstart as [H0|(l1 & Hl1 & H1)]; [left; exact H0|].
    right. exists l1. split; [apply elem_of_app; left; exact Hl1|exact H1].
  - exists l2. split; [apply elem_of_app; left; exact Hl2|exact Hend].
Qed.

Lemma audio_loop_segments (lines : list line) :
  Forall (segment_of_log lines) (speechSegments (audio_loop lines)) ∧
  (lastSpeechEnd (audio_loop lines) = 0%Q ∨
   ∃ l, l ∈ lines ∧ incl_silence_end l = true ∧
        match_silence_end l = Some (lastSpeechEnd (audio_loop lines))).
Proof.
  induction lines as [|l lines IH] using rev_ind.
  - split; [constructor|left; reflexivity].
  - destruct IH as [IHseg IHlast].
    assert (Hseg : Forall (segment_of_log (lines ++ [l])) (speechSegments (audio_loop lines))).
    { eapply Forall_impl; [exact IHseg|]. intros g. apply segment_of_log_more. }
    assert (Hlast : lastSpeechEnd (audio_loop lines) = 0%Q ∨
                    ∃ l', l' ∈ lines ++ [l] ∧ incl_silence_end l' = true ∧
                          match_silence_end l' = Some (lastSpeechEnd (audio_loop lines))).
    { destruct IHlast as [H0|(l1 & Hl1 & H1)]; [left; exact H0|].
      right. exists l1. split; [apply elem_of_app; left; exact Hl1|exact H1]. }
    assert (Hl : l ∈ lines ++ [l]) by (apply elem_of_app; right; apply list_elem_of_here).
    unfold audio_loop in *. rewrite fold_left_app. cbn [fold_left].
    set (s := fold_left audio_step lines audio_init) in *.
    unfold audio_step.
    destruct (incl_silence_start l) eqn:Estart.
    + destruct (match_silence_start l) as [start|] eqn:Em; [|split; assumption].
      destruct (silenceStart s); [split; assumption|].
      cbn [speechSegments lastSpeechEnd]. split; [|exact Hlast].
      destruct (Num.gtb start (lastSpeechEnd s + 3)) eqn:E; [|exact Hseg].
      apply Forall_app. split; [exact Hseg|]. constructor; [|constructor].
      split; [cbn; apply gtb_lt in E; lra|]. split; [exact Hlast|].
      exists l. split; [exact Hl|]. split; [exact Estart|exact Em].
    + destruct (incl_silence_end l && bool_decide (silenceStart s ≠ None)) eqn:Eend;
        [|split; assumption].
      destruct (match_silence_end l) as [e|] eqn:Em; [|split; assumption].
      cbn [speechSegments lastSpeechEnd]. split; [exact Hseg|].
      right. exists l. apply andb_true_iff in Eend as [Eend _].
      split; [exact Hl|]. split; [exact Eend|exact Em].
Qed.

(** X14.  The speech segments read from the audio log.  Every segment that
    the scan of the log emits is longer than 3 seconds; it starts at 0 or
    at the time of a silence end of the log, and it ends at the time of a
    silence start of the log.  The 2-second segments of the fallback grid
    are never the result of a scan. *)
Theorem parsed_segments_from_log (lines : list line) :
  Forall (segment_of_log lines) (parse_audio lines) ∧
  (∀ g, g ∈ parse_audio lines → (3 < seg_end g - seg_start g)%Q) ∧
  (∀ g, g ∈ fallback_segments → g ∉ parse_audio lines).
Proof.
  pose proof (proj1 (audio_loop_segments lines)) as H.
  split; [exact H|].
  assert (Hlong : ∀ g, g ∈ parse_audio lines → (3 < seg_end g - seg_start g)%Q).
  { intros g Hg. unfold parse_audio in Hg.
    rewrite Forall_forall in H. apply H in Hg. apply Hg. }
  split; [exact Hlong|].
  intros g Hg Hin. apply Hlong in Hin.
  apply list_elem_of_lookup in Hg as [i Hi].
  assert (Hlt : i < 20).
  { apply lookup_lt_Some in Hi. rewrite fallback_segments_length in Hi. exact Hi. }
  rewrite (fallback_segments_lookup i Hlt) in Hi. injection Hi as <-.
  cbn [seg_start seg_end] in Hin. lra.
Qed.

Lemma cursor_loop_run (random : nat → Q) (lines : list line) :
  ∀ (acc : list ClickEvent) (s : state),
    cursor_loop random lines acc s =
    (Some (acc ++ imap (λ i c, click_candidate c.1 c.2 (random (rng s + 2 * i))
                                 (random (rng s + 2 * i + 1)))
                     (omap scene_change lines)),
     {| fs := fs s;
        rng := rng s + 2 * length (omap scene_change lines);
        console := console s |}).
Proof.
  induction lines as [|l lines IH]; intros acc s.
  - cbn. rewrite ret_run, app_nil_r. destruct s; simpl. do 2 f_equal. lia.
  - cbn [cursor_loop omap list_omap].
    assert (Hl : scene_change l =
                 match match_pts_time l, match_scene l with
                 | Some timestamp, Some sceneScore =>
                     if Num.gtb sceneScore 0.4 then Some (timestamp, sceneScore) else None
                 | _, _ => None
                 end) by reflexivity.
    destruct (match_pts_time l) as [timestamp|]; [|rewrite Hl; apply IH].
    destruct (match_scene l) as [sceneScore|]; [|rewrite Hl; apply IH].
    destruct (Num.gtb sceneScore 0.4); rewrite Hl; [|apply IH].
    rewrite bind_run. unfold mathRandom at 1.
    rewrite bind_run. unfold mathRandom at 1.
    rewrite IH. cbn [fs rng console imap length fst snd]. f_equal.
    + f_equal. rewrite <- app_assoc. f_equal. cbn [app]. f_equal.
      * f_equal; f_equal; lia.
      * apply imap_ext. intros i c _. cbn. f_equal; f_equal; lia.
    + f_equal. lia.
Qed.

Lemma scene_change_score (l : line) (c : Q * Q) :
  scene_change l = Some c → (0.4 < c.2)%Q.
Proof.
  unfold scene_change. destruct (match_pts_time l); [|discriminate].
  destruct (match_scene l) as [sceneScore|]; [|discriminate].
  destruct (Num.gtb sceneScore 0.4) eqn:E; [|discriminate].
  intros [= <-]. apply gtb_lt in E. exact E.
Qed.

Lemma click_candidate_confidence (timestamp sceneScore rx ry : Q) :
  (0.4 < sceneScore)%Q →
  (0.4 < ce_confidence (click_candidate timestamp sceneScore rx ry) <= 1)%Q.
Proof.
  intros H. cbn [click_candidate ce_confidence]. unfold Num.min.
  destruct (Q.min_spec sceneScore 1) as [[Hlt Heq]|[Hle Heq]]; rewrite Heq; lra.
Qed.

Lemma click_candidate_position (timestamp sceneScore rx ry : Q) :
  (0 <= rx < 1)%Q → (0 <= ry < 1)%Q →
  ∃ x y, ce_x (click_candidate timestamp sceneScore rx ry) = Some x ∧
         ce_y (click_candidate timestamp sceneScore rx ry) = Some y ∧
         (400 <= x < 600)%Q ∧ (200 <= y < 400)%Q ∧
         ev_x (click_event (click_candidate timestamp sceneScore rx ry)) = x ∧
         ev_y (click_event (click_candidate timestamp sceneScore rx ry)) = y.
Proof.
  intros Hx Hy. eexists _, _. split; [reflexivity|]. split; [reflexivity|].
  split; [lra|]. split; [lra|].
  cbn [click_event click_candidate ev_x ev_y ce_x ce_y Num.or_else].
  split.
  - destruct (Qeq_bool (400 + rx * 200) 0) eqn:E; [|reflexivity].
    apply Qeq_bool_iff in E. lra.
  - destruct (Qeq_bool (200 + ry * 200) 0) eqn:E; [|reflexivity].
    apply Qeq_bool_iff in E. lra.
Qed.

(** X15.  The click candidates read from the scene-change log.  The loop
    never throws and touches neither the files nor the console.  It keeps
    one candidate for each line that has a timestamp and a scene score
    above 0.4, in the order of the log, with that timestamp and a
    confidence of min(score, 1), which lies in (0.4, 1].  The position is
    drawn at random for each candidate (two values of the source each):
    with a source in [0, 1) it lies in [400, 600) x [200, 400), so the
    default position of the merge (400, 300) is never used. *)
Theorem click_candidates_of_log (random : nat → Q) (lines : list line) (s : state) :
  ∃ (clickEvents : list ClickEvent) (s' : state),
    cursor_loop random lines [] s = (Some clickEvents, s') ∧
    fs s' = fs s ∧ console s' = console s ∧
    rng s' = rng s + 2 * length clickEvents ∧
    map ce_timestamp clickEvents = map fst (omap scene_change lines) ∧
    map ce_confidence clickEvents =
      map (λ c, Num.min c.2 1) (omap scene_change lines) ∧
    Forall (λ c, (0.4 < ce_confidence c <= 1)%Q) clickEvents ∧
    ((∀ n, (0 <= random n < 1)%Q) →
     Forall (λ c, ∃ x y, ce_x c = Some x ∧ ce_y c = Some y ∧
                         (400 <= x < 600)%Q ∧ (200 <= y < 400)%Q ∧
                         ev_x (click_event c) = x ∧ ev_y (click_event c) = y)
       clickEvents).
Proof.
  eexists _, _. split; [apply cursor_loop_run|].
  cbn [fs console rng app]. split; [reflexivity|]. split; [reflexivity|].
  split; [rewrite length_imap; reflexivity|].
  split.
  { apply list_eq. intros i. rewrite !list_lookup_fmap, list_lookup_imap.
    destruct (omap scene_change lines !! i); reflexivity. }
  split.
  { apply list_eq. intros i. rewrite !list_lookup_fmap, list_lookup_imap.
    destruct (omap scene_change lines !! i); reflexivity. }
  split.
  { apply Forall_forall. intros c Hc. apply elem_of_lookup_imap in Hc as (i & c0 & -> & Hi).
    apply list_elem_of_lookup_2 in Hi. apply list_elem_of_omap in Hi as (l & _ & Hl).
    apply click_candidate_confidence. eapply scene_change_score. exact Hl. }
  intros Hrandom. apply Forall_forall. intros c Hc.
  apply elem_of_lookup_imap in Hc as (i & c0 & -> & Hi).
  apply click_candidate_position; apply Hrandom.
Qed.

(** X16.  The merge of the candidates.  The combined list is the speech
    events followed by the click events, sorted by timestamp: it has all
    of them and nothing else, is in ascending order of timestamp, and
    keeps events of equal timestamp in their order before the sort, the
    speech events before the click events. *)
Theorem combined_events_order (random : nat → Q) (segments : list segment)
    (clickEvents : list ClickEvent) (s : state) :
  ∃ (speech events : list Event) (s' : state),
    speech_events random segments s = (Some speech, s') ∧
    combined_events random segments clickEvents s = (Some events, s') ∧
    events ≡ₚ speech ++ map click_event clickEvents ∧
    length events = length segments + length clickEvents ∧
    StronglySorted earlier events ∧
    (∀ t, List.filter (λ e, Qeq_bool (ev_timestamp e) t) events =
          List.filter (λ e, Qeq_bool (ev_timestamp e) t) speech ++
          List.filter (λ e, Qeq_bool (ev_timestamp e) t) (map click_event clickEvents)).
Proof.
  eexists _, _, _. split; [apply speech_events_run|].
  split.
  { unfold combined_events. rewrite bind_run, speech_events_run, ret_run. reflexivity. }
  split; [apply sort_events_perm|].
  split.
  { rewrite sort_events_length, length_app, length_imap, length_map. reflexivity. }
  split; [apply sort_events_sorted|].
  intros t. rewrite sort_events_stable. apply List.filter_app.
Qed.

End AnalysisFacts.

(** ** The responses of the upload route *)

Section UploadFacts.

Import Pipeline Routes.

Variable exec : command → gmap string node → bool * gmap string node.
Variable random : nat → Q.

Lemma candidates_confidence (n : nat) (lines : list line) :
  Forall (λ c, (0.4 < ce_confidence c <= 1)%Q)
    (imap (λ i c, click_candidate c.1 c.2 (random (n + 2 * i)) (random (n + 2 * i + 1)))
       (omap scene_change lines)).
Proof.
  apply Forall_forall. intros c Hc. apply elem_of_lookup_imap in Hc as (i & c0 & -> & Hi).
  apply list_elem_of_lookup_2 in Hi. apply list_elem_of_omap in Hi as (l & _ & Hl).
  apply click_candidate_confidence. eapply scene_change_score. exact Hl.
Qed.

Lemma read_click_events_confidence (outputDir : string) (s s' : state)
    (clickEvents : list ClickEvent) :
  read_click_events random outputDir s = (Some clickEvents, s') →
  Forall (λ c, (0.4 < ce_confidence c <= 1)%Q) clickEvents.
Proof.
  unfold read_click_events. rewrite try_catch_run, bind_run.
  unfold readFileSync at 1.
  destruct (fs s !! cursor_path outputDir) as [[|lines]|].
  1,3: rewrite bind_run, log_run, ret_run; intros [= <- _]; constructor.
  rewrite bind_run, cursor_loop_run, bind_run, log_run, ret_run. intros [= <- _].
  apply (candidates_confidence (rng s) lines).
Qed.

Lemma combined_events_elem (segments : list segment) (clickEvents : list ClickEvent)
    (s s' : state) (events : list Event) (e : Event) :
  combined_events random segments clickEvents s = (Some events, s') → e ∈ events →
  (∃ seg rx ry, e = speech_event seg rx ry) ∨
  (∃ c, c ∈ clickEvents ∧ e = click_event c).
Proof.
  unfold combined_events. rewrite bind_run, speech_events_run, ret_run.
  intros [= <- _] He. rewrite sort_events_perm in He.
  apply elem_of_app in He as [He|He].
  - apply elem_of_lookup_imap in He as (i & seg & -> & _). left. eauto.
  - apply list_elem_of_fmap in He as (c & -> & Hc). right. eauto.
Qed.

(** The outcomes of the route, by request. *)
Lemma uploadVideo_cases (now : N) (req : Request) (s s' : state) (r : response) :
  uploadVideo exec random now req s = (Some r, s') →
  (req_file req = None ∧ r = BadRequest ∧ s' = s) ∨
  (∃ videoPath, req_file req = Some videoPath ∧
     ((r = ServerError ∧
       ∃ s0, fs s' = fs s0 ∧ console s' = console s0 ++ [LogProcessingError] ∧
             (never_removes exec → ∀ p, is_Some (fs s !! p) → is_Some (fs s0 !! p))) ∨
      (req_quickMode req = Some "true" ∧
       ∃ s1, quick_mode exec videoPath (outputDir_of now) s1 = (Some r, s')) ∨
      (req_quickMode req ≠ Some "true" ∧
       ∃ s1, smart_mode exec random videoPath (outputDir_of now) s1 = (Some r, s')))).
Proof.
  unfold uploadVideo. rewrite try_catch_run. intros H.
  destruct (req_file req) as [videoPath|] eqn:Efile.
  2:{ rewrite ret_run in H. injection H as <- <-. left. auto. }
  right. exists videoPath. split; [reflexivity|].
  match type of H with
  | match ?body s with _ => _ end = _ =>
      assert (Hkeep : never_removes exec → ∀ p, survives_failing p body);
      [|destruct (body s) as [[r0|] s0] eqn:Ebody]
  end.
  { intros Hnr p.
    apply survives_failing_bind; [apply keeps_survives, keeps_existsSync|].
    intros present.
    apply survives_failing_bind.
    { destruct present; apply keeps_survives; [apply keeps_ret | apply keeps_mkdirSync]. }
    intros _. apply survives_failing_bind; [apply keeps_survives, keeps_mkdirSync|].
    intros _.
    destruct (bool_decide _);
      [apply survives_failing_quick_mode | apply survives_failing_smart_mode]; exact Hnr. }
  - injection H as -> ->. right.
    apply bind_Some in Ebody as (present & sa & _ & H).
    apply bind_Some in H as ([] & sb & _ & H).
    apply bind_Some in H as ([] & s1 & _ & H).
    destruct (bool_decide (req_quickMode req = Some "true")) eqn:Eq.
    + left. apply bool_decide_eq_true in Eq. eauto.
    + right. apply bool_decide_eq_false in Eq. eauto.
  - rewrite bind_run, log_run, ret_run in H. injection H as <- <-. left.
    split; [reflexivity|]. exists s0. split; [reflexivity|]. split; [reflexivity|].
    intros Hnr p Hsome. exact (Hkeep Hnr p s s0 Ebody Hsome).
Qed.

(** X17.  The kind of the response.  The request is rejected as a bad request
    exactly when it carries no file, and then nothing is changed or
    logged.  A quick-mode response is given only when the form field
    quickMode is the text true, a smart-mode response only when it is
    anything else or absent; both list the urls of their descriptors, in
    order.  A server error is logged as a processing error. *)
Theorem response_by_request (now : N) (req : Request) (s s' : state) (r : response) :
  uploadVideo exec random now req s = (Some r, s') →
  (r = BadRequest ↔ req_file req = None) ∧
  (r = BadRequest → s' = s) ∧
  (∀ frames frameAnalysis, r = QuickOk frames frameAnalysis →
     req_quickMode req = Some "true" ∧ frames = map fd_url frameAnalysis) ∧
  (∀ frames frameAnalysis n m, r = SmartOk frames frameAnalysis n m →
     req_quickMode req ≠ Some "true" ∧ frames = map fd_url frameAnalysis) ∧
  (r = ServerError → last (console s') = Some LogProcessingError).
Proof.
  intros H. apply uploadVideo_cases in H.
  destruct H as [(Hfile & -> & ->)|(videoPath & Hfile & H)].
  { split; [split; auto|]. split; [auto|]. repeat split; discriminate. }
  destruct H as [(-> & s0 & _ & Hlog & _)|[(Hq & s1 & H)|(Hq & s1 & H)]].
  - split; [split; [discriminate|congruence]|]. split; [discriminate|].
    split; [discriminate|]. split; [discriminate|].
    intros _. rewrite Hlog. apply last_snoc.
  - apply quick_mode_inv in H as (names & _ & _ & _ & _ & _ & ->).
    split; [split; [discriminate|congruence]|]. split; [discriminate|].
    split; [intros frames fa [= <- <-]; auto|].
    split; discriminate.
  - apply smart_mode_inv in H
      as (sa & segments & s2 & clicks & s3 & events & s4 & frameData & s5 &
          _ & _ & _ & _ & _ & _ & ->).
    split; [split; [discriminate|congruence]|]. split; [discriminate|].
    split; [discriminate|].
    split; [intros frames fa n m [= <- <- _ _]; auto|discriminate].
Qed.

Lemma filter_ext_Forall {A} (f g : A → bool) (l : list A) :
  Forall (λ x, f x = g x) l → List.filter f l = List.filter g l.
Proof.
  induction 1 as [|x l Hx _ IH]; [reflexivity|]. simpl. rewrite Hx, IH. reflexivity.
Qed.

(** X18.  The descriptors of a smart-mode response.  Each descriptor is of
    type speech, with confidence 0.7 and not selected, or of type click,
    with a confidence in (0.4, 1] and selected: the frames that the
    selection page shows as selected after a smart-mode upload are exactly
    the click frames. *)
Theorem smart_frames_by_type (now : N) (req : Request) (s s' : state)
    (frames : list string) (frameAnalysis : list FrameData) (n m : nat) :
  uploadVideo exec random now req s = (Some (SmartOk frames frameAnalysis n m), s') →
  Forall (λ fd, (fd_type fd = "speech" ∧ fd_selected fd = false ∧
                 cd_confidence (fd_clickData fd) = 0.7%Q) ∨
                (fd_type fd = "click" ∧ fd_selected fd = true ∧
                 (0.4 < cd_confidence (fd_clickData fd) <= 1)%Q)) frameAnalysis ∧
  Admin.selectedFrames frameAnalysis =
    List.filter (λ fd, String.eqb (fd_type fd) "click") frameAnalysis ∧
  Admin.testFrames frameAnalysis =
    map fd_url (List.filter (λ fd, String.eqb (fd_type fd) "click") frameAnalysis).
Proof.
  intros H.
  apply uploadVideo_cases in H
    as [(_ & Hr & _)|(v & _ & [(Hr & _)|[(_ & s1 & H)|(_ & s1 & H)]])]; try discriminate.
  { apply quick_mode_inv in H as (names & _ & _ & _ & _ & _ & Hr). discriminate. }
  apply smart_mode_inv in H
    as (sa & segments & s2 & clicks & s3 & events & s4 & frameData & s5 &
        _ & _ & Hclicks & Hevents & Hframes & _ & Hr).
  injection Hr as _ -> _ _.
  assert (Hall : Forall (λ fd, (fd_type fd = "speech" ∧ fd_selected fd = false ∧
                                cd_confidence (fd_clickData fd) = 0.7%Q) ∨
                               (fd_type fd = "click" ∧ fd_selected fd = true ∧
                                (0.4 < cd_confidence (fd_clickData fd) <= 1)%Q))
                   frameData).
  { apply Forall_forall. intros fd Hfd.
    destruct (extract_frames_elem _ _ _ _ _ _ _ _ Hframes Hfd) as (i & event & _ & Hev & ->).
    apply list_elem_of_lookup_2 in Hev.
    destruct (combined_events_elem _ _ _ _ _ _ Hevents Hev)
      as [(seg & rx & ry & ->)|(c & Hc & ->)].
    - left. split; [reflexivity|]. split; reflexivity.
    - right. split; [reflexivity|]. split; [reflexivity|].
      pose proof (read_click_events_confidence _ _ _ _ Hclicks) as Hconf.
      rewrite Forall_forall in Hconf. exact (Hconf c Hc). }
  assert (Hsel : Admin.selectedFrames frameData =
                 List.filter (λ fd, String.eqb (fd_type fd) "click") frameData).
  { unfold Admin.selectedFrames. apply filter_ext_Forall.
    eapply Forall_impl; [exact Hall|]. intros fd [(-> & -> & _)|(-> & -> & _)]; reflexivity. }
  split; [exact Hall|]. split; [exact Hsel|].
  unfold Admin.testFrames. rewrite Hsel. reflexivity.
Qed.

(** X19.  The upload after a failure.  When the route answers with a server
    error and the external commands remove no entry themselves, every
    entry of the file system that existed before the request still
    exists: the only removal of the route is at the end of the two
    successful paths, and a run that fails has not done it.  So the
    uploaded video, which the successful runs remove, stays on disk.
    The error is logged as a processing error. *)
Theorem upload_kept_on_failure (now : N) (req : Request) (s s' : state)
    (videoPath : string) :
  uploadVideo exec random now req s = (Some ServerError, s') →
  req_file req = Some videoPath →
  never_removes exec →
  (is_Some (fs s !! videoPath) → is_Some (fs s' !! videoPath)) ∧
  (∀ p, is_Some (fs s !! p) → is_Some (fs s' !! p)) ∧
  last (console s') = Some LogProcessingError.
Proof.
  intros H Hfile Hnr.
  apply uploadVideo_cases in H
    as [(_ & Hr & _)|(v & _ & [(_ & s0 & Hfs & Hlog & Hkeep)|[(_ & s1 & H)|(_ & s1 & H)]])].
  - discriminate.
  - rewrite Hfs. split; [exact (Hkeep Hnr videoPath)|].
    split; [exact (Hkeep Hnr)|]. rewrite Hlog. apply last_snoc.
  - apply quick_mode_inv in H as (names & _ & _ & _ & _ & _ & Hr). discriminate.
  - apply smart_mode_inv in H
      as (sa & segments & s2 & clicks & s3 & events & s4 & frameData & s5 &
          _ & _ & _ & _ & _ & _ & Hr).
    discriminate.
Qed.

End UploadFacts.

(** A quick request whose extraction succeeds gives a quick response
    that lists the urls of its two descriptors. *)
Lemma response_by_request_example :
  ∃ (frames : list string) (frameAnalysis : list Pipeline.FrameData),
    Examples.quick_run.1 = Some (Pipeline.QuickOk frames frameAnalysis) ∧
    frames = map Pipeline.fd_url frameAnalysis ∧
    length frameAnalysis = 2.
Proof.
  exists (map Pipeline.fd_url Examples.quick_frames), Examples.quick_frames.
  assert (Hrun : Pipeline.uploadVideo
                   (Examples.exec_ok [] [] ["quick_002.png"; "quick_001.png"])
                   Examples.random10 7 Examples.quick_request Examples.uploaded =
                 (Some (Pipeline.QuickOk (map Pipeline.fd_url Examples.quick_frames)
                          Examples.quick_frames), Examples.quick_run.2)).
  { vm_compute. reflexivity. }
  destruct (response_by_request _ _ _ _ _ _ _ Hrun) as (_ & _ & Hquick & _).
  destruct (Hquick _ _ eq_refl) as [_ Hurls].
  split; [vm_compute; reflexivity|]. split; [reflexivity|]. vm_compute. reflexivity.
Defined.

(** The smart-mode run on the example logs: a speech frame, a click
    frame and a speech frame, of which the click frame is selected. *)
Lemma smart_frames_by_type_example :
  map Pipeline.fd_type Examples.smart_frames = ["speech"; "click"; "speech"] ∧
  map Pipeline.fd_type (Admin.selectedFrames Examples.smart_frames) = ["click"].
Proof.
  assert (Hrun : Pipeline.uploadVideo
                   (Examples.exec_ok Examples.audio_5_6_20
                      [Pipeline.showinfo_line 3 0.5; Pipeline.showinfo_line 7 0.3] [])
                   Examples.random10 7 Examples.smart_request Examples.uploaded =
                 (Some (Pipeline.SmartOk (map Pipeline.fd_url Examples.smart_frames)
                          Examples.smart_frames 2 1), Examples.smart_run.2)).
  { vm_compute. reflexivity. }
  destruct (smart_frames_by_type _ _ _ _ _ _ _ _ _ _ Hrun) as (_ & Hsel & _).
  split; [vm_compute; reflexivity|]. rewrite Hsel. vm_compute. reflexivity.
Defined.

(** A quick request, every command resolving and writing its files,
    whose working directory exists already: the route answers with a
    server error before any command is run, and the upload is still on
    disk. *)
Lemma upload_kept_on_failure_example :
  Examples.repeated_run.1 = Some Pipeline.ServerError ∧
  Pipeline.console Examples.repeated_run.2 = [Pipeline.LogProcessingError] ∧
  is_Some (Pipeline.fs Examples.repeated_run.2 !! "uploads/v1").
Proof.
  assert (Hrun : Pipeline.uploadVideo (Examples.exec_ok [] [] ["quick_001.png"])
                   Examples.random10 7 Examples.quick_request Examples.uploaded_again =
                 (Some Pipeline.ServerError, Examples.repeated_run.2)).
  { vm_compute. reflexivity. }
  destruct (upload_kept_on_failure _ _ _ _ _ _ "uploads/v1" Hrun) as (Hkept & _).
  - reflexivity.
  - apply exec_ok_never_removes.
  - split; [vm_compute; reflexivity|]. split; [vm_compute; reflexivity|].
    apply Hkept. vm_compute. eauto.
Defined.

(** ** The overlays of the test display *)

Section DisplayFacts.

Import Scorer Display.

Lemma overlays_no_img (currentHotspots : list HotspotData) :
  querySelector_img (overlays currentHotspots) = None.
Proof.
  unfold overlays, querySelector_img, plain.
  induction currentHotspots as [|h l IH]; [reflexivity|]. exact IH.
Qed.

(** The elements with a click handler are the overlays, the children of
    the second child of the third child of the root. *)
Lemma handler_paths (session : option Session.TestSession)
    (currentFrame : option string) (image : Image)
    (currentHotspots : list HotspotData) (path : list nat)
    (tag : string) (hotspot : HotspotData) (children : list element) :
  child_at path (TestDisplay session currentFrame image currentHotspots) =
    Some (Node tag (Some hotspot) children) →
  ∃ k, path = [2; 1; k] ∧ currentHotspots !! k = Some hotspot ∧
       parentElement (TestDisplay session currentFrame image currentHotspots) path =
         Some (overlays currentHotspots).
Proof.
  unfold TestDisplay.
  assert (Hplace : ∀ path,
    child_at path
      (plain "main"
         [plain "div" [plain "div" [plain "svg" []]; plain "h2" []; plain "p" []]]) ≠
    Some (Node tag (Some hotspot) children)).
  { clear. intros path.
    destruct path as [|[|i] path]; [discriminate| |discriminate].
    destruct path as [|[|[|[|i]]] path]; try discriminate.
    - destruct path as [|[|i] path]; try discriminate.
      destruct path as [|i path]; discriminate.
    - destruct path as [|i path]; discriminate.
    - destruct path as [|i path]; discriminate. }
  destruct session as [sess|]; [|intros H; destruct (Hplace _ H)].
  destruct currentFrame as [frame|]; [|intros H; destruct (Hplace _ H)].
  destruct (String.eqb frame ""); [intros H; destruct (Hplace _ H)|].
  clear Hplace.
  destruct path as [|[|[|[|i]]] path]; try discriminate.
  - destruct path as [|[|i] path]; try discriminate.
    destruct path as [|[|[|i]] path]; try discriminate;
      destruct path as [|i path]; discriminate.
  - destruct path as [|[|i] path]; try discriminate.
    destruct path as [|[|[|i]] path]; try discriminate;
      destruct path as [|i path]; discriminate.
  - destruct path as [|[|[|i]] path]; try discriminate.
    + destruct path as [|i path]; discriminate.
    + destruct path as [|k path]; [discriminate|].
      cbn [child_at screenshotArea plain overlays lookup list_lookup].
      rewrite list_lookup_fmap.
      destruct (currentHotspots !! k) as [h|] eqn:E; [|discriminate].
      cbn [fmap option_fmap option_map overlay].
      destruct path as [|j path]; [|discriminate].
      cbn [child_at]. intros [= _ <- _].
      exists k. split; [reflexivity|]. split; [exact E|]. reflexivity.
Qed.

(** X20.  The test display reports no click.  The click handler of an
    overlay looks for the image with [querySelector] among the
    descendants of the parent of the overlay.  That parent is the
    container of the overlays, which holds nothing but the overlays; the
    image is a sibling of the container, found only from the screenshot
    area one level up.  So the handler finds no image and returns before
    it reports anything, for every session, frame, list of hotspots and
    mouse event, whichever element of the rendered tree is clicked. *)
Theorem display_reports_no_click (session : option Session.TestSession)
    (currentFrame : option string) (image : Image)
    (currentHotspots : list HotspotData) :
  (∀ (path : list nat) (clientX clientY left top stepTimer : Q),
     clickElement (TestDisplay session currentFrame image currentHotspots) path
       clientX clientY left top stepTimer = None) ∧
  querySelector_img (overlays currentHotspots) = None ∧
  querySelector_img (screenshotArea image currentHotspots) = Some image ∧
  (∀ (sess : Session.TestSession) (frame : string) (k : nat) (hotspot : HotspotData),
     session = Some sess → currentFrame = Some frame → frame ≠ "" →
     currentHotspots !! k = Some hotspot →
     child_at [2; 1; k] (TestDisplay session currentFrame image currentHotspots) =
       Some (overlay hotspot) ∧
     parentElement (TestDisplay session currentFrame image currentHotspots) [2; 1; k] =
       Some (overlays currentHotspots) ∧
     parentElement (TestDisplay session currentFrame image currentHotspots) [2; 1] =
       Some (screenshotArea image currentHotspots)).
Proof.
  split.
  { intros path clientX clientY left top stepTimer. unfold clickElement.
    destruct (child_at path (TestDisplay session currentFrame image currentHotspots))
      as [[img|tag [hotspot|] children]|] eqn:E; try reflexivity.
    apply handler_paths in E as (k & -> & _ & Hparent).
    rewrite Hparent. cbn [mbind option_bind]. rewrite overlays_no_img. reflexivity. }
  split; [apply overlays_no_img|]. split; [reflexivity|].
  intros sess frame k hotspot -> -> Hframe Hk. unfold TestDisplay.
  apply String.eqb_neq in Hframe. rewrite Hframe.
  split; [|split; reflexivity].
  cbn [child_at screenshotArea plain overlays lookup list_lookup].
  rewrite list_lookup_fmap, Hk. reflexivity.
Qed.

(** A session on a frame with one hotspot: the overlay is there, and a
    click on it, wherever the pointer is, reports nothing. *)
Lemma display_reports_no_click_example :
  child_at [2; 1; 0]
    (TestDisplay (Some Examples.started_session) (Some "/api/frames/7/a.png")
       {| naturalWidth := 1920; naturalHeight := 1080;
          clientWidth := 960; clientHeight := 540 |}
       [Examples.hotspot "a" 300 200]) = Some (overlay (Examples.hotspot "a" 300 200)) ∧
  clickElement
    (TestDisplay (Some Examples.started_session) (Some "/api/frames/7/a.png")
       {| naturalWidth := 1920; naturalHeight := 1080;
          clientWidth := 960; clientHeight := 540 |}
       [Examples.hotspot "a" 300 200]) [2; 1; 0] 150 100 126 76 1 = None.
Proof.
  destruct (display_reports_no_click (Some Examples.started_session)
              (Some "/api/frames/7/a.png")
              {| naturalWidth := 1920; naturalHeight := 1080;
                 clientWidth := 960; clientHeight := 540 |}
              [Examples.hotspot "a" 300 200]) as (Hnone & _ & _ & Hoverlay).
  split; [|apply Hnone].
  destruct (Hoverlay Examples.started_session "/api/frames/7/a.png" 0
              (Examples.hotspot "a" 300 200)) as [Hchild _].
  - reflexivity.
  - reflexivity.
  - discriminate.
  - reflexivity.
  - exact Hchild.
Defined.

End DisplayFacts.

(** ** The frame-selection page *)

Section AdminFacts.

Import Pipeline Admin.

(** X21.  Toggling a frame.  [toggleFrameSelection] keeps the number and the
    order of the frames and every field but the selected flag; it flips
    the flag of the frame at the given index and of no other frame, does
    nothing for an index outside the list, and applied twice gives the
    list back. *)
Theorem toggleFrameSelection_flips (frameIndex : Z) (frames : list FrameData) :
  length (toggleFrameSelection frameIndex frames) = length frames ∧
  map fd_url (toggleFrameSelection frameIndex frames) = map fd_url frames ∧
  (∀ j fd, frames !! j = Some fd →
     ∃ fd', toggleFrameSelection frameIndex frames !! j = Some fd' ∧
            fd_url fd' = fd_url fd ∧ fd_type fd' = fd_type fd ∧
            fd_filename fd' = fd_filename fd ∧ fd_timestamp fd' = fd_timestamp fd ∧
            fd_clickData fd' = fd_clickData fd ∧
            fd_selected fd' =
              (if Z.eqb (Z.of_nat j) frameIndex
               then negb (fd_selected fd) else fd_selected fd)) ∧
  (¬ (0 ≤ frameIndex < Z.of_nat (length frames))%Z →
   toggleFrameSelection frameIndex frames = frames) ∧
  toggleFrameSelection frameIndex (toggleFrameSelection frameIndex frames) = frames.
Proof.
  unfold toggleFrameSelection.
  split; [apply length_imap|].
  split.
  { apply list_eq. intros j. rewrite !list_lookup_fmap, list_lookup_imap.
    destruct (frames !! j) as [fd|]; [|reflexivity]. cbn.
    destruct (Z.eqb (Z.of_nat j) frameIndex); reflexivity. }
  split.
  { intros j fd Hj. rewrite list_lookup_imap, Hj. cbn.
    destruct (Z.eqb (Z.of_nat j) frameIndex); eexists; (split; [reflexivity|]);
      cbn; auto 10. }
  split.
  { intros Hout. apply list_eq. intros j. rewrite list_lookup_imap.
    destruct (frames !! j) as [fd|] eqn:Hj; [|reflexivity]. cbn.
    apply lookup_lt_Some in Hj.
    destruct (Z.eqb_spec (Z.of_nat j) frameIndex); [lia|reflexivity]. }
  apply list_eq. intros j. rewrite !list_lookup_imap.
  destruct (frames !! j) as [fd|]; [|reflexivity]. cbn.
  destruct (Z.eqb (Z.of_nat j) frameIndex); [|reflexivity].
  destruct fd. cbn. rewrite negb_involutive. reflexivity.
Qed.

Lemma findIndex_first (url : string) (frames : list FrameData) :
  (findIndex url frames = (-1)%Z ∧ ∀ fd, fd ∈ frames → fd_url fd ≠ url) ∨
  (∃ k fd, findIndex url frames = Z.of_nat k ∧ frames !! k = Some fd ∧
           fd_url fd = url ∧
           ∀ j fd', j < k → frames !! j = Some fd' → fd_url fd' ≠ url).
Proof.
  induction frames as [|f rest IH].
  - left. split; [reflexivity|]. intros fd Hfd. inversion Hfd.
  - cbn [findIndex]. destruct (String.eqb_spec (fd_url f) url) as [Heq|Hne].
    + right. exists 0, f. split; [reflexivity|]. split; [reflexivity|].
      split; [exact Heq|]. intros j fd' Hj. lia.
    + destruct IH as [[Hnone Hall]|(k & fd & Hk & Hfd & Hurl & Hfirst)].
      * left. rewrite Hnone. split; [reflexivity|].
        intros fd Hfd. apply elem_of_cons in Hfd as [->|Hfd]; [exact Hne|].
        apply Hall. exact Hfd.
      * right. exists (S k), fd. rewrite Hk.
        destruct (Z.ltb_spec (Z.of_nat k) 0); [lia|].
        split; [lia|]. split; [exact Hfd|]. split; [exact Hurl|].
        intros [|j] fd' Hj Hfd'.
        -- injection Hfd' as <-. exact Hne.
        -- apply (Hfirst j fd'); [lia|exact Hfd'].
Qed.

(** X22.  The hotspots handed to the test.  Every selected frame gets one
    list of hotspots, so the test receives as many lists as frames.  The
    list of a frame is looked up by the first index that carries the
    frame's url: for a selected frame that is the first with its url, the
    hotspots last edited for its index are those the test receives for
    it, at the frame's position among the selected frames. *)
Theorem testHotspots_of_edit (frameAnalysis : list FrameData)
    (frameHotspots : gmap Z (list HotspotData)) (i : nat) (fd : FrameData)
    (hotspots : list HotspotData) :
  frameAnalysis !! i = Some fd → fd_selected fd = true →
  (∀ j fd', j < i → frameAnalysis !! j = Some fd' → fd_url fd' ≠ fd_url fd) →
  length (testHotspots frameAnalysis frameHotspots) = length (testFrames frameAnalysis) ∧
  findIndex (fd_url fd) frameAnalysis = Z.of_nat i ∧
  testFrames frameAnalysis !! length (selectedFrames (take i frameAnalysis)) =
    Some (fd_url fd) ∧
  testHotspots frameAnalysis (handleHotspotsChange (Z.of_nat i) hotspots frameHotspots)
    !! length (selectedFrames (take i frameAnalysis)) = Some hotspots ∧
  (frameHotspots !! Z.of_nat i = None →
   testHotspots frameAnalysis frameHotspots
     !! length (selectedFrames (take i frameAnalysis)) = Some []).
Proof.
  intros Hi Hsel Hfirst.
  assert (Hidx : findIndex (fd_url fd) frameAnalysis = Z.of_nat i).
  { destruct (findIndex_first (fd_url fd) frameAnalysis)
      as [[_ Hall]|(k & fd' & Hk & Hfd' & Hurl & Hmin)].
    - exfalso. apply (Hall fd); [|reflexivity]. eapply list_elem_of_lookup_2. exact Hi.
    - rewrite Hk. f_equal.
      destruct (Nat.lt_trichotomy k i) as [Hlt|[Heq|Hgt]]; [|exact Heq|].
      + exfalso. exact (Hfirst k fd' Hlt Hfd' Hurl).
      + exfalso. exact (Hmin i fd Hgt Hi eq_refl). }
  assert (Hsplit : selectedFrames frameAnalysis =
                   selectedFrames (take i frameAnalysis) ++
                   fd :: selectedFrames (drop (S i) frameAnalysis)).
  { unfold selectedFrames.
    rewrite <- (take_drop_middle frameAnalysis i fd Hi) at 1.
    rewrite List.filter_app. cbn [List.filter]. rewrite Hsel. reflexivity. }
  split; [unfold testHotspots, testFrames; rewrite !length_map; reflexivity|].
  split; [exact Hidx|].
  split.
  { unfold testFrames. rewrite Hsplit, list_lookup_fmap.
    rewrite list_lookup_middle by reflexivity. reflexivity. }
  split.
  { unfold testHotspots. rewrite Hsplit, list_lookup_fmap.
    rewrite list_lookup_middle by reflexivity. cbn.
    rewrite Hidx. unfold handleHotspotsChange. rewrite lookup_insert_eq. reflexivity. }
  intros Hnone. unfold testHotspots. rewrite Hsplit, list_lookup_fmap.
  rewrite list_lookup_middle by reflexivity. cbn. rewrite Hidx, Hnone. reflexivity.
Qed.

End AdminFacts.

(** ** The descriptors of quick mode and the urls of the frames *)

Section QuickFacts.

Import Pipeline Routes.

Lemma string_compare_trans (s1 : string) :
  ∀ s2 s3, String.compare s1 s2 ≠ Gt → String.compare s2 s3 ≠ Gt →
           String.compare s1 s3 ≠ Gt.
Proof.
  induction s1 as [|c1 s1 IH]; intros [|c2 s2] [|c3 s3]; simpl; try congruence.
  unfold Ascii.compare.
  destruct (N.compare_spec (N_of_ascii c1) (N_of_ascii c2));
    destruct (N.compare_spec (N_of_ascii c2) (N_of_ascii c3));
    destruct (N.compare_spec (N_of_ascii c1) (N_of_ascii c3));
    intros Hfst Hsnd; first [congruence | lia | (eapply IH; eassumption)].
Qed.

Lemma name_le_trans (a b c : string) : name_le a b → name_le b c → name_le a c.
Proof.
  unfold name_le, String.leb. intros H1 H2.
  pose proof (string_compare_trans a b c) as H.
  destruct (String.compare a b); destruct (String.compare b c);
    destruct (String.compare a c); try discriminate; try reflexivity;
    exfalso; apply H; congruence.
Qed.

Lemma insert_name_sorted (f : string) (l : list string) :
  StronglySorted name_le l → StronglySorted name_le (insert_name f l).
Proof.
  induction 1 as [|h t Hs IH Hall]; simpl.
  - repeat constructor.
  - destruct (String.leb f h) eqn:E.
    + constructor; [constructor; assumption|].
      constructor; [exact E|].
      eapply Forall_impl; [exact Hall|]. intros x Hx.
      exact (name_le_trans f h x E Hx).
    + constructor; [exact IH|].
      rewrite insert_name_perm. constructor; [|exact Hall].
      destruct (String.leb_total f h) as [H|H]; [congruence|exact H].
Qed.

Lemma sort_names_sorted (l : list string) : StronglySorted name_le (sort_names l).
Proof.
  induction l as [|f l IH]; [constructor|].
  unfold sort_names in *. simpl. apply insert_name_sorted, IH.
Qed.

Lemma split_path_digits (d : string) :
  all_digits d = true → split_path d = (None, d).
Proof.
  induction d as [|c d IH]; intros H; [reflexivity|].
  simpl in H. apply andb_true_iff in H as [Hc Hd].
  cbn [split_path]. rewrite (IH Hd).
  destruct (Ascii.eqb_spec c "/"%char) as [->|_]; [discriminate|reflexivity].
Qed.

Lemma pretty_N_all_digits (x : N) : all_digits (pretty x) = true.
Proof.
  unfold pretty, pretty_N.
  destruct (decide (x = 0%N)) as [E|E]; [reflexivity|].
  destruct (pretty_N_go_digits x) as (k & Hk).
  apply (Hk 0%N EmptyString). reflexivity.
Qed.

Lemma split_path_frames (d : string) :
  split_path d = (None, d) → split_path ("frames/" +:+ d) = (Some "frames", d).
Proof. intros H. simpl. change ("" +:+ d) with d. rewrite H. reflexivity. Qed.

Lemma basename_outputDir (now : N) : basename (outputDir_of now) = pretty now.
Proof.
  unfold basename, outputDir_of.
  rewrite (split_path_frames _ (split_path_digits _ (pretty_N_all_digits now))).
  reflexivity.
Qed.

Lemma quick_files_names (outputDir : string) (names : list string) :
  map fd_filename (quick_files outputDir names) =
  sort_names (List.filter is_quick_name names).
Proof.
  unfold quick_files. apply list_eq. intros i.
  rewrite list_lookup_fmap, list_lookup_imap.
  change (λ file, startsWith file "quick_" && endsWith file ".png") with is_quick_name.
  destruct (sort_names (List.filter is_quick_name names) !! i); reflexivity.
Qed.

(** X23.  The descriptors of a quick-mode response.  They are built from the
    names that the working directory of the request holds once the
    extraction command has run on the file system with the two
    directories of the route made: the names that start with quick_ and
    end with .png, all of them and no other name, in ascending order of
    name.  The descriptor at index [i] has timestamp [10 i], whatever
    number its file name carries; each is of type quick_extract and
    selected, with confidence 0.7 and a position in
    [400, 800) x [300, 600). *)
Theorem quick_response_descriptors
    (exec : command → gmap string node → bool * gmap string node) (random : nat → Q)
    (now : N) (req : Request) (s s' : state)
    (frames : list string) (frameAnalysis : list FrameData) :
  uploadVideo exec random now req s = (Some (QuickOk frames frameAnalysis), s') →
  (∃ (videoPath : string) (names : list string),
     req_file req = Some videoPath ∧
     (readdirSync (outputDir_of now)
        {| fs := (exec (CmdQuick videoPath (outputDir_of now))
                    (dirs_made now (fs s))).2;
           rng := rng s;
           console := console s ++ [LogQuickMode] |}).1 = Some names ∧
     map fd_filename frameAnalysis ≡ₚ List.filter is_quick_name names) ∧
  StronglySorted name_le (map fd_filename frameAnalysis) ∧
  (∀ i fd, frameAnalysis !! i = Some fd →
     fd_timestamp fd = Num.of_nat (i * 10) ∧
     is_quick_name (fd_filename fd) = true ∧
     fd_type fd = "quick_extract" ∧ fd_selected fd = true ∧
     cd_confidence (fd_clickData fd) = 0.7%Q ∧
     (400 <= cd_x (fd_clickData fd) < 800)%Q ∧
     (300 <= cd_y (fd_clickData fd) < 600)%Q).
Proof.
  intros H.
  apply uploadVideo_dirs in H as (v & Hfile & H); [|discriminate..].
  destruct (bool_decide (req_quickMode req = Some "true")).
  2:{ apply smart_mode_inv in H
        as (sa & segments & s2 & clicks & s3 & events & s4 & frameData & s5 &
            _ & _ & _ & _ & _ & _ & Hr).
      discriminate. }
  apply quick_mode_inv in H as (names & sa & sb & Hex & Hdir & _ & Hr).
  injection Hr as _ ->.
  assert (Hsa : sa = {| fs := (exec (CmdQuick v (outputDir_of now))
                                 (dirs_made now (fs s))).2;
                        rng := rng s;
                        console := console s ++ [LogQuickMode] |}).
  { unfold execAsync in Hex. cbn [fs rng console] in Hex.
    destruct (exec (CmdQuick v (outputDir_of now)) (dirs_made now (fs s))) as [ok f1].
    injection Hex as _ <-. reflexivity. }
  split.
  { exists v, names. split; [exact Hfile|]. rewrite <- Hsa, Hdir.
    split; [reflexivity|].
    rewrite quick_files_names. apply sort_names_perm. }
  split; [rewrite quick_files_names; apply sort_names_sorted|].
  intros i fd Hfd.
  assert (Hname : fd_filename fd ∈ List.filter is_quick_name names).
  { rewrite <- (sort_names_perm (List.filter is_quick_name names)),
      <- (quick_files_names (outputDir_of now) names).
    apply list_elem_of_fmap. exists fd. split; [reflexivity|].
    eapply list_elem_of_lookup_2. exact Hfd. }
  apply list_elem_of_In, List.filter_In in Hname as [_ Hname].
  unfold quick_files in Hfd. rewrite list_lookup_imap in Hfd.
  destruct (sort_names _ !! i) as [file|]; [|discriminate].
  injection Hfd as <-. cbn in Hname |- *.
  split; [reflexivity|]. split; [exact Hname|].
  split; [reflexivity|]. split; [reflexivity|]. split; [reflexivity|].
  unfold Num.of_nat.
  pose proof (Nat.mod_upper_bound (i * 50) 400) as Hx.
  pose proof (Nat.mod_upper_bound (i * 30) 300) as Hy.
  change 400%Q with (inject_Z 400). change 800%Q with (inject_Z 800).
  change 300%Q with (inject_Z 300). change 600%Q with (inject_Z 600).
  rewrite <- !Zle_Qle, <- !Zlt_Qlt. lia.
Qed.

(** X24.  The urls of the frames.  In both modes the response lists the urls
    of its descriptors, in order, and the url of a descriptor is
    /api/frames/, the number of the working directory, a slash and the
    file name. *)
Theorem frame_urls
    (exec : command → gmap string node → bool * gmap string node) (random : nat → Q)
    (now : N) (req : Request) (s s' : state) (r : response)
    (frames : list string) (frameAnalysis : list FrameData) :
  uploadVideo exec random now req s = (Some r, s') →
  (r = QuickOk frames frameAnalysis ∨ ∃ n m, r = SmartOk frames frameAnalysis n m) →
  frames = map fd_url frameAnalysis ∧
  Forall (λ fd, fd_url fd = "/api/frames/" +:+ pretty now +:+ "/" +:+ fd_filename fd)
    frameAnalysis.
Proof.
  intros H Hr.
  apply uploadVideo_cases in H
    as [(_ & -> & _)|(v & _ & [(-> & _)|[(_ & s1 & H)|(_ & s1 & H)]])].
  - destruct Hr as [Hr|(n & m & Hr)]; discriminate.
  - destruct Hr as [Hr|(n & m & Hr)]; discriminate.
  - apply quick_mode_inv in H as (names & sa & sb & _ & _ & _ & ->).
    destruct Hr as [Hr|(n & m & Hr)]; [|discriminate].
    injection Hr as <- <-. split; [reflexivity|].
    apply Forall_forall. intros fd Hfd. unfold quick_files in Hfd.
    apply elem_of_lookup_imap in Hfd as (i & file & -> & _).
    cbn [quick_frame fd_url fd_filename]. rewrite basename_outputDir. reflexivity.
  - apply smart_mode_inv in H
      as (sa & segments & s2 & clicks & s3 & events & s4 & frameData & s5 &
          _ & _ & _ & _ & Hframes & _ & ->).
    destruct Hr as [Hr|(n & m & Hr)]; [discriminate|].
    injection Hr as <- <- _ _. split; [reflexivity|].
    apply Forall_forall. intros fd Hfd.
    destruct (extract_frames_elem _ _ _ _ _ _ _ _ Hframes Hfd) as (i & event & _ & _ & ->).
    cbn [smart_frame fd_url fd_filename]. rewrite basename_outputDir. reflexivity.
Qed.

End QuickFacts.

(** Two images found out of order: the descriptors follow the names, the
    timestamps the indices. *)
Lemma quick_response_descriptors_example :
  map (λ fd, (Pipeline.fd_filename fd, Pipeline.fd_timestamp fd)) Examples.quick_frames =
    [("quick_001.png", Num.of_nat 0); ("quick_002.png", Num.of_nat 10)] ∧
  StronglySorted Routes.name_le (map Pipeline.fd_filename Examples.quick_frames).
Proof.
  assert (Hrun : Pipeline.uploadVideo
                   (Examples.exec_ok [] [] ["quick_002.png"; "quick_001.png"])
                   Examples.random10 7 Examples.quick_request Examples.uploaded =
                 (Some (Pipeline.QuickOk (map Pipeline.fd_url Examples.quick_frames)
                          Examples.quick_frames), Examples.quick_run.2)).
  { vm_compute. reflexivity. }
  destruct (quick_response_descriptors _ _ _ _ _ _ _ _ Hrun) as (_ & Hsorted & _).
  split; [vm_compute; reflexivity|exact Hsorted].
Defined.

(** The urls of the smart-mode example. *)
Lemma frame_urls_example :
  map Pipeline.fd_url Examples.smart_frames =
    ["/api/frames/7/speech_000.png"; "/api/frames/7/click_001.png";
     "/api/frames/7/speech_002.png"].
Proof.
  assert (Hrun : Pipeline.uploadVideo
                   (Examples.exec_ok Examples.audio_5_6_20
                      [Pipeline.showinfo_line 3 0.5; Pipeline.showinfo_line 7 0.3] [])
                   Examples.random10 7 Examples.smart_request Examples.uploaded =
                 (Some (Pipeline.SmartOk (map Pipeline.fd_url Examples.smart_frames)
                          Examples.smart_frames 2 1), Examples.smart_run.2)).
  { vm_compute. reflexivity. }
  destruct (frame_urls _ _ _ _ _ _ _ (map Pipeline.fd_url Examples.smart_frames)
              Examples.smart_frames Hrun) as [_ Hurls].
  { right. eauto. }
  vm_compute. reflexivity.
Defined.

(** The hotspots edited for the second of two quick frames reach the
    test as the hotspots of its second frame. *)
Lemma testHotspots_of_edit_example :
  Admin.testHotspots Examples.quick_frames
    (Admin.handleHotspotsChange 1 [Examples.hotspot "a" 40 60] ∅) !! 1 =
    Some [Examples.hotspot "a" 40 60].
Proof.
  destruct (testHotspots_of_edit Examples.quick_frames ∅ 1
              (Pipeline.quick_frame "frames/7" 1 "quick_002.png")
              [Examples.hotspot "a" 40 60]) as (_ & _ & _ & Hedit & _).
  - vm_compute. reflexivity.
  - reflexivity.
  - intros j fd' Hj Hfd'. assert (j = 0) as -> by lia.
    vm_compute in Hfd'. injection Hfd' as <-. vm_compute. discriminate.
  - assert (Hlen : length (Admin.selectedFrames (take 1 Examples.quick_frames)) = 1)
      by (vm_compute; reflexivity).
    rewrite Hlen in Hedit. exact Hedit.
Defined.

(** ** The hotspot editor and the test simulation *)

Section SimulationFacts.

Import Editor Simulation.

Lemma percent_between (offset size : Q) :
  (0 < size)%Q → (0 <= offset <= size)%Q → (0 <= offset / size * 100 <= 100)%Q.
Proof.
  intros Hsize Hoffset.
  destruct (Qdiv_between offset size Hsize Hoffset) as [H0 H1].
  set (q := (offset / size)%Q) in *. split; lra.
Qed.

Lemma clicked_at (x y : Q) (h : HotspotData) :
  (x == hotspot_x h)%Q → (y == hotspot_y h)%Q → clicked x y h = true.
Proof.
  intros Hx Hy. unfold clicked. apply gtb_lt. rewrite Hx, Hy.
  assert (H : ((hotspot_x h - hotspot_x h) * (hotspot_x h - hotspot_x h) +
               (hotspot_y h - hotspot_y h) * (hotspot_y h - hotspot_y h) == 0)%Q) by ring.
  rewrite H. reflexivity.
Qed.

Lemma find_some_of_elem {A} (f : A → bool) (l : list A) (x : A) :
  x ∈ l → f x = true → ∃ y, List.find f l = Some y ∧ y ∈ l ∧ f y = true.
Proof.
  intros Hx Hf. destruct (List.find f l) as [y|] eqn:E.
  - exists y. apply find_some_elem in E as [Hy Hfy]. auto.
  - rewrite find_none_iff in E. rewrite (E x Hx) in Hf. discriminate.
Qed.

(** X25.  Placing a hotspot.  In adding mode, a click on the image appends one
    hotspot, reports the new list and leaves adding mode, so that a second
    click adds nothing.  For a click inside the image the hotspot lies
    between 0 and 100 percent on both axes.  Removing the new hotspot
    gives the list back when no other hotspot has its id.  In the test, a
    click at the same relative position of the frame hits a hotspot of
    the frame, whatever the size of the frame on screen. *)
Theorem placed_hotspot_is_hit (now : N) (clientX clientY : Q) (rect : Rect)
    (st : EditorState) :
  isAddingHotspot st = true →
  (0 < rect_width rect)%Q → (0 < rect_height rect)%Q →
  (0 <= clientX - rect_left rect <= rect_width rect)%Q →
  (0 <= clientY - rect_top rect <= rect_height rect)%Q →
  Editor.handleImageClick now clientX clientY (Some rect) st =
    ({| hotspots := hotspots st ++ [newHotspot now clientX clientY rect (hotspots st)];
        isAddingHotspot := false |},
     Some (hotspots st ++ [newHotspot now clientX clientY rect (hotspots st)])) ∧
  (0 <= hotspot_x (newHotspot now clientX clientY rect (hotspots st)) <= 100)%Q ∧
  (0 <= hotspot_y (newHotspot now clientX clientY rect (hotspots st)) <= 100)%Q ∧
  (∀ now' x' y' rect',
     Editor.handleImageClick now' x' y' rect'
       (Editor.handleImageClick now clientX clientY (Some rect) st).1 =
     ((Editor.handleImageClick now clientX clientY (Some rect) st).1, None)) ∧
  ((∀ h, h ∈ hotspots st →
         hotspot_id h ≠ hotspot_id (newHotspot now clientX clientY rect (hotspots st))) →
   (removeHotspot (hotspot_id (newHotspot now clientX clientY rect (hotspots st)))
      (Editor.handleImageClick now clientX clientY (Some rect) st).1).2 = Some (hotspots st)) ∧
  (∀ (frameHotspots : list (list HotspotData)) (sim : Sim) (now' : Z)
     (clientX' clientY' : Q) (rect' : Rect),
     newHotspot now clientX clientY rect (hotspots st) ∈ currentHotspots frameHotspots sim →
     feedbackShow sim = false → isCompleted sim = false →
     ((clientX' - rect_left rect') / rect_width rect' ==
      (clientX - rect_left rect) / rect_width rect)%Q →
     ((clientY' - rect_top rect') / rect_height rect' ==
      (clientY - rect_top rect) / rect_height rect)%Q →
     ∃ target,
       target ∈ currentHotspots frameHotspots sim ∧
       Simulation.handleImageClick frameHotspots now' clientX' clientY' rect' sim =
         handleHotspotClick now' target sim ∧
       length (results (Simulation.handleImageClick frameHotspots now' clientX' clientY'
                          rect' sim)) = length (results sim) + 1).
Proof.
  intros Hadding Hw Hh Hx Hy.
  assert (Hclick : Editor.handleImageClick now clientX clientY (Some rect) st =
            ({| hotspots := hotspots st ++ [newHotspot now clientX clientY rect (hotspots st)];
                isAddingHotspot := false |},
             Some (hotspots st ++ [newHotspot now clientX clientY rect (hotspots st)]))).
  { unfold Editor.handleImageClick. rewrite Hadding. reflexivity. }
  split; [exact Hclick|].
  split; [apply percent_between; assumption|].
  split; [apply percent_between; assumption|].
  rewrite Hclick. cbn [fst].
  split; [intros now' x' y' rect'; reflexivity|].
  split.
  { intros Hfresh. unfold removeHotspot. cbn [snd hotspots]. f_equal.
    rewrite filter_snoc, String.eqb_refl. cbn [negb]. rewrite app_nil_r.
    apply filter_all. apply Forall_forall. intros h Hh'.
    apply negb_true_iff. apply String.eqb_neq. apply Hfresh. exact Hh'. }
  intros frameHotspots sim now' clientX' clientY' rect' Hin Hshow Hdone Hsamex Hsamey.
  destruct (find_some_of_elem
              (clicked ((clientX' - rect_left rect') / rect_width rect' * 100)
                       ((clientY' - rect_top rect') / rect_height rect' * 100))
              (currentHotspots frameHotspots sim) _ Hin) as (target & Hfind & Htarget & _).
  { apply clicked_at; cbn [newHotspot hotspot_x hotspot_y];
      [rewrite Hsamex|rewrite Hsamey]; reflexivity. }
  exists target. split; [exact Htarget|].
  assert (Hsim : Simulation.handleImageClick frameHotspots now' clientX' clientY' rect' sim =
                 handleHotspotClick now' target sim).
  { unfold Simulation.handleImageClick. rewrite Hshow, Hdone. cbn [orb].
    rewrite Hfind. reflexivity. }
  split; [exact Hsim|]. rewrite Hsim. cbn [handleHotspotClick results].
  rewrite length_app. reflexivity.
Qed.

(** X26.  Removing and relabelling.  A removal drops every hotspot of the
    given id and keeps the others in order; a new label changes the label
    of the hotspots of the given id and nothing else.  Both report the new
    list.  The test finds its target by position only, so a new label
    changes no target: the hotspot found for a click has the same id and
    position before and after. *)
Theorem editor_edits_keep_targets (hotspotId newLabel : string) (st : EditorState) :
  (removeHotspot hotspotId st).2 = Some (hotspots (removeHotspot hotspotId st).1) ∧
  (∀ h, h ∈ hotspots (removeHotspot hotspotId st).1 ↔
        h ∈ hotspots st ∧ hotspot_id h ≠ hotspotId) ∧
  (updateHotspotLabel hotspotId newLabel st).2 =
    Some (hotspots (updateHotspotLabel hotspotId newLabel st).1) ∧
  map hotspot_id (hotspots (updateHotspotLabel hotspotId newLabel st).1) =
    map hotspot_id (hotspots st) ∧
  map hotspot_x (hotspots (updateHotspotLabel hotspotId newLabel st).1) =
    map hotspot_x (hotspots st) ∧
  map hotspot_y (hotspots (updateHotspotLabel hotspotId newLabel st).1) =
    map hotspot_y (hotspots st) ∧
  map hotspot_label (hotspots (updateHotspotLabel hotspotId newLabel st).1) =
    map (λ h, if String.eqb (hotspot_id h) hotspotId then newLabel else hotspot_label h)
      (hotspots st) ∧
  (∀ x y,
     (λ h, (hotspot_id h, hotspot_x h, hotspot_y h)) <$>
       List.find (clicked x y) (hotspots (updateHotspotLabel hotspotId newLabel st).1) =
     (λ h, (hotspot_id h, hotspot_x h, hotspot_y h)) <$>
       List.find (clicked x y) (hotspots st)).
Proof.
  split; [reflexivity|].
  split.
  { intros h. cbn [removeHotspot fst hotspots].
    rewrite list_elem_of_In, List.filter_In, <- list_elem_of_In.
    rewrite negb_true_iff, String.eqb_neq. reflexivity. }
  split; [reflexivity|].
  cbn [updateHotspotLabel fst hotspots].
  split.
  { rewrite List.map_map. apply List.map_ext. intros h.
    destruct (String.eqb (hotspot_id h) hotspotId); reflexivity. }
  split.
  { rewrite List.map_map. apply List.map_ext. intros h.
    destruct (String.eqb (hotspot_id h) hotspotId); reflexivity. }
  split.
  { rewrite List.map_map. apply List.map_ext. intros h.
    destruct (String.eqb (hotspot_id h) hotspotId); reflexivity. }
  split.
  { rewrite List.map_map. apply List.map_ext. intros h.
    destruct (String.eqb (hotspot_id h) hotspotId); reflexivity. }
  intros x y. induction (hotspots st) as [|h l IH]; [reflexivity|].
  cbn [map List.find].
  assert (Hsame : clicked x y
            (if String.eqb (hotspot_id h) hotspotId
             then {| hotspot_id := hotspot_id h; hotspot_x := hotspot_x h;
                     hotspot_y := hotspot_y h; hotspot_label := newLabel |}
             else h) = clicked x y h).
  { destruct (String.eqb (hotspot_id h) hotspotId); reflexivity. }
  rewrite Hsame. destruct (clicked x y h); [|exact IH].
  destruct (String.eqb (hotspot_id h) hotspotId); reflexivity.
Qed.

Lemma mount_inv (frames : list string) (now : Z) : run_inv frames (mount now).
Proof.
  unfold run_inv. cbn. split; [reflexivity|]. split; [constructor|].
  split; [right; reflexivity|]. split; [reflexivity|]. split; [reflexivity|].
  split; [reflexivity|]. discriminate.
Qed.

Lemma step_inv (frames : list string) (frameHotspots : list (list HotspotData))
    (st : Sim) (e : event) :
  run_inv frames st → run_inv frames (step frames frameHotspots st e).
Proof.
  intros Hinv. pose proof Hinv as (Hidx & Hok & Hrange & Hpending).
  destruct e as [now x y rect|now].
  - cbn [step]. unfold Simulation.handleImageClick.
    destruct (feedbackShow st) eqn:Hshow; [exact Hinv|].
    destruct (isCompleted st) eqn:Hdone; [exact Hinv|].
    cbn [orb].
    destruct (timeouts st) as [|[idx rep|] [|t rest]] eqn:Etimeouts;
      try contradiction;
      try (destruct Hpending as (Hs & _); congruence).
    destruct Hpending as (_ & Hlen & Hcompl & _).
    destruct (List.find _ _) as [target|].
    + unfold handleHotspotClick, run_inv.
      cbn [results currentFrameIndex timeouts feedbackShow isCompleted completions].
      rewrite Etimeouts. cbn [app].
      split.
      { rewrite map_app, length_app, seq_app, Hidx. cbn. rewrite Hlen. do 2 f_equal. lia. }
      split.
      { apply Forall_app. split; [exact Hok|]. constructor; [|constructor].
        cbn. split; [reflexivity|lia]. }
      split; [exact Hrange|].
      split; [reflexivity|]. split; [exact Hdone|]. split; [reflexivity|].
      split; [reflexivity|]. split; [rewrite length_app; cbn; lia|exact Hcompl].
    + unfold run_inv.
      cbn [results currentFrameIndex timeouts feedbackShow isCompleted completions app].
      split; [exact Hidx|]. split; [exact Hok|]. split; [exact Hrange|].
      split; [reflexivity|]. split; [reflexivity|]. split; [lia|exact Hcompl].
  - cbn [step]. unfold fire.
    destruct (timeouts st) as [|[idx rep|] [|t rest]] eqn:Etimeouts;
      try contradiction.
    + unfold run_inv. rewrite Etimeouts.
      split; [exact Hidx|]. split; [exact Hok|]. split; [exact Hrange|exact Hpending].
    + destruct Hpending as (_ & Hdone & -> & -> & Hlen & Hcompl).
      destruct (Z.ltb_spec (Z.of_nat (currentFrameIndex st))
                  (Z.of_nat (length frames) - 1)) as [Hlt|Hge].
      * unfold run_inv.
        cbn [results currentFrameIndex timeouts feedbackShow isCompleted completions].
        split; [exact Hidx|]. split; [exact Hok|]. split; [left; lia|].
        rewrite Hdone. split; [reflexivity|]. split; [lia|]. split; [exact Hcompl|].
        discriminate.
      * unfold run_inv.
        cbn [results currentFrameIndex timeouts feedbackShow isCompleted completions].
        split; [exact Hidx|]. split; [exact Hok|]. split; [exact Hrange|].
        split; [reflexivity|]. split; [lia|]. rewrite Hcompl.
        split; [reflexivity|]. intros _. lia.
    + destruct Hpending as (_ & Hdone & Hlen & Hcompl).
      unfold run_inv.
      cbn [results currentFrameIndex timeouts feedbackShow isCompleted completions].
      split; [exact Hidx|]. split; [exact Hok|]. split; [exact Hrange|].
      rewrite Hdone. split; [reflexivity|]. split; [lia|]. split; [exact Hcompl|].
      discriminate.
Qed.

Lemma run_inv_run (frames : list string) (frameHotspots : list (list HotspotData))
    (events : list event) :
  ∀ st, run_inv frames st → run_inv frames (run frames frameHotspots events st).
Proof.
  induction events as [|e events IH]; intros st H; [exact H|].
  apply IH. apply step_inv. exact H.
Qed.

(** X27.  The results of a simulated test.  After any sequence of clicks and
    timeouts from the mount, the results number the frames 0, 1, 2, ...
    without gap or repetition, each is marked correct and counts at least
    one attempt.  The results are reported at most once; they are reported
    exactly when the test is completed, as the list of results at that
    time, which for a test with frames has one result per frame. *)
Theorem simulation_results (frames : list string)
    (frameHotspots : list (list HotspotData)) (events : list event) (now : Z) :
  map r_frameIndex (results (run frames frameHotspots events (mount now))) =
    seq 0 (length (results (run frames frameHotspots events (mount now)))) ∧
  Forall (λ r, r_correct r = true ∧ 1 ≤ r_attempts r)
    (results (run frames frameHotspots events (mount now))) ∧
  (isCompleted (run frames frameHotspots events (mount now)) = false →
   completions (run frames frameHotspots events (mount now)) = []) ∧
  (isCompleted (run frames frameHotspots events (mount now)) = true →
   completions (run frames frameHotspots events (mount now)) =
     [results (run frames frameHotspots events (mount now))] ∧
   (frames ≠ [] →
    length (results (run frames frameHotspots events (mount now))) = length frames)).
Proof.
  pose proof (run_inv_run frames frameHotspots events _ (mount_inv frames now)) as H.
  set (st := run frames frameHotspots events (mount now)) in *.
  destruct H as (Hidx & Hok & Hrange & Hpending).
  split; [exact Hidx|]. split; [exact Hok|].
  destruct (timeouts st) as [|[idx rep|] [|t rest]]; try contradiction.
  - destruct Hpending as (_ & Hlen & Hcompl & Hlast).
    split; [intros Hdone; rewrite Hdone in Hcompl; exact Hcompl|].
    intros Hdone. rewrite Hdone in Hcompl, Hlen. split; [exact Hcompl|].
    intros Hne. specialize (Hlast Hdone).
    assert (0 < length frames) by (destruct frames; [contradiction|simpl; lia]).
    lia.
  - destruct Hpending as (_ & Hdone & _ & _ & _ & Hcompl).
    split; [intros _; exact Hcompl|]. intros Hdone'. congruence.
  - destruct Hpending as (_ & Hdone & _ & Hcompl).
    split; [intros _; exact Hcompl|]. intros Hdone'. congruence.
Qed.

Lemma step_blocked (frames : list string) (frameHotspots : list (list HotspotData))
    (st : Sim) (e : event) :
  currentHotspots frameHotspots st = [] → only_misses st →
  currentFrameIndex (step frames frameHotspots st e) = currentFrameIndex st ∧
  results (step frames frameHotspots st e) = results st ∧
  isCompleted (step frames frameHotspots st e) = isCompleted st ∧
  completions (step frames frameHotspots st e) = completions st ∧
  only_misses (step frames frameHotspots st e).
Proof.
  intros Hnone Hmisses. destruct e as [now x y rect|now]; cbn [step].
  - unfold Simulation.handleImageClick.
    destruct (feedbackShow st || isCompleted st); [auto|].
    rewrite Hnone. cbn [List.find]. cbn. repeat split.
    unfold only_misses. cbn. apply Forall_app. split; [exact Hmisses|].
    constructor; [reflexivity|constructor].
  - unfold fire. unfold only_misses in *.
    destruct (timeouts st) as [|t rest] eqn:E; [rewrite E; auto|].
    apply Forall_cons in Hmisses as [-> Hrest]. cbn. auto.
Qed.

(** X28.  A frame without hotspots blocks the test.  When the current frame
    has no hotspot and no timeout of a hit is pending, no sequence of
    clicks and timeouts moves the test to another frame, adds a result or
    completes it. *)
Theorem frame_without_hotspots_blocks (frames : list string)
    (frameHotspots : list (list HotspotData)) (events : list event) (st : Sim) :
  currentHotspots frameHotspots st = [] → only_misses st →
  currentFrameIndex (run frames frameHotspots events st) = currentFrameIndex st ∧
  results (run frames frameHotspots events st) = results st ∧
  isCompleted (run frames frameHotspots events st) = isCompleted st ∧
  completions (run frames frameHotspots events st) = completions st.
Proof.
  revert st. induction events as [|e events IH]; intros st Hnone Hmisses; [auto|].
  destruct (step_blocked frames frameHotspots st e Hnone Hmisses)
    as (Hidx & Hres & Hdone & Hcompl & Hmisses').
  unfold run in *. cbn [fold_left].
  destruct (IH (step frames frameHotspots st e)) as (Hidx' & Hres' & Hdone' & Hcompl').
  { unfold currentHotspots in *. rewrite Hidx. exact Hnone. }
  { exact Hmisses'. }
  rewrite Hidx', Hres', Hdone', Hcompl'. auto.
Qed.

Lemma perfect_run_completes (frames : list string) (done : list (list HotspotData)) :
  ∀ (rest : list (list HotspotData)) (st : Sim),
    rest ≠ [] → Forall (λ l, l ≠ []) rest →
    length frames = length done + length rest →
    currentFrameIndex st = length done →
    feedbackShow st = false → isCompleted st = false → timeouts st = [] →
    attempts st = 0 → Forall (λ r, r_attempts r = 1) (results st) →
    isCompleted (run frames (done ++ rest) (perfect_run rest) st) = true ∧
    Forall (λ r, r_attempts r = 1) (results (run frames (done ++ rest) (perfect_run rest) st)) ∧
    length (results (run frames (done ++ rest) (perfect_run rest) st)) =
      length (results st) + length rest ∧
    length (perfect_run rest) = 2 * length rest.
Proof.
  intros rest. revert done.
  induction rest as [|l rest IH]; intros done st Hne Hall Hlen Hidx Hshow Hdone Hnone
    Hattempts Hones; [contradiction|].
  apply Forall_cons in Hall as [Hl Hall].
  destruct l as [|h l]; [contradiction|].
  cbn [perfect_run]. unfold run. cbn [fold_left step].
  assert (Hcur : currentHotspots (done ++ (h :: l) :: rest) st = h :: l).
  { unfold currentHotspots. rewrite Hidx, list_lookup_middle by reflexivity. reflexivity. }
  assert (Hclick : Simulation.handleImageClick (done ++ (h :: l) :: rest) 0
                     (hotspot_x h) (hotspot_y h) percent_rect st =
                   handleHotspotClick 0 h st).
  { unfold Simulation.handleImageClick. rewrite Hshow, Hdone, Hcur. cbn [orb List.find].
    rewrite clicked_at; [reflexivity| |]; cbn [percent_rect rect_left rect_top
      rect_width rect_height]; field. }
  rewrite Hclick. unfold fire.
  cbn [handleHotspotClick timeouts currentFrameIndex results attempts startTime
         feedbackShow isCompleted completions].
  rewrite Hnone. cbn [app]. rewrite Hidx, Hattempts.
  assert (Hones' : Forall (λ r, r_attempts r = 1)
            (results st ++
             [{| r_frameIndex := length done; r_correct := true; r_attempts := 0 + 1;
                 r_timeSpent := (0 - startTime st)%Z;
                 r_clickedHotspot := hotspot_label h |}])).
  { apply Forall_app. split; [exact Hones|]. constructor; [reflexivity|constructor]. }
  destruct rest as [|l' rest].
  - destruct (Z.ltb_spec (Z.of_nat (length done)) (Z.of_nat (length frames) - 1))
      as [Hlt|Hge]; [cbn [length] in Hlen; lia|].
    cbn [perfect_run fold_left isCompleted results].
    split; [reflexivity|]. split; [exact Hones'|].
    split; [rewrite length_app; cbn; lia|reflexivity].
  - destruct (Z.ltb_spec (Z.of_nat (length done)) (Z.of_nat (length frames) - 1))
      as [Hlt|Hge]; [|cbn [length] in Hlen; lia].
    change (done ++ (h :: l) :: l' :: rest) with (done ++ [h :: l] ++ l' :: rest).
    rewrite app_assoc.
    match goal with
    | |- context [fold_left _ _ ?st1] =>
        destruct (IH (done ++ [h :: l]) st1) as (Hc & Ho & Hl' & Hp)
    end.
    + discriminate.
    + exact Hall.
    + rewrite length_app. cbn [length] in *. lia.
    + cbn [currentFrameIndex]. rewrite length_app. cbn. lia.
    + reflexivity.
    + exact Hdone.
    + reflexivity.
    + reflexivity.
    + exact Hones'.
    + unfold run in *. split; [exact Hc|]. split; [exact Ho|].
      cbn [results] in Hl'. rewrite length_app in Hl'. cbn [length] in *.
      split; lia.
Qed.

(** X29.  A test whose frames all have a hotspot can be completed.  One click
    on the first hotspot of each frame, each followed by its timeout,
    completes the test with one result per frame, every one on the first
    attempt. *)
Theorem simulation_can_complete (frames : list string)
    (frameHotspots : list (list HotspotData)) (now : Z) :
  frames ≠ [] → length frameHotspots = length frames →
  Forall (λ l, l ≠ []) frameHotspots →
  isCompleted (run frames frameHotspots (perfect_run frameHotspots) (mount now)) = true ∧
  Forall (λ r, r_attempts r = 1)
    (results (run frames frameHotspots (perfect_run frameHotspots) (mount now))) ∧
  length (results (run frames frameHotspots (perfect_run frameHotspots) (mount now))) =
    length frames ∧
  length (perfect_run frameHotspots) = 2 * length frames.
Proof.
  intros Hne Hlen Hall.
  destruct (perfect_run_completes frames [] frameHotspots (mount now))
    as (Hc & Ho & Hl & Hp); try reflexivity.
  - intros ->. destruct frames; [contradiction|discriminate].
  - exact Hall.
  - cbn [length]. lia.
  - constructor.
  - cbn [app] in *. split; [exact Hc|]. split; [exact Ho|].
    cbn [mount results length] in Hl. split; lia.
Qed.

End SimulationFacts.

(** A hotspot placed in the middle of an image of 800 by 600 is hit by
    a click in the middle of the frame shown at 400 by 300. *)
Lemma placed_hotspot_is_hit_example :
  hotspot_x (Editor.newHotspot 5 400 300
               {| Editor.rect_left := 0; Editor.rect_top := 0;
                  Editor.rect_width := 800; Editor.rect_height := 600 |} []) =
    (400 / 800 * 100)%Q ∧
  length (Simulation.results
            (Simulation.handleImageClick
               [[Editor.newHotspot 5 400 300
                   {| Editor.rect_left := 0; Editor.rect_top := 0;
                      Editor.rect_width := 800; Editor.rect_height := 600 |} []]]
               9 210 160
               {| Editor.rect_left := 10; Editor.rect_top := 10;
                  Editor.rect_width := 400; Editor.rect_height := 300 |}
               (Simulation.mount 0))) = 1.
Proof.
  split; [reflexivity|].
  destruct (placed_hotspot_is_hit 5 400 300
              {| Editor.rect_left := 0; Editor.rect_top := 0;
                 Editor.rect_width := 800; Editor.rect_height := 600 |}
              (Editor.toggleAdding (Editor.initial None)))
    as (_ & _ & _ & _ & _ & Hhit).
  - reflexivity.
  - reflexivity.
  - reflexivity.
  - split; discriminate.
  - split; discriminate.
  - destruct (Hhit [[Editor.newHotspot 5 400 300
                       {| Editor.rect_left := 0; Editor.rect_top := 0;
                          Editor.rect_width := 800; Editor.rect_height := 600 |} []]]
                (Simulation.mount 0) 9%Z 210%Q 160%Q
                {| Editor.rect_left := 10; Editor.rect_top := 10;
                   Editor.rect_width := 400; Editor.rect_height := 300 |})
      as (target & _ & _ & Hlen).
    + apply list_elem_of_here.
    + reflexivity.
    + reflexivity.
    + reflexivity.
    + reflexivity.
    + exact Hlen.
Defined.

(** A test of one frame without hotspots: clicks and timeouts leave it
    on frame 0, without result. *)
Lemma frame_without_hotspots_blocks_example :
  Simulation.currentFrameIndex
    (Simulation.run ["f1.png"; "f2.png"] [[]; [Examples.hotspot "a" 50 50]]
       [Simulation.ImageClick 1 50 50 Simulation.percent_rect; Simulation.Timeout 2;
        Simulation.ImageClick 3 10 10 Simulation.percent_rect]
       (Simulation.mount 0)) = 0 ∧
  Simulation.results
    (Simulation.run ["f1.png"; "f2.png"] [[]; [Examples.hotspot "a" 50 50]]
       [Simulation.ImageClick 1 50 50 Simulation.percent_rect; Simulation.Timeout 2;
        Simulation.ImageClick 3 10 10 Simulation.percent_rect]
       (Simulation.mount 0)) = [].
Proof.
  destruct (frame_without_hotspots_blocks ["f1.png"; "f2.png"]
              [[]; [Examples.hotspot "a" 50 50]]
              [Simulation.ImageClick 1 50 50 Simulation.percent_rect; Simulation.Timeout 2;
               Simulation.ImageClick 3 10 10 Simulation.percent_rect]
              (Simulation.mount 0)) as (Hidx & Hres & _).
  - reflexivity.
  - constructor.
  - split; [exact Hidx|exact Hres].
Defined.

(** Two frames with a hotspot each: four events complete the test. *)
Lemma simulation_can_complete_example :
  Simulation.isCompleted
    (Simulation.run ["f1.png"; "f2.png"]
       [[Examples.hotspot "a" 50 50]; [Examples.hotspot "b" 20 80]]
       (Simulation.perfect_run [[Examples.hotspot "a" 50 50]; [Examples.hotspot "b" 20 80]])
       (Simulation.mount 0)) = true ∧
  length (Simulation.perfect_run
            [[Examples.hotspot "a" 50 50]; [Examples.hotspot "b" 20 80]]) = 4.
Proof.
  destruct (simulation_can_complete ["f1.png"; "f2.png"]
              [[Examples.hotspot "a" 50 50]; [Examples.hotspot "b" 20 80]] 0)
    as (Hc & _ & _ & Hp).
  - discriminate.
  - reflexivity.
  - repeat constructor; discriminate.
  - split; [exact Hc|exact Hp].
Defined.
